(** * gs_quant.markets.core: PricingCache and PricingContext

    A shallow embedding of [src/gs_quant/markets/core.py].

    Python objects with identity (contexts, futures) live in stores of the
    [World] and are named by their index.  Dictionaries are association
    lists in insertion order, which is the order Python iterates them in;
    sets are duplicate-free lists, and every set the source iterates is
    sorted first.  Code that can raise returns a [Res], which keeps the
    world as it was when the exception left the function. *)

From Stdlib Require Import List ZArith String Bool Arith Lia Permutation Sorted.
Import ListNotations.
Open Scope list_scope.

(** ** Decidable equality *)

Class EqDec (A : Type) := eq_dec : forall x y : A, {x = y} + {x <> y}.

#[export] Instance nat_EqDec : EqDec nat := Nat.eq_dec.
#[export] Instance Z_EqDec : EqDec Z := Z.eq_dec.
#[export] Instance bool_EqDec : EqDec bool := Bool.bool_dec.
#[export] Instance string_EqDec : EqDec string := String.string_dec.

#[export] Instance option_EqDec {A} `{EqDec A} : EqDec (option A).
Proof. intros x y. unfold EqDec in *. decide equality. Defined.

#[export] Instance list_EqDec {A} `{EqDec A} : EqDec (list A).
Proof. intros x y. unfold EqDec in *. decide equality. Defined.

#[export] Instance prod_EqDec {A B} `{EqDec A} `{EqDec B} : EqDec (A * B).
Proof. intros x y. unfold EqDec in *. decide equality. Defined.

Definition eqb {A} `{EqDec A} (x y : A) : bool :=
  if eq_dec x y then true else false.

(** ** Python dictionaries, in insertion order *)

Section Dict.
Context {K V : Type} `{EqDec K}.

Definition dict := list (K * V).

(** [d.get(k)] *)
Fixpoint dict_get (k : K) (d : dict) : option V :=
  match d with
  | [] => None
  | (k', v) :: d' => if eq_dec k k' then Some v else dict_get k d'
  end.

(** [k in d] *)
Definition dict_mem (k : K) (d : dict) : bool :=
  match dict_get k d with Some _ => true | None => false end.

(** [d[k] = v]: an existing key keeps its place, a new one goes last. *)
Fixpoint dict_set (k : K) (v : V) (d : dict) : dict :=
  match d with
  | [] => [(k, v)]
  | (k', v') :: d' =>
      if eq_dec k k' then (k', v) :: d' else (k', v') :: dict_set k v d'
  end.

(** [d.pop(k)], for a key that is there; the caller handles the other case. *)
Fixpoint dict_remove (k : K) (d : dict) : dict :=
  match d with
  | [] => []
  | (k', v') :: d' =>
      if eq_dec k k' then d' else (k', v') :: dict_remove k d'
  end.

(** [f(d.setdefault(k, dflt))] where [f] mutates the value in place. *)
Fixpoint dict_setdefault (k : K) (dflt : V) (f : V -> V) (d : dict) : dict :=
  match d with
  | [] => [(k, f dflt)]
  | (k', v') :: d' =>
      if eq_dec k k' then (k', f v') :: d'
      else (k', v') :: dict_setdefault k dflt f d'
  end.

Definition dict_keys (d : dict) : list K := map fst d.
Definition dict_values (d : dict) : list V := map snd d.
End Dict.

Arguments dict : clear implicits.

(** [s.add(x)] on a set kept as a duplicate-free list. *)
Definition set_add {A} `{EqDec A} (x : A) (s : list A) : list A :=
  if in_dec eq_dec x s then s else s ++ [x].

(** ** Collaborator types

    [RiskKey], [Priceable], [Market], [RiskRequest] and the result values are
    imported by the source; only the parts the source touches are kept. *)

Definition Provider := nat.
Definition Date := Z.
Definition RiskMeasure := nat.

(** [isinstance(m, LiveMarket)] is the only thing the source asks of a market. *)
Inductive Market : Type :=
| CloseMarket (location : nat)
| LiveMarket (location : nat).

Definition is_LiveMarket (m : Market) : bool :=
  match m with LiveMarket _ => true | CloseMarket _ => false end.

Record RiskRequestParameters : Type := mkParams {
  rp_csa_term : option string;
  rp_raw_results : bool
}.

Definition Scenario := nat.

Inductive MarketDataScenario : Type :=
| SingleScenario (s : Scenario)
| CompositeScenario (scenarios : list Scenario).

Record Priceable : Type := mkPriceable {
  p_id : nat;
  provider : Provider;
  get_quantity : Z
}.

Record RiskKey : Type := mkRiskKey {
  rk_provider : Provider;
  rk_date : Date;
  rk_market : Market;
  rk_params : RiskRequestParameters;
  rk_scenario : option MarketDataScenario;
  rk_risk_measure : RiskMeasure
}.

Inductive Exn : Type :=
| KeyError
| AlreadyResolvedError
| ProviderError (code : nat)
| CallerError (code : nat).

(** What a future can hold: a calculation result, an [ErrorValue] the provider
    returned inside a response, or the exception object a dispatch raised. *)
Inductive Value : Type :=
| FloatWithInfo (x : Z)
| StringWithInfo (s : string)
| DataFrameWithInfo (rows : list Z)
| ErrorValue (msg : string)
| ExceptionValue (e : Exn).

Definition is_ErrorValue (v : Value) : bool :=
  match v with ErrorValue _ => true | _ => false end.

#[export] Instance Market_EqDec : EqDec Market.
Proof. intros x y. unfold EqDec in *. decide equality; apply Nat.eq_dec. Defined.

#[export] Instance Params_EqDec : EqDec RiskRequestParameters.
Proof.
  intros x y. unfold EqDec in *. decide equality.
  - apply Bool.bool_dec.
  - apply (eq_dec (A := option string)).
Defined.

#[export] Instance MDS_EqDec : EqDec MarketDataScenario.
Proof.
  intros x y. unfold EqDec in *. decide equality.
  - apply Nat.eq_dec.
  - apply (eq_dec (A := list nat)).
Defined.

#[export] Instance Priceable_EqDec : EqDec Priceable.
Proof.
  intros x y. unfold EqDec in *. decide equality;
    first [apply Z.eq_dec | apply Nat.eq_dec].
Defined.

#[export] Instance RiskKey_EqDec : EqDec RiskKey.
Proof.
  intros x y. unfold EqDec in *. decide equality.
  - apply Nat.eq_dec.
  - apply (eq_dec (A := option MarketDataScenario)).
  - apply Params_EqDec.
  - apply Market_EqDec.
  - apply Z.eq_dec.
  - apply Nat.eq_dec.
Defined.

(** ** PricingCache *)

Definition CacheStore := dict Priceable (dict RiskKey Value).

Module PricingCache.

(** [__cache = weakref.WeakKeyDictionary()] binds a name local to the
    method; the class attribute [cls.__cache] is not assigned. *)
Definition clear (cache : CacheStore) : CacheStore :=
  let __cache : CacheStore := [] in
  cache.

(** [cls.__cache.get(priceable, {}).get(risk_key)] *)
Definition get (risk_key : RiskKey) (priceable : Priceable)
    (cache : CacheStore) : option Value :=
  match dict_get priceable cache with
  | Some by_key => dict_get risk_key by_key
  | None => dict_get risk_key []
  end.

Definition put (risk_key : RiskKey) (priceable : Priceable) (result : Value)
    (cache : CacheStore) : CacheStore :=
  if negb (is_ErrorValue result) && negb (is_LiveMarket (rk_market risk_key))
  then dict_setdefault priceable [] (dict_set risk_key result) cache
  else cache.

Definition drop (priceable : Priceable) (cache : CacheStore) : CacheStore :=
  if dict_mem priceable cache then dict_remove priceable cache else cache.

End PricingCache.


(** ** Outbound requests and the provider *)

Record RiskPosition : Type := mkRiskPosition {
  instrument : Priceable;
  quantity : Z
}.

Record PricingDateAndMarketDataAsOf : Type := mkAsOf {
  asof_pricing_date : Date;
  asof_market : Market
}.

Record RiskRequest : Type := mkRiskRequest {
  positions : list RiskPosition;
  measures : list RiskMeasure;
  parameters : RiskRequestParameters;
  wait_for_results : bool;
  scenario : option MarketDataScenario;
  pricing_and_market_data_as_of : list PricingDateAndMarketDataAsOf;
  request_visible_to_gs : bool
}.

Definition PendingKey : Type := RiskKey * Priceable.
Definition ResultMap : Type := dict PendingKey Value.

Inductive Response : Type :=
| Returned (results : list ResultMap)
| Raised (e : Exn).

(** The provider reached through [GsSession.current], as the two entry points
    [run_requests] calls.  In batch mode [calc_multi] returns request ids,
    which only [get_results] reads; the model keeps whether it raised. *)
Record Session : Type := mkSession {
  calc_multi : Provider -> list RiskRequest -> Response;
  get_results : Provider -> list RiskRequest -> option Z -> Response
}.

(** ** Contexts, futures and the world *)

Definition FutureId := nat.
Definition CtxId := nat.

(** A [PricingContext] object: the arguments of [__init__], the pending map,
    and, modelled from the spec, the [is_entered] flag that the context base
    class of [gs_quant.context_base] keeps while the context is inside its
    [with] scope. *)
Record PricingContext : Type := mkContext {
  pricing_date : Date;
  market_data_location : option nat;
  is_async : bool;
  is_batch : bool;
  use_cache : bool;
  visible_to_gs : bool;
  csa_term : option string;
  batch_results_timeout : option Z;
  market : Market;
  pending : dict PendingKey FutureId;
  is_entered : bool
}.

(** What the log of a world records: the lock of a context taken and given
    back, and a batch of requests sent to a provider. *)
Inductive Event : Type :=
| Acquire (c : CtxId)
| Release (c : CtxId)
| CalcMulti (p : Provider) (requests : list RiskRequest).

(** A task handed to the [ThreadPoolExecutor]: one [run_requests] call, which
    other threads can overtake between its provider call and the moment it
    takes the lock to resolve the futures. *)
Inductive Phase : Type :=
| Submitted
| Dispatched (results : list ResultMap)
| Finished (raised : option Exn).

Record Worker : Type := mkWorker {
  wk_self : CtxId;
  wk_provider : Provider;
  wk_requests : list RiskRequest;
  wk_phase : Phase
}.

(** The process: the context objects by address, the class-level
    [PricingContext.path] (innermost last) and [Scenario.path], both modelled
    from the spec, the store of [PricingCache], the futures by address, the
    pooled tasks still running after an asynchronous flush, and the log. *)
Record World : Type := mkWorld {
  contexts : list PricingContext;
  path : list CtxId;
  scenario_path : list Scenario;
  cache : CacheStore;
  futures : list (option Value);
  background : list Worker;
  log : list Event
}.

Definition default_context : PricingContext :=
  mkContext 0%Z None false false false false None None (CloseMarket 0) [] false.

Definition get_ctx (c : CtxId) (w : World) : PricingContext :=
  nth c (contexts w) default_context.

Fixpoint list_update {A} (i : nat) (f : A -> A) (l : list A) : list A :=
  match l, i with
  | [], _ => []
  | x :: l', O => f x :: l'
  | x :: l', S i' => x :: list_update i' f l'
  end.

Definition with_pending (pend : dict PendingKey FutureId)
    (c : PricingContext) : PricingContext :=
  mkContext (pricing_date c) (market_data_location c) (is_async c) (is_batch c)
    (use_cache c) (visible_to_gs c) (csa_term c) (batch_results_timeout c)
    (market c) pend (is_entered c).

Definition set_pending (c : CtxId) (pend : dict PendingKey FutureId)
    (w : World) : World :=
  mkWorld (list_update c (with_pending pend) (contexts w)) (path w)
    (scenario_path w) (cache w) (futures w) (background w) (log w).

Definition set_cache (cs : CacheStore) (w : World) : World :=
  mkWorld (contexts w) (path w) (scenario_path w) cs (futures w)
    (background w) (log w).

Definition set_futures (fs : list (option Value)) (w : World) : World :=
  mkWorld (contexts w) (path w) (scenario_path w) (cache w) fs
    (background w) (log w).

Definition set_background (ws : list Worker) (w : World) : World :=
  mkWorld (contexts w) (path w) (scenario_path w) (cache w) (futures w)
    ws (log w).

Definition emit (ev : Event) (w : World) : World :=
  mkWorld (contexts w) (path w) (scenario_path w) (cache w) (futures w)
    (background w) (log w ++ [ev]).

(** ** Code that can raise *)

Inductive Res (A : Type) : Type :=
| Ok (a : A) (w : World)
| Raise (e : Exn) (w : World).

Arguments Ok {A} a w.
Arguments Raise {A} e w.

Definition M (A : Type) : Type := World -> Res A.

Definition ret {A} (a : A) : M A := fun w => Ok a w.

Definition raise {A} (e : Exn) : M A := fun w => Raise e w.

Definition bind {A B} (m : M A) (k : A -> M B) : M B :=
  fun w => match m w with
           | Ok a w' => k a w'
           | Raise e w' => Raise e w'
           end.

Definition modify (f : World -> World) : M unit := fun w => Ok tt (f w).

Definition reads {A} (f : World -> A) : M A := fun w => Ok (f w) w.

(** [try: m finally: h] *)
Definition finally {A} (m : M A) (h : World -> World) : M A :=
  fun w => match m w with
           | Ok a w' => Ok a (h w')
           | Raise e w' => Raise e (h w')
           end.

Definition res_world {A} (r : Res A) : World :=
  match r with Ok _ w => w | Raise _ w => w end.

Declare Scope py_scope.
Delimit Scope py_scope with py.
Notation "x <- m ;; k" := (bind m (fun x => k))
  (at level 61, m at next level, right associativity) : py_scope.
Notation "m ;; k" := (bind m (fun _ => k))
  (at level 61, right associativity) : py_scope.
Open Scope py_scope.

(** [with self.__lock: body] *)
Definition with_lock {A} (c : CtxId) (body : M A) : M A :=
  modify (emit (Acquire c)) ;; finally body (emit (Release c)).

(** Modelled from the spec: [PricingFuture] of [gs_quant.risk.results], a
    single-assignment holder.  A new future is a fresh cell of the store. *)
Definition PricingFuture : M FutureId :=
  fun w => Ok (List.length (futures w)) (set_futures (futures w ++ [None]) w).

(** Modelled from the spec: [PricingFuture.set_result], which completes the
    future once; a second call signals [AlreadyResolvedError]. *)
Definition set_result (f : FutureId) (v : Value) : M unit :=
  fun w => match nth_error (futures w) f with
           | Some None =>
               Ok tt (set_futures (list_update f (fun _ => Some v) (futures w)) w)
           | _ => Raise AlreadyResolvedError w
           end.

(** Modelled from the spec: [PricingFuture.done]. *)
Definition done (f : FutureId) (w : World) : bool :=
  match nth_error (futures w) f with
  | Some (Some _) => true
  | _ => false
  end.

(** The value a completed future holds. *)
Definition future_value (f : FutureId) (w : World) : option Value :=
  match nth_error (futures w) f with
  | Some o => o
  | None => None
  end.

(** ** Sorting, as [sorted] does it on the two sets the flush iterates *)

Fixpoint insert_sorted {A} (leb : A -> A -> bool) (x : A) (l : list A) : list A :=
  match l with
  | [] => [x]
  | y :: l' => if leb x y then x :: l else y :: insert_sorted leb x l'
  end.

Definition sorted {A} (leb : A -> A -> bool) (l : list A) : list A :=
  fold_right (insert_sorted leb) [] l.

(** [sorted(dates_markets)] at line 203 compares tuples: the dates decide
    when they differ, and on equal dates Python asks the two markets, with
    the comparison of the [Market] classes.  These classes are imported by
    the source, so their comparison is a parameter of the model, about which
    nothing is assumed.  A comparison that raises is outside the model:
    what is stated about the order of the as-of pairs is stated for
    pairwise distinct dates, where no two markets are compared. *)
Class MarketOrder : Type := market_lt : Market -> Market -> bool.

(** [a < b] on tuples [(date, market)]. *)
Definition date_market_lt `{MarketOrder} (a b : Date * Market) : bool :=
  (fst a <? fst b)%Z || ((fst a =? fst b)%Z && market_lt (snd a) (snd b)).

(** ** PricingContext *)

(** [self.__parameters] *)
Definition __parameters (self : PricingContext) : RiskRequestParameters :=
  mkParams (csa_term self) true.

(** [self.__scenario], read from the process-wide [Scenario.path]. *)
Definition __scenario (w : World) : option MarketDataScenario :=
  match scenario_path w with
  | [] => None
  | [s] => Some (SingleScenario s)
  | scenarios => Some (CompositeScenario (rev scenarios))
  end.

Definition __risk_key (self : CtxId) (risk_measure : RiskMeasure)
    (provider_ : Provider) (w : World) : RiskKey :=
  mkRiskKey provider_ (pricing_date (get_ctx self w)) (market (get_ctx self w))
    (__parameters (get_ctx self w)) (__scenario w) risk_measure.

(** [next((c for c in reversed(PricingContext.path) if c.is_entered), self)] *)
Definition active_context (self : CtxId) (w : World) : CtxId :=
  match find (fun c => is_entered (get_ctx c w)) (rev (path w)) with
  | Some c => c
  | None => self
  end.

(** *** Grouping of the pending keys (lines 169-207) *)

Definition PSDM : Type :=
  RiskRequestParameters * option MarketDataScenario * Date * Market.

Definition ByProvider : Type :=
  dict Provider (dict PSDM (dict Priceable (list RiskMeasure))).

Definition group_step (acc : ByProvider) (kp : PendingKey) : ByProvider :=
  let '(key, priceable) := kp in
  dict_setdefault (rk_provider key) []
    (dict_setdefault (rk_params key, rk_scenario key, rk_date key, rk_market key) []
       (dict_setdefault priceable [] (set_add (rk_risk_measure key))))
    acc.

Definition requests_by_provider (keys : list PendingKey) : ByProvider :=
  fold_left group_step keys [].

Definition ForProvider : Type :=
  dict (PSDM * list RiskMeasure) (list Priceable).

Definition for_provider_step (g : PSDM) (acc : ForProvider)
    (pm : Priceable * list RiskMeasure) : ForProvider :=
  let '(priceable, risk_measures) := pm in
  dict_setdefault (g, sorted Nat.leb risk_measures) []
    (fun priceables => priceables ++ [priceable]) acc.

Definition requests_for_provider
    (by_params_scenario_date_market : dict PSDM (dict Priceable (list RiskMeasure)))
    : ForProvider :=
  fold_left
    (fun acc (entry : PSDM * dict Priceable (list RiskMeasure)) =>
       fold_left (for_provider_step (fst entry)) (snd entry) acc)
    by_params_scenario_date_market [].

Definition ByDateMarket : Type :=
  dict (RiskRequestParameters * option MarketDataScenario * list RiskMeasure
        * list Priceable)
       (list (Date * Market)).

Definition by_date_market_step (acc : ByDateMarket)
    (entry : PSDM * list RiskMeasure * list Priceable) : ByDateMarket :=
  let '(params, scenario_, date, market_, risk_measures, priceables) := entry in
  dict_setdefault (params, scenario_, risk_measures, priceables) []
    (set_add (date, market_)) acc.

Definition requests_by_date_market (rfp : ForProvider) : ByDateMarket :=
  fold_left by_date_market_step rfp [].

Definition make_request `{MarketOrder} (self : PricingContext)
    (entry : RiskRequestParameters * option MarketDataScenario
             * list RiskMeasure * list Priceable * list (Date * Market))
    : RiskRequest :=
  let '(params, scenario_, risk_measures, priceables, dates_markets) := entry in
  mkRiskRequest
    (map (fun p => mkRiskPosition p (get_quantity p)) priceables)
    risk_measures
    (__parameters self)
    (negb (is_batch self))
    scenario_
    (map (fun dm => mkAsOf (fst dm) (snd dm)) (sorted date_market_lt dates_markets))
    (visible_to_gs self).

Definition build_requests `{MarketOrder} (self : PricingContext)
    (by_params_scenario_date_market : dict PSDM (dict Priceable (list RiskMeasure)))
    : list RiskRequest :=
  map (make_request self)
    (requests_by_date_market (requests_for_provider by_params_scenario_date_market)).

(** The batches of one flush: per provider, in the order the providers first
    occur among the pending keys. *)
Definition Job : Type := Provider * list RiskRequest.

Definition jobs `{MarketOrder} (self : PricingContext) (rbp : ByProvider) : list Job :=
  map (fun entry => (fst entry, build_requests self (snd entry))) rbp.

Definition jobs_of `{MarketOrder} (self : PricingContext) (keys : list PendingKey) : list Job :=
  jobs self (requests_by_provider keys).

(** *** [run_requests] (lines 149-167) *)

(** [({k: e for k in self.__pending.keys()},)] *)
Definition exception_results (self : CtxId) (e : Exn) (w : World) : list ResultMap :=
  [map (fun k => (k, ExceptionValue e)) (dict_keys (pending (get_ctx self w)))].

(** The body of the [try] block: [calc_multi], then in batch mode
    [get_results] on what it returned. *)
Definition try_block (srv : Session) (c : PricingContext)
    (requests_ : list RiskRequest) (provider_ : Provider) : Response :=
  match calc_multi srv provider_ requests_ with
  | Raised e => Raised e
  | Returned results =>
      if is_batch c
      then get_results srv provider_ requests_ (batch_results_timeout c)
      else Returned results
  end.

(** The [try] block with its [except] handler: the provider is called and
    the local [results] is what the [finally] block will iterate. *)
Definition dispatch (srv : Session) (self : CtxId) (requests_ : list RiskRequest)
    (provider_ : Provider) (w : World) : list ResultMap * World :=
  let w1 := emit (CalcMulti provider_ requests_) w in
  match try_block srv (get_ctx self w1) requests_ provider_ with
  | Raised e => (exception_results self e w1, w1)
  | Returned results => (results, w1)
  end.

(** [self.__pending.pop(k)] *)
Definition pending_pop (self : CtxId) (k : PendingKey) : M FutureId :=
  fun w => match dict_get k (pending (get_ctx self w)) with
           | Some f =>
               Ok f (set_pending self (dict_remove k (pending (get_ctx self w))) w)
           | None => Raise KeyError w
           end.

Definition resolve_item (self : CtxId) (item : PendingKey * Value) : M unit :=
  let '((risk_key, result_priceable), value) := item in
  uc <- reads (fun w => use_cache (get_ctx self w)) ;;
  (if uc
   then modify (fun w =>
          set_cache (PricingCache.put risk_key result_priceable value (cache w)) w)
   else ret tt) ;;
  f <- pending_pop self (risk_key, result_priceable) ;;
  set_result f value.

Fixpoint for_each {A} (body : A -> M unit) (l : list A) : M unit :=
  match l with
  | [] => ret tt
  | x :: l' => body x ;; for_each body l'
  end.

(** The [finally] block. *)
Definition resolve (self : CtxId) (results : list ResultMap) : M unit :=
  with_lock self (for_each (for_each (resolve_item self)) results).

Definition run_requests (srv : Session) (self : CtxId)
    (requests_ : list RiskRequest) (provider_ : Provider) : M unit :=
  fun w => let (results, w') := dispatch srv self requests_ provider_ w in
           resolve self results w'.

(** *** The thread pool *)

Definition with_phase (ph : Phase) (wk : Worker) : Worker :=
  mkWorker (wk_self wk) (wk_provider wk) (wk_requests wk) ph.

(** One uninterrupted stretch of a pooled [run_requests].  An exception that
    leaves the task stays in the executor's own future, which nobody reads. *)
Definition worker_step (srv : Session) (wk : Worker) (w : World) : Worker * World :=
  match wk_phase wk with
  | Submitted =>
      let (results, w') :=
        dispatch srv (wk_self wk) (wk_requests wk) (wk_provider wk) w in
      (with_phase (Dispatched results) wk, w')
  | Dispatched results =>
      match resolve (wk_self wk) results w with
      | Ok _ w' => (with_phase (Finished None) wk, w')
      | Raise e w' => (with_phase (Finished (Some e)) wk, w')
      end
  | Finished _ => (wk, w)
  end.

(** A schedule names, step by step, the task that runs next. *)
Fixpoint pool_steps (srv : Session) (sched : list nat) (pool : list Worker)
    (w : World) : list Worker * World :=
  match sched with
  | [] => (pool, w)
  | i :: sched' =>
      match nth_error pool i with
      | Some wk =>
          let (wk', w') := worker_step srv wk w in
          pool_steps srv sched' (list_update i (fun _ => wk') pool) w'
      | None => pool_steps srv sched' pool w
      end
  end.

(** [request_pool.shutdown(wait=True)]: the tasks run as the schedule says,
    and whatever it leaves unfinished is run to its end before the call
    returns. *)
Definition pool_join (srv : Session) (sched : list nat) (pool : list Worker)
    (w : World) : list Worker * World :=
  pool_steps srv
    (sched ++ flat_map (fun i => [i; i]) (seq 0 (List.length pool))) pool w.

(** A step of a task that [shutdown(wait=False)] left running. *)
Definition background_step (srv : Session) (i : nat) (w : World) : World :=
  match nth_error (background w) i with
  | Some wk =>
      let (wk', w') := worker_step srv wk w in
      set_background (list_update i (fun _ => wk') (background w')) w'
  | None => w
  end.

(** *** [__calc] (lines 145-215) *)

(** The locked loop over [self.__pending.keys()].  Nothing is removed from
    the pending map here. *)
Definition snapshot (self : CtxId) : M ByProvider :=
  with_lock self
    (reads (fun w => requests_by_provider (dict_keys (pending (get_ctx self w))))).

Definition dispatch_all `{MarketOrder} (srv : Session) (sched : list nat) (self : CtxId)
    (rbp : ByProvider) : M unit :=
  match rbp with
  | [] => ret tt
  | _ =>
      c <- reads (get_ctx self) ;;
      let num_providers := List.length rbp in
      if (1 <? num_providers) || is_async c then
        let pool :=
          map (fun j => mkWorker self (fst j) (snd j) Submitted) (jobs c rbp) in
        if is_async c
        then modify (fun w => set_background (background w ++ pool) w)
        else modify (fun w => snd (pool_join srv sched pool w))
      else for_each (fun j => run_requests srv self (snd j) (fst j)) (jobs c rbp)
  end.

Definition __calc `{MarketOrder} (srv : Session) (sched : list nat) (self : CtxId) : M unit :=
  rbp <- snapshot self ;;
  dispatch_all srv sched self rbp.

Definition _on_exit `{MarketOrder} (srv : Session) (sched : list nat) (self : CtxId)
    (exc_val : option Exn) : M unit :=
  match exc_val with
  | Some e => raise e
  | None => __calc srv sched self
  end.

(** *** [calc] (lines 285-317) *)

(** The block under [with self.active_context.__lock]. *)
Definition calc_locked (self : CtxId) (priceable : Priceable)
    (risk_measure : RiskMeasure) : M FutureId :=
  active <- reads (active_context self) ;;
  with_lock active
    (risk_key <- reads (__risk_key self risk_measure (provider priceable)) ;;
     found <- reads (fun w =>
                dict_get (risk_key, priceable) (pending (get_ctx active w))) ;;
     match found with
     | Some future => ret future
     | None =>
         future <- PricingFuture ;;
         uc <- reads (fun w => use_cache (get_ctx self w)) ;;
         cached_result <-
           (if uc
            then reads (fun w => PricingCache.get risk_key priceable (cache w))
            else ret None) ;;
         match cached_result with
         | Some v => set_result future v ;; ret future
         | None =>
             modify (fun w =>
               set_pending active
                 (dict_set (risk_key, priceable) future
                    (pending (get_ctx active w))) w) ;;
             ret future
         end
     end).

Definition calc `{MarketOrder} (srv : Session) (sched : list nat) (self : CtxId)
    (priceable : Priceable) (risk_measure : RiskMeasure) : M FutureId :=
  future <- calc_locked self priceable risk_measure ;;
  c <- reads (get_ctx self) ;;
  (if negb (is_entered c || is_async c)
   then __calc srv sched self
   else ret tt) ;;
  ret future.

(** *** [__init__] (lines 74-137) and [clone] (lines 280-283) *)

(** What [__init__] takes from outside the class: the day
    [business_day_offset(dt.date.today(), 0, roll='preceding')] returns,
    [get_enum_value(PricingLocation, .)] and the location of the market
    [CloseMarket()] builds. *)
Record Outside : Type := mkOutside {
  business_day_today : Date;
  get_enum_value : option nat -> option nat;
  close_market_location : nat
}.

(** The keyword arguments of [__init__]. *)
Record InitArgs : Type := mkInitArgs {
  a_pricing_date : option Date;
  a_market_data_location : option nat;
  a_is_async : bool;
  a_is_batch : bool;
  a_use_cache : bool;
  a_visible_to_gs : bool;
  a_csa_term : option string;
  a_batch_results_timeout : option Z;
  a_market : option Market
}.

(** [x or dflt] *)
Definition or_else {A} (x : option A) (dflt : A) : A :=
  match x with Some a => a | None => dflt end.

Definition add_context (ctx : PricingContext) (w : World) : World :=
  mkWorld (contexts w ++ [ctx]) (path w) (scenario_path w) (cache w)
    (futures w) (background w) (log w).

(** The new object has its own empty pending map; that it is not entered is
    modelled from the spec (the base class sets it). *)
Definition __init__ (env : Outside) (args : InitArgs) : M CtxId :=
  fun w =>
    Ok (List.length (contexts w))
       (add_context
          (mkContext
             (or_else (a_pricing_date args) (business_day_today env))
             (get_enum_value env (a_market_data_location args))
             (a_is_async args) (a_is_batch args) (a_use_cache args)
             (a_visible_to_gs args) (a_csa_term args)
             (a_batch_results_timeout args)
             (or_else (a_market args) (CloseMarket (close_market_location env)))
             [] false)
          w).

(** The [**kwargs] of [clone]: for each parameter of [__init__], the value
    given for it, if one is. *)
Record Overrides : Type := mkOverrides {
  o_pricing_date : option (option Date);
  o_market_data_location : option (option nat);
  o_is_async : option bool;
  o_is_batch : option bool;
  o_use_cache : option bool;
  o_visible_to_gs : option bool;
  o_csa_term : option (option string);
  o_batch_results_timeout : option (option Z);
  o_market : option (option Market)
}.

Definition no_overrides : Overrides :=
  mkOverrides None None None None None None None None None.

(** [clone_kwargs.update(kwargs)] *)
Definition update (clone_kwargs : InitArgs) (kwargs : Overrides) : InitArgs :=
  mkInitArgs
    (or_else (o_pricing_date kwargs) (a_pricing_date clone_kwargs))
    (or_else (o_market_data_location kwargs) (a_market_data_location clone_kwargs))
    (or_else (o_is_async kwargs) (a_is_async clone_kwargs))
    (or_else (o_is_batch kwargs) (a_is_batch clone_kwargs))
    (or_else (o_use_cache kwargs) (a_use_cache clone_kwargs))
    (or_else (o_visible_to_gs kwargs) (a_visible_to_gs clone_kwargs))
    (or_else (o_csa_term kwargs) (a_csa_term clone_kwargs))
    (or_else (o_batch_results_timeout kwargs) (a_batch_results_timeout clone_kwargs))
    (or_else (o_market kwargs) (a_market clone_kwargs)).

(** [{k: getattr(self, k, None) for k in signature(self.__init__).parameters}]:
    each parameter of [__init__] is the name of a property of the class. *)
Definition clone_kwargs_of (self : PricingContext) : InitArgs :=
  mkInitArgs (Some (pricing_date self)) (market_data_location self)
    (is_async self) (is_batch self) (use_cache self) (visible_to_gs self)
    (rp_csa_term (__parameters self)) (batch_results_timeout self)
    (Some (market self)).

Definition clone (env : Outside) (self : CtxId) (kwargs : Overrides) : M CtxId :=
  c <- reads (get_ctx self) ;;
  __init__ env (update (clone_kwargs_of c) kwargs).

(** ** Vocabulary of the properties *)

(** The cache states the four class methods can produce from the empty
    [WeakKeyDictionary] the class starts with. *)
Inductive cache_reachable : CacheStore -> Prop :=
| reach_empty : cache_reachable []
| reach_put rk p v c :
    cache_reachable c -> cache_reachable (PricingCache.put rk p v c)
| reach_drop p c :
    cache_reachable c -> cache_reachable (PricingCache.drop p c)
| reach_clear c :
    cache_reachable c -> cache_reachable (PricingCache.clear c).

(** Every stored result is a non-error value under a non-live market. *)
Definition cache_clean (cache : CacheStore) : Prop :=
  forall p by_key rk v,
    In (p, by_key) cache -> In (rk, v) by_key ->
    is_ErrorValue v = false /\ is_LiveMarket (rk_market rk) = false.

(** Replacing the whole object behind a context id. *)
Definition set_ctx (c : CtxId) (ctx : PricingContext) (w : World) : World :=
  mkWorld (list_update c (fun _ => ctx) (contexts w)) (path w)
    (scenario_path w) (cache w) (futures w) (background w) (log w).

(** The pending map of [c] is well formed: [c] is a live context, every
    pair occurs once, and the futures it holds are distinct and unresolved. *)
Definition pending_wf (c : CtxId) (w : World) : Prop :=
  c < List.length (contexts w) /\
  NoDup (dict_keys (pending (get_ctx c w))) /\
  NoDup (dict_values (pending (get_ctx c w))) /\
  forall f, In f (dict_values (pending (get_ctx c w))) ->
            nth_error (futures w) f = Some None.

(** What the loop of the [finally] block has done once it went through the
    items [rm] without raising. *)
Definition resolved_with (c : CtxId) (rm : ResultMap) (w w' : World) : Prop :=
  (forall k, dict_get k (pending (get_ctx c w')) =
             if dict_mem k rm then None else dict_get k (pending (get_ctx c w))) /\
  (forall k f, dict_get k (pending (get_ctx c w)) = Some f ->
               future_value f w' = dict_get k rm) /\
  (forall f, ~ In f (dict_values (pending (get_ctx c w))) ->
             nth_error (futures w') f = nth_error (futures w) f) /\
  (forall c', c' <> c -> get_ctx c' w' = get_ctx c' w) /\
  (exists pend, get_ctx c w' = with_pending pend (get_ctx c w)) /\
  List.length (futures w') = List.length (futures w) /\
  List.length (contexts w') = List.length (contexts w) /\
  path w' = path w /\ background w' = background w /\
  scenario_path w' = scenario_path w.

(** A submitted task run from its provider call to the end of its [finally]
    block with no other thread in between. *)
Definition run_worker (srv : Session) (wk : Worker) (w : World) : World :=
  let (wk1, w1) := worker_step srv wk w in
  snd (worker_step srv wk1 w1).

(** What work on behalf of context [c] may change between [w] and [w']:
    other contexts keep their state, futures that [c] does not hold pending
    keep theirs, and [c] gains no pending future. *)
Definition touches_only (c : CtxId) (w w' : World) : Prop :=
  (forall c', c' <> c -> get_ctx c' w' = get_ctx c' w) /\
  (forall f, ~ In f (dict_values (pending (get_ctx c w))) ->
             nth_error (futures w') f = nth_error (futures w) f) /\
  incl (dict_values (pending (get_ctx c w'))) (dict_values (pending (get_ctx c w))).

(** First occurrences, in order: what iterating a set built by successive
    [add] calls, or the keys of a dict built by successive [setdefault]
    calls, yields. *)
Definition dedup {A} `{EqDec A} (l : list A) : list A :=
  fold_left (fun acc x => set_add x acc) l [].

(** The dict a loop [for x in l: upd(x, d.setdefault(kf(x), dflt))] builds
    from the empty dict, written out: one entry per key in order of first
    occurrence, holding the updates of the elements with that key. *)
Definition grouped {A K V} `{EqDec K} (kf : A -> K) (upd : A -> V -> V)
    (dflt : V) (l : list A) : dict K V :=
  map (fun k => (k, fold_left (fun v x => upd x v)
                      (filter (fun x => eqb (kf x) k) l) dflt))
      (dedup (map kf l)).

(** The fields of a pending key the flush groups by. *)
Definition key_provider (kp : PendingKey) : Provider := rk_provider (fst kp).

Definition key_psdm (kp : PendingKey) : PSDM :=
  (rk_params (fst kp), rk_scenario (fst kp), rk_date (fst kp), rk_market (fst kp)).

Definition key_dm (kp : PendingKey) : Date * Market :=
  (rk_date (fst kp), rk_market (fst kp)).

Definition key_measure (kp : PendingKey) : RiskMeasure := rk_risk_measure (fst kp).

(** The first grouping pass, level by level, as a function of the pending
    keys: the measures pending for one instrument, the instruments pending
    under one (parameters, scenario, date, market), these tuples for one
    provider, and the providers. *)
Definition measures_of (l : list PendingKey) : list RiskMeasure :=
  dedup (map key_measure l).

Definition positions_of (l : list PendingKey) : dict Priceable (list RiskMeasure) :=
  map (fun p => (p, measures_of (filter (fun kp => eqb (snd kp) p) l)))
      (dedup (map snd l)).

Definition by_psdm_of (l : list PendingKey)
    : dict PSDM (dict Priceable (list RiskMeasure)) :=
  map (fun g => (g, positions_of (filter (fun kp => eqb (key_psdm kp) g) l)))
      (dedup (map key_psdm l)).

Definition by_provider_of (l : list PendingKey) : ByProvider :=
  map (fun v => (v, by_psdm_of (filter (fun kp => eqb (key_provider kp) v) l)))
      (dedup (map key_provider l)).

(** The second and third grouping passes read one entry at a time. *)
Definition ForProviderItem : Type := PSDM * (Priceable * list RiskMeasure).

Definition for_provider_items
    (by_params_scenario_date_market : dict PSDM (dict Priceable (list RiskMeasure)))
    : list ForProviderItem :=
  flat_map (fun entry => map (pair (fst entry)) (snd entry))
    by_params_scenario_date_market.

Definition for_provider_key (x : ForProviderItem) : PSDM * list RiskMeasure :=
  (fst x, sorted Nat.leb (snd (snd x))).

Definition GroupKey : Type :=
  RiskRequestParameters * option MarketDataScenario * list RiskMeasure
  * list Priceable.

Definition date_market_key (entry : PSDM * list RiskMeasure * list Priceable)
    : GroupKey :=
  let '(params, scenario_, _, _, risk_measures, priceables) := entry in
  (params, scenario_, risk_measures, priceables).

Definition date_market_of (entry : PSDM * list RiskMeasure * list Priceable)
    : Date * Market :=
  let '(_, _, date, market_, _, _) := entry in (date, market_).

(** The groups of one flush, each of which becomes one [RiskRequest] of the
    batch of its provider. *)
Definition RequestGroup : Type := GroupKey * list (Date * Market).

Definition groups_of
    (by_params_scenario_date_market : dict PSDM (dict Priceable (list RiskMeasure)))
    : list RequestGroup :=
  requests_by_date_market (requests_for_provider by_params_scenario_date_market).

Definition flush_groups (keys : list PendingKey) : list (Provider * RequestGroup) :=
  flat_map (fun entry => map (pair (fst entry)) (groups_of (snd entry)))
    (requests_by_provider keys).

Definition mem {A} `{EqDec A} (x : A) (l : list A) : bool :=
  if in_dec eq_dec x l then true else false.

(** A group carries the calculation of a pending pair: its request asks for
    the pair's measure on the pair's instrument as of the pair's date and
    market, under the pair's parameters and scenario. *)
Definition group_covers (kp : PendingKey) (g : RequestGroup) : bool :=
  let '(params, scenario_, risk_measures, priceables, dates_markets) := g in
  eqb params (rk_params (fst kp)) && eqb scenario_ (rk_scenario (fst kp)) &&
  mem (key_measure kp) risk_measures && mem (snd kp) priceables &&
  mem (key_dm kp) dates_markets.

Definition covers (kp : PendingKey) (vg : Provider * RequestGroup) : bool :=
  eqb (fst vg) (key_provider kp) && group_covers kp (snd vg).

(** The order a comparison function decides. *)
Definition leb_rel {A} (leb : A -> A -> bool) (x y : A) : Prop := leb x y = true.

(** The grouping tuple of a (date, market) pair under given parameters and
    scenario. *)
Definition psdm_at (prm : RiskRequestParameters) (sc : option MarketDataScenario)
    (dm : Date * Market) : PSDM :=
  (prm, sc, fst dm, snd dm).

(** What the loop of the [finally] block has put in the store of a caching
    context once it went through the items [rm]. *)
Definition cache_all (rm : ResultMap) (cs : CacheStore) : CacheStore :=
  fold_left (fun cs (item : PendingKey * Value) =>
               PricingCache.put (fst (fst item)) (snd (fst item)) (snd item) cs)
    rm cs.

(** The tasks a flush of [self] hands to the pool. *)
Definition tasks_of `{MarketOrder} (self : CtxId) (w : World) : list Worker :=
  map (fun j : Job => mkWorker self (fst j) (snd j) Submitted)
    (jobs_of (get_ctx self w) (dict_keys (pending (get_ctx self w)))).

(** The store holds [cs] and context [c] does not cache. *)
Definition store_kept (c : CtxId) (cs : CacheStore) (w : World) : Prop :=
  cache w = cs /\ use_cache (get_ctx c w) = false.

(** What the provider answers to a batch, as one map; nothing when the
    call raises. *)
Definition answer (srv : Session) (ctx : PricingContext) (j : Job) : ResultMap :=
  match try_block srv ctx (snd j) (fst j) with
  | Returned results => List.concat results
  | Raised _ => []
  end.

(** Where the pooled task of batch [j] stands in a flush of [c] that began
    with the pending map [P0]: before its [finally] block the pairs of its
    answer are pending as they were, and after it their futures hold the
    answer and the pairs are gone. *)
Definition task_ok (srv : Session) (c : CtxId) (ctx0 : PricingContext)
    (P0 : dict PendingKey FutureId) (w : World) (j : Job) (wk : Worker) : Prop :=
  wk_self wk = c /\ wk_provider wk = fst j /\ wk_requests wk = snd j /\
  match wk_phase wk with
  | Submitted =>
      forall k, In k (dict_keys (answer srv ctx0 j)) ->
                dict_get k (pending (get_ctx c w)) = dict_get k P0
  | Dispatched results =>
      List.concat results = answer srv ctx0 j /\
      forall k, In k (dict_keys (answer srv ctx0 j)) ->
                dict_get k (pending (get_ctx c w)) = dict_get k P0
  | Finished r =>
      r = None /\
      forall k f, In k (dict_keys (answer srv ctx0 j)) ->
                  dict_get k P0 = Some f ->
                  future_value f w = dict_get k (answer srv ctx0 j) /\
                  dict_get k (pending (get_ctx c w)) = None
  end.

(** The pool of such a flush between two steps of its tasks. *)
Definition pool_ok (srv : Session) (c : CtxId) (ctx0 : PricingContext)
    (P0 : dict PendingKey FutureId) (js : list Job) (pool : list Worker)
    (w : World) : Prop :=
  pending_wf c w /\
  (exists P, get_ctx c w = with_pending P ctx0) /\
  (forall k f, dict_get k (pending (get_ctx c w)) = Some f ->
               dict_get k P0 = Some f) /\
  List.length pool = List.length js /\
  forall i j wk, nth_error js i = Some j -> nth_error pool i = Some wk ->
                 task_ok srv c ctx0 P0 w j wk.

(** The comparison of two (date, market) pairs by their dates alone, which
    is what the comparison of the tuples comes to whenever the dates
    differ. *)
Definition date_leb (a b : Date * Market) : bool := (fst a <=? fst b)%Z.

(** ** The interleavings and outcomes of a flush over two providers *)




(** Nothing has been registered or resolved between [w0] and [w]. *)
Definition same_objects (w0 w : World) : Prop :=
  contexts w = contexts w0 /\ futures w = futures w0.


(** The three ways a flush over two providers can end when the call to one
    of them raises [e] and the other, [B], answers [rm].  Every future of
    the pending map [P] has the exception; *)
Definition all_failed (c : CtxId) (P : dict PendingKey FutureId) (e : Exn)
    (w' : World) : Prop :=
  pending (get_ctx c w') = [] /\
  forall k f, dict_get k P = Some f ->
              future_value f w' = Some (ExceptionValue e).



(** ** Concrete instruments, keys, contexts and providers *)

Module Ex.

Definition swap : Priceable := mkPriceable 1 7 100%Z.
Definition cap : Priceable := mkPriceable 2 7 50%Z.
Definition bond : Priceable := mkPriceable 3 8 10%Z.

Definition params : RiskRequestParameters := mkParams None true.

Definition key (prov : Provider) (d : Date) (m : RiskMeasure) : RiskKey :=
  mkRiskKey prov d (CloseMarket 0) params None m.

Definition live_key : RiskKey :=
  mkRiskKey 7 20%Z (LiveMarket 0) params None 5.

Definition failed : Value := ErrorValue "failed".

(** A context as [PricingContext(pricing_date=20, ...)] builds it. *)
Definition context (async_ cache_ entered_ : bool)
    (pend : dict PendingKey FutureId) : PricingContext :=
  mkContext 20%Z None async_ false cache_ false None None (CloseMarket 0)
    pend entered_.

(** A provider that prices every requested (key, instrument) pair at 42. *)
Definition price_all (prov : Provider) (requests : list RiskRequest) : ResultMap :=
  flat_map (fun r =>
    flat_map (fun pos =>
      flat_map (fun m =>
        map (fun a =>
               ((mkRiskKey prov (asof_pricing_date a) (asof_market a)
                   (parameters r) (scenario r) m, instrument pos),
                FloatWithInfo 42))
            (pricing_and_market_data_as_of r))
        (measures r))
      (positions r))
    requests.

Definition srv_ok : Session :=
  mkSession (fun prov requests => Returned [price_all prov requests])
            (fun prov requests _ => Returned [price_all prov requests]).

(** Provider 7 is down; the others price. *)
Definition srv_7_down : Session :=
  mkSession (fun prov requests =>
               if Nat.eqb prov 7 then Raised (ProviderError 503)
               else Returned [price_all prov requests])
            (fun prov requests _ => Returned [price_all prov requests]).

(** A comparison of markets for the examples, none of which has two
    markets under one date. *)
#[global] Instance order : MarketOrder := fun _ _ => false.

Definition world (ctxs : list PricingContext) (path_ : list CtxId)
    (cache_ : CacheStore) (futures_ : list (option Value)) : World :=
  mkWorld ctxs path_ [] cache_ futures_ [] [].

End Ex.

(** * Properties *)

(** ** Dictionaries *)

Section DictFacts.
Context {K V : Type} `{EqDec K}.

Lemma dict_get_In (k : K) (v : V) (d : dict K V) :
  dict_get k d = Some v -> In (k, v) d.
Proof.
  induction d as [|[k' v'] d IH]; simpl; [discriminate|].
  destruct (eq_dec k k') as [->|]; intros E.
  - injection E as ->. now left.
  - right. auto.
Qed.

Lemma In_dict_set (k k' : K) (v v' : V) (d : dict K V) :
  In (k', v') (dict_set k v d) -> (k', v') = (k, v) \/ In (k', v') d.
Proof.
  induction d as [|[k0 v0] d IH]; simpl.
  - intros [E|[]]. left. now symmetry.
  - destruct (eq_dec k k0) as [->|]; simpl.
    + intros [E|E]; [left; now symmetry | right; now right].
    + intros [E|E]; [right; now left|].
      destruct (IH E); [now left | right; now right].
Qed.

Lemma In_dict_setdefault (k k' : K) (dflt v' : V) (f : V -> V) (d : dict K V) :
  In (k', v') (dict_setdefault k dflt f d) ->
  In (k', v') d \/
  (k' = k /\ (v' = f dflt \/ exists v0, In (k, v0) d /\ v' = f v0)).
Proof.
  induction d as [|[k0 v0] d IH]; simpl.
  - intros [E|[]]. injection E as <- <-. right. split; auto.
  - destruct (eq_dec k k0) as [->|]; simpl.
    + intros [E|E].
      * injection E as <- <-. right. split; auto. right. exists v0. auto.
      * left. now right.
    + intros [E|E]; [left; now left|].
      destruct (IH E) as [?|[-> [->|[v1 [? ->]]]]].
      * left. now right.
      * right. auto.
      * right. split; auto. right. exists v1. auto.
Qed.

Lemma In_dict_remove (k : K) (x : K * V) (d : dict K V) :
  In x (dict_remove k d) -> In x d.
Proof.
  induction d as [|[k0 v0] d IH]; simpl; [tauto|].
  destruct (eq_dec k k0); simpl; tauto.
Qed.

End DictFacts.

(** ** PricingCache *)

Lemma put_rejected (rk : RiskKey) (p : Priceable) (v : Value) (cache : CacheStore) :
  is_ErrorValue v = true \/ is_LiveMarket (rk_market rk) = true ->
  PricingCache.put rk p v cache = cache.
Proof.
  unfold PricingCache.put. intros [-> | ->]; simpl; [reflexivity|].
  now rewrite andb_false_r.
Qed.

Lemma put_clean rk p v cache :
  cache_clean cache -> cache_clean (PricingCache.put rk p v cache).
Proof.
  intros Hc. unfold PricingCache.put.
  destruct (is_ErrorValue v) eqn:Ev; simpl; [exact Hc|].
  destruct (is_LiveMarket (rk_market rk)) eqn:El; simpl; [exact Hc|].
  intros p' by_key rk' v' Hin Hin'.
  apply In_dict_setdefault in Hin as [Hin|[-> [->|[d0 [Hd0 ->]]]]].
  - exact (Hc _ _ _ _ Hin Hin').
  - apply In_dict_set in Hin' as [E|[]]. injection E as -> ->. auto.
  - apply In_dict_set in Hin' as [E|Hin'].
    + injection E as -> ->. auto.
    + exact (Hc _ _ _ _ Hd0 Hin').
Qed.

Lemma drop_clean p cache :
  cache_clean cache -> cache_clean (PricingCache.drop p cache).
Proof.
  intros Hc. unfold PricingCache.drop. destruct (dict_mem p cache); [|exact Hc].
  intros p' by_key rk v Hin Hin'. apply In_dict_remove in Hin.
  exact (Hc _ _ _ _ Hin Hin').
Qed.

Lemma reachable_clean cache : cache_reachable cache -> cache_clean cache.
Proof.
  induction 1.
  - intros ? ? ? ? [].
  - now apply put_clean.
  - now apply drop_clean.
  - exact IHcache_reachable.
Qed.

Lemma get_clean rk p v cache :
  cache_clean cache -> PricingCache.get rk p cache = Some v ->
  is_ErrorValue v = false /\ is_LiveMarket (rk_market rk) = false.
Proof.
  intros Hc. unfold PricingCache.get.
  destruct (dict_get p cache) as [by_key|] eqn:E; [|discriminate].
  intros G. apply dict_get_In in E. apply dict_get_In in G.
  exact (Hc _ _ _ _ E G).
Qed.

(** C4, on the code: [clear] rebinds a local name and leaves the class-level
    store as it was, so a result stored before [clear()] is still returned by
    [get] after it. *)
Theorem clear_keeps_every_entry :
  (forall cache, PricingCache.clear cache = cache) /\
  PricingCache.get (Ex.key 7 20%Z 5) Ex.swap
    (PricingCache.clear
       (PricingCache.put (Ex.key 7 20%Z 5) Ex.swap (FloatWithInfo 42) []))
  = Some (FloatWithInfo 42).
Proof. split; [intros; reflexivity | vm_compute; reflexivity]. Qed.

(** C8, as stated, fails: after a result was stored for a pair, a [put] of an
    error value for the same pair stores nothing, and [get] still returns the
    earlier result rather than absent. *)
Lemma put_error_keeps_earlier_result :
  is_ErrorValue Ex.failed = true /\
  PricingCache.get (Ex.key 7 20%Z 5) Ex.swap
    (PricingCache.put (Ex.key 7 20%Z 5) Ex.swap Ex.failed
       (PricingCache.put (Ex.key 7 20%Z 5) Ex.swap (FloatWithInfo 42) []))
  = Some (FloatWithInfo 42).
Proof. split; vm_compute; reflexivity. Qed.

(** C8, amended: a [put] of an error value, or under a key whose market is
    live, leaves the cache as it is, so [get] returns what it returned before
    the [put]: absent if nothing was stored for the pair, never an error
    value, and always absent for a live-market key. *)
Theorem put_never_stores_errors_or_live (cache : CacheStore) (rk : RiskKey)
    (p : Priceable) (v : Value) :
  cache_reachable cache ->
  is_ErrorValue v = true \/ is_LiveMarket (rk_market rk) = true ->
  PricingCache.put rk p v cache = cache /\
  PricingCache.get rk p (PricingCache.put rk p v cache) = PricingCache.get rk p cache /\
  (PricingCache.get rk p cache = None ->
   PricingCache.get rk p (PricingCache.put rk p v cache) = None) /\
  (is_LiveMarket (rk_market rk) = true ->
   PricingCache.get rk p (PricingCache.put rk p v cache) = None) /\
  (forall v', PricingCache.get rk p (PricingCache.put rk p v cache) = Some v' ->
              is_ErrorValue v' = false).
Proof.
  intros Hr Hv. rewrite (put_rejected rk p v cache Hv).
  pose proof (reachable_clean _ Hr) as Hc.
  repeat split; auto.
  - intros Hl. destruct (PricingCache.get rk p cache) as [v'|] eqn:G; [|reflexivity].
    destruct (get_clean _ _ _ _ Hc G) as [_ Hn]. congruence.
  - intros v' G. exact (proj1 (get_clean _ _ _ _ Hc G)).
Qed.

(** C8 at work: with a result cached for [swap] under a close-market key, a
    [put] under a live-market key leaves the live key absent. *)
Lemma put_never_stores_errors_or_live_witness :
  PricingCache.get Ex.live_key Ex.swap
    (PricingCache.put Ex.live_key Ex.swap (FloatWithInfo 42)
       (PricingCache.put (Ex.key 7 20%Z 5) Ex.swap (FloatWithInfo 42) []))
  = None.
Proof.
  refine (proj1 (proj2 (proj2 (proj2
    (put_never_stores_errors_or_live
       (PricingCache.put (Ex.key 7 20%Z 5) Ex.swap (FloatWithInfo 42) [])
       Ex.live_key Ex.swap (FloatWithInfo 42) _ _)))) _).
  - apply reach_put, reach_empty.
  - right. reflexivity.
  - reflexivity.
Defined.

(** ** Stores *)

Lemma nth_list_update_eq {A} (i : nat) (f : A -> A) (l : list A) (d : A) :
  i < List.length l -> nth i (list_update i f l) d = f (nth i l d).
Proof.
  revert i. induction l as [|x l IH]; intros [|i] Hi; simpl in *; try lia; auto.
  apply IH. lia.
Qed.

Lemma nth_list_update_neq {A} (i j : nat) (f : A -> A) (l : list A) (d : A) :
  i <> j -> nth j (list_update i f l) d = nth j l d.
Proof.
  revert i j. induction l as [|x l IH]; intros [|i] [|j] Hij; simpl; auto.
  - contradiction.
Qed.

Lemma length_list_update {A} (i : nat) (f : A -> A) (l : list A) :
  List.length (list_update i f l) = List.length l.
Proof.
  revert i. induction l as [|x l IH]; intros [|i]; simpl; auto.
Qed.

Lemma nth_error_list_update_eq {A} (i : nat) (f : A -> A) (l : list A) (x : A) :
  nth_error l i = Some x -> nth_error (list_update i f l) i = Some (f x).
Proof.
  revert i. induction l as [|y l IH]; intros [|i]; simpl; try discriminate; auto.
  now intros [= ->].
Qed.

Lemma nth_error_list_update_neq {A} (i j : nat) (f : A -> A) (l : list A) :
  i <> j -> nth_error (list_update i f l) j = nth_error l j.
Proof.
  revert i j. induction l as [|x l IH]; intros [|i] [|j] Hij; simpl; auto.
  contradiction.
Qed.

Lemma nth_error_app_last {A} (l : list A) (x : A) :
  nth_error (l ++ [x]) (List.length l) = Some x.
Proof. induction l; simpl; auto. Qed.

Lemma list_update_app_last {A} (f : A -> A) (l : list A) (x : A) :
  list_update (List.length l) f (l ++ [x]) = l ++ [f x].
Proof. induction l; simpl; [reflexivity | now f_equal]. Qed.

Section DictFacts2.
Context {K V : Type} `{EqDec K}.

Lemma dict_get_set_same (k : K) (v : V) (d : dict K V) :
  dict_get k (dict_set k v d) = Some v.
Proof.
  induction d as [|[k' v'] d IH]; simpl.
  - destruct (eq_dec k k); congruence.
  - destruct (eq_dec k k') as [->|N]; simpl.
    + destruct (eq_dec k' k'); congruence.
    + destruct (eq_dec k k'); congruence.
Qed.
End DictFacts2.

Lemma get_ctx_set_pending_eq c P w :
  c < List.length (contexts w) ->
  get_ctx c (set_pending c P w) = with_pending P (get_ctx c w).
Proof. intros Hc. unfold get_ctx, set_pending. simpl. now apply nth_list_update_eq. Qed.

Lemma get_ctx_set_pending_neq c c' P w :
  c <> c' -> get_ctx c' (set_pending c P w) = get_ctx c' w.
Proof. intros Hc. unfold get_ctx, set_pending. simpl. now apply nth_list_update_neq. Qed.

Lemma active_context_valid self w :
  active_context self w <> self ->
  active_context self w < List.length (contexts w) /\
  is_entered (get_ctx (active_context self w) w) = true.
Proof.
  unfold active_context.
  destruct (find _ _) as [c|] eqn:F; [|congruence].
  intros _. apply find_some in F as [_ E]. split; [|exact E].
  destruct (Nat.lt_ge_cases c (List.length (contexts w))) as [L|G]; [exact L|].
  unfold get_ctx in E. rewrite nth_overflow in E by exact G. discriminate.
Qed.

(** The locked block of [calc], case by case. *)
Lemma calc_locked_eq self p m w :
  let a := active_context self w in
  let k := __risk_key self m (provider p) w in
  let f := List.length (futures w) in
  calc_locked self p m w =
  match dict_get (k, p) (pending (get_ctx a w)) with
  | Some future => Ok future (emit (Release a) (emit (Acquire a) w))
  | None =>
      match (if use_cache (get_ctx self w)
             then PricingCache.get k p (cache w) else None) with
      | Some v =>
          Ok f (emit (Release a)
                  (set_futures (futures w ++ [Some v]) (emit (Acquire a) w)))
      | None =>
          Ok f (emit (Release a)
                  (set_pending a (dict_set (k, p) f (pending (get_ctx a w)))
                     (set_futures (futures w ++ [None]) (emit (Acquire a) w))))
      end
  end.
Proof.
  intros a k f. unfold calc_locked, with_lock, bind, reads, modify, finally.
  fold a. fold k.
  change (get_ctx a (emit (Acquire a) w)) with (get_ctx a w).
  change (__risk_key self m (provider p) (emit (Acquire a) w)) with k.
  destruct (dict_get (k, p) (pending (get_ctx a w))) as [future|]; [reflexivity|].
  unfold PricingFuture. 
  change (get_ctx self (set_futures _ _)) with (get_ctx self w).
  destruct (use_cache (get_ctx self w)); simpl.
  - destruct (PricingCache.get k p (cache w)) as [v|]; simpl.
    + unfold set_result, ret. simpl. rewrite nth_error_app_last.
      rewrite list_update_app_last. reflexivity.
    + reflexivity.
  - reflexivity.
Qed.

(** ** Scope exit *)

(** C1, as stated, fails: a scope that exits with an exception re-raises it
    and leaves the world as it found it.  The pending entry stays in the map
    with its future unresolved and nothing is sent, although a flush at that
    point would have resolved the future. *)
Lemma exit_with_exception_skips_flush :
  let w := Ex.world [Ex.context false false true [((Ex.key 7 20%Z 5, Ex.swap), 0)]]
             [0] [] [None] in
  _on_exit Ex.srv_ok [] 0 (Some (CallerError 1)) w = Raise (CallerError 1) w /\
  done 0 w = false /\
  dict_get (Ex.key 7 20%Z 5, Ex.swap) (pending (get_ctx 0 w)) = Some 0 /\
  log w = [] /\
  done 0 (res_world (__calc Ex.srv_ok [] 0 w)) = true.
Proof. vm_compute. repeat split; reflexivity. Qed.

(** C1, amended: a scope that exits with an exception re-raises that
    exception and performs no flush, so the pending map, the futures, the
    cache and the log are as before; the flush runs only on an exit without
    exception. *)
Theorem exit_reraises_without_flush `{MO : MarketOrder} (srv : Session) (sched : list nat)
    (self : CtxId) (w : World) :
  (forall e, _on_exit srv sched self (Some e) w = Raise e w) /\
  _on_exit srv sched self None w = __calc srv sched self w.
Proof. split; reflexivity. Qed.

(** ** Registration *)

(** C10, as stated, fails when the caller's cache answers: the future comes
    back completed and is registered nowhere, the active context's pending
    map included. *)
Lemma cached_future_is_not_registered :
  let k := Ex.key 7 20%Z 5 in
  let C := Ex.context false true false [] in
  let D := Ex.context false false true [] in
  let w := Ex.world [C; D] [1] (PricingCache.put k Ex.swap (FloatWithInfo 42) []) [] in
  active_context 0 w = 1 /\
  exists w', calc Ex.srv_ok [] 0 Ex.swap 5 w = Ok 0 w' /\
             future_value 0 w' = Some (FloatWithInfo 42) /\
             pending (get_ctx 1 w') = [] /\
             pending (get_ctx 0 w') = [].
Proof. split; [reflexivity|]. eexists. vm_compute. repeat split; reflexivity. Qed.

(** C9, as stated, fails when the pair is already pending: the pending map
    is looked up before the cache, so a call made after the cache received a
    result for the pair still returns the unresolved pending future. *)
Lemma pending_entry_shadows_cache :
  let k := Ex.key 7 20%Z 5 in
  let w0 := Ex.world [Ex.context true true false []] [] [] [] in
  let w1 := res_world (calc Ex.srv_ok [] 0 Ex.swap 5 w0) in
  let w2 := set_cache (PricingCache.put k Ex.swap (FloatWithInfo 42) (cache w1)) w1 in
  use_cache (get_ctx 0 w2) = true /\
  PricingCache.get k Ex.swap (cache w2) = Some (FloatWithInfo 42) /\
  exists w3, calc Ex.srv_ok [] 0 Ex.swap 5 w2 = Ok 0 w3 /\
             done 0 w3 = false /\
             log w3 = [Acquire 0; Release 0; Acquire 0; Release 0].
Proof. repeat split. eexists. vm_compute. repeat split; reflexivity. Qed.

(** ** Removing keys *)

Section DictRemove.
Context {K V : Type} `{EqDec K}.

Lemma dict_get_None_notin (k : K) (d : dict K V) :
  dict_get k d = None <-> ~ In k (dict_keys d).
Proof.
  induction d as [|[k0 v0] d IH]; simpl; [tauto|].
  destruct (eq_dec k k0) as [->|N].
  - split; [discriminate|]. intros Hn. exfalso. apply Hn. now left.
  - rewrite IH. split.
    + intros Hn [E|I]; [congruence | exact (Hn I)].
    + intros Hn I. apply Hn. now right.
Qed.

Lemma dict_get_Some_in (k : K) (v : V) (d : dict K V) :
  dict_get k d = Some v -> In k (dict_keys d) /\ In v (dict_values d).
Proof.
  intros G. apply dict_get_In in G. split.
  - apply (in_map fst) in G. exact G.
  - apply (in_map snd) in G. exact G.
Qed.

Lemma dict_mem_true (k : K) (d : dict K V) :
  dict_mem k d = true <-> In k (dict_keys d).
Proof.
  unfold dict_mem. destruct (dict_get k d) eqn:G.
  - split; auto. intros _. now apply dict_get_Some_in in G.
  - split; [discriminate|]. intros I. now apply dict_get_None_notin in G.
Qed.

Lemma dict_get_remove_other (k k' : K) (d : dict K V) :
  k' <> k -> dict_get k' (dict_remove k d) = dict_get k' d.
Proof.
  intros N. induction d as [|[k0 v0] d IH]; simpl; [reflexivity|].
  destruct (eq_dec k k0) as [->|N0]; simpl.
  - destruct (eq_dec k' k0); congruence.
  - destruct (eq_dec k' k0); congruence.
Qed.

Lemma dict_get_remove_same (k : K) (d : dict K V) :
  NoDup (dict_keys d) -> dict_get k (dict_remove k d) = None.
Proof.
  induction d as [|[k0 v0] d IH]; simpl; [reflexivity|].
  intros ND. inversion ND as [|? ? Hn ND']; subst.
  destruct (eq_dec k k0) as [->|N0]; simpl.
  - now apply dict_get_None_notin.
  - destruct (eq_dec k k0); [congruence | auto].
Qed.

Lemma dict_keys_remove_incl (k : K) (d : dict K V) :
  incl (dict_keys (dict_remove k d)) (dict_keys d).
Proof.
  intros x I. apply in_map_iff in I as [e [<- I]].
  apply In_dict_remove in I. now apply in_map.
Qed.

Lemma dict_values_remove_incl (k : K) (d : dict K V) :
  incl (dict_values (dict_remove k d)) (dict_values d).
Proof.
  intros x I. apply in_map_iff in I as [e [<- I]].
  apply In_dict_remove in I. now apply in_map.
Qed.

Lemma NoDup_keys_remove (k : K) (d : dict K V) :
  NoDup (dict_keys d) -> NoDup (dict_keys (dict_remove k d)).
Proof.
  induction d as [|[k0 v0] d IH]; simpl; [auto|].
  intros ND. inversion ND as [|? ? Hn ND']; subst.
  destruct (eq_dec k k0); simpl; [exact ND'|].
  constructor; [|auto]. intros I. apply Hn. now apply dict_keys_remove_incl in I.
Qed.

Lemma NoDup_values_remove (k : K) (d : dict K V) :
  NoDup (dict_values d) -> NoDup (dict_values (dict_remove k d)).
Proof.
  induction d as [|[k0 v0] d IH]; simpl; [auto|].
  intros ND. inversion ND as [|? ? Hn ND']; subst.
  destruct (eq_dec k k0); simpl; [exact ND'|].
  constructor; [|auto]. intros I. apply Hn. now apply dict_values_remove_incl in I.
Qed.

Lemma removed_value_gone (k : K) (v : V) (d : dict K V) :
  NoDup (dict_values d) -> dict_get k d = Some v ->
  ~ In v (dict_values (dict_remove k d)).
Proof.
  induction d as [|[k0 v0] d IH]; simpl; [discriminate|].
  intros ND. inversion ND as [|? ? Hn ND']; subst.
  destruct (eq_dec k k0) as [->|N0]; simpl.
  - intros [= ->]. exact Hn.
  - intros G [E|I]; [|now apply (IH ND' G)].
    subst v0. apply Hn. now apply dict_get_Some_in in G.
Qed.

Lemma dict_get_all_None (d : dict K V) :
  (forall k, dict_get k d = None) -> d = [].
Proof.
  destruct d as [|[k0 v0] d]; [reflexivity|].
  intros A. specialize (A k0). simpl in A.
  destruct (eq_dec k0 k0); [discriminate | congruence].
Qed.

End DictRemove.

(** ** The [finally] block of [run_requests] *)

Lemma wf_unresolved c w k f :
  pending_wf c w -> dict_get k (pending (get_ctx c w)) = Some f ->
  nth_error (futures w) f = Some None.
Proof.
  intros (_ & _ & _ & U) G. apply U. now apply dict_get_Some_in in G.
Qed.

Lemma resolve_item_ok c k v w f :
  pending_wf c w ->
  dict_get k (pending (get_ctx c w)) = Some f ->
  exists w',
    resolve_item c (k, v) w = Ok tt w' /\
    get_ctx c w' = with_pending (dict_remove k (pending (get_ctx c w))) (get_ctx c w) /\
    futures w' = list_update f (fun _ => Some v) (futures w) /\
    (forall c', c' <> c -> get_ctx c' w' = get_ctx c' w) /\
    List.length (contexts w') = List.length (contexts w) /\
    log w' = log w /\ path w' = path w /\ background w' = background w /\
    scenario_path w' = scenario_path w.
Proof.
  intros WF G. pose proof (wf_unresolved _ _ _ _ WF G) as U.
  destruct WF as (Hc & _). destruct k as [rk p].
  unfold resolve_item, bind, reads, modify, ret, pending_pop.
  destruct (use_cache (get_ctx c w)).
  - change (get_ctx c (set_cache ?cs w)) with (get_ctx c w). rewrite G.
    unfold set_result. simpl. rewrite U.
    eexists. split; [reflexivity|]. simpl. repeat split.
    + now apply (get_ctx_set_pending_eq c _ (set_cache _ w)).
    + intros c' N. now apply (get_ctx_set_pending_neq c c' _ (set_cache _ w)).
    + apply length_list_update.
  - rewrite G. unfold set_result. simpl. rewrite U.
    eexists. split; [reflexivity|]. simpl. repeat split.
    + now apply get_ctx_set_pending_eq.
    + intros c' N. now apply get_ctx_set_pending_neq.
    + apply length_list_update.
Qed.

Lemma resolved_with_nil c w : pending_wf c w -> resolved_with c [] w w.
Proof.
  intros WF. repeat split; auto.
  - intros k f G. unfold future_value.
    now rewrite (wf_unresolved _ _ _ _ WF G).
  - now exists (pending (get_ctx c w)); destruct (get_ctx c w).
Qed.

Lemma resolve_items_ok c rm :
  forall w,
    pending_wf c w ->
    NoDup (dict_keys rm) ->
    (forall k, In k (dict_keys rm) -> In k (dict_keys (pending (get_ctx c w)))) ->
    exists w',
      for_each (resolve_item c) rm w = Ok tt w' /\
      pending_wf c w' /\
      resolved_with c rm w w' /\
      log w' = log w.
Proof.
  induction rm as [|[k v] rm IH]; intros w WF ND Hin.
  - exists w. split; [reflexivity|]. split; [exact WF|].
    split; [now apply resolved_with_nil | reflexivity].
  - simpl in ND. inversion ND as [|? ? Hk ND']; subst.
    destruct (dict_get k (pending (get_ctx c w))) as [f|] eqn:G.
    2:{ apply dict_get_None_notin in G. exfalso. apply G, Hin. now left. }
    destruct (resolve_item_ok c k v w f WF G)
      as (w1 & E1 & Ec & Ef & Eo & Elen & El & Ep & Eb & Es).
    pose proof WF as (Hc & NDk & NDv & U).
    assert (WF1 : pending_wf c w1).
    { unfold pending_wf. rewrite Ec, Elen. simpl. repeat split.
      - exact Hc.
      - now apply NoDup_keys_remove.
      - now apply NoDup_values_remove.
      - intros f' I. rewrite Ef.
        assert (f <> f').
        { intros <-. now apply (removed_value_gone k f _ NDv G). }
        rewrite nth_error_list_update_neq by assumption.
        apply U. now apply dict_values_remove_incl in I. }
    destruct (IH w1 WF1 ND') as (w' & E' & WF' & R & L').
    { intros k' I. rewrite Ec. simpl.
      assert (k' <> k) by (intros ->; contradiction).
      apply dict_mem_true. unfold dict_mem.
      rewrite dict_get_remove_other by assumption.
      assert (I' : In k' (dict_keys (pending (get_ctx c w)))) by (apply Hin; now right).
      apply dict_mem_true in I'. exact I'. }
    exists w'. split.
    { cbn [for_each]. unfold bind at 1. rewrite E1. exact E'. }
    split; [exact WF'|]. split; [|congruence].
    destruct R as (R1 & R2 & R3 & R4 & [pend R5] & R6 & R7 & R8 & R9 & R10).
    rewrite Ec in R1, R2, R3. simpl in R1, R2, R3.
    repeat split.
    + intros k'. rewrite R1. unfold dict_mem. simpl.
      destruct (eq_dec k' k) as [->|N].
      * destruct (dict_get k rm); [reflexivity|].
        now apply dict_get_remove_same.
      * now rewrite dict_get_remove_other by assumption.
    + intros k' f' G'. simpl. destruct (eq_dec k' k) as [->|N].
      * assert (f' = f) by congruence. subst f'.
        unfold future_value. rewrite R3 by (now apply removed_value_gone).
        rewrite Ef.
        now rewrite (nth_error_list_update_eq _ _ _ _ (wf_unresolved _ _ _ _ WF G)).
      * apply R2. now rewrite dict_get_remove_other by assumption.
    + intros f0 N0. rewrite R3.
      * rewrite Ef. apply nth_error_list_update_neq.
        intros <-. apply N0. now apply dict_get_Some_in in G.
      * intros I. apply N0. now apply dict_values_remove_incl in I.
    + intros c' N. now rewrite R4, Eo by assumption.
    + exists pend. rewrite R5, Ec. reflexivity.
    + rewrite R6, Ef. apply length_list_update.
    + congruence.
    + congruence.
    + congruence.
    + congruence.
Qed.

Lemma for_each_app {A} (body : A -> M unit) (l1 l2 : list A) (w : World) :
  for_each body (l1 ++ l2) w = (for_each body l1 ;; for_each body l2) w.
Proof.
  revert w. induction l1 as [|x l1 IH]; intros w; simpl.
  - reflexivity.
  - unfold bind in *. destruct (body x w) as [[] w1|e w1]; [|reflexivity].
    apply IH.
Qed.

Lemma for_each_concat {A} (body : A -> M unit) (ls : list (list A)) (w : World) :
  for_each (for_each body) ls w = for_each body (List.concat ls) w.
Proof.
  revert w. induction ls as [|l ls IH]; intros w; simpl.
  - reflexivity.
  - rewrite for_each_app. unfold bind.
    destruct (for_each body l w) as [[] w1|e w1]; [apply IH | reflexivity].
Qed.

(** The [finally] block, when every returned pair is pending. *)
Lemma resolve_ok c results w :
  pending_wf c w ->
  NoDup (dict_keys (List.concat results)) ->
  (forall k, In k (dict_keys (List.concat results)) ->
             In k (dict_keys (pending (get_ctx c w)))) ->
  exists w',
    resolve c results w = Ok tt w' /\
    pending_wf c w' /\
    resolved_with c (List.concat results) w w' /\
    log w' = log w ++ [Acquire c; Release c].
Proof.
  intros WF ND Hin.
  destruct (resolve_items_ok c (List.concat results) (emit (Acquire c) w))
    as (w1 & E & WF1 & R & L); auto.
  exists (emit (Release c) w1).
  unfold resolve, with_lock, bind, modify, finally.
  rewrite for_each_concat, E. repeat split; try apply WF1; try apply R.
  simpl. rewrite L. simpl. now rewrite <- app_assoc.
Qed.

(** With nothing pending, the [finally] block resolves nothing: it stops at
    the first returned pair with [KeyError]. *)
Lemma resolve_nothing_pending c results w :
  pending (get_ctx c w) = [] ->
  futures (res_world (resolve c results w)) = futures w /\
  contexts (res_world (resolve c results w)) = contexts w.
Proof.
  intros E. unfold resolve, with_lock, bind, modify, finally.
  rewrite for_each_concat.
  destruct (List.concat results) as [|[[rk p] v] rm]; simpl; [auto|].
  unfold bind, reads, pending_pop.
  destruct (use_cache (get_ctx c (emit (Acquire c) w))); simpl;
    change (get_ctx c (set_cache ?cs (emit ?ev w))) with (get_ctx c w);
    change (get_ctx c (emit ?ev w)) with (get_ctx c w);
    rewrite E; simpl; auto.
Qed.

Lemma exception_results_keys c e w :
  dict_keys (List.concat (exception_results c e w)) = dict_keys (pending (get_ctx c w)).
Proof.
  unfold exception_results, dict_keys. simpl. rewrite app_nil_r, map_map. simpl.
  now rewrite map_id.
Qed.

Lemma exception_results_get c e w k :
  dict_get k (List.concat (exception_results c e w)) =
  if dict_mem k (pending (get_ctx c w)) then Some (ExceptionValue e) else None.
Proof.
  unfold exception_results, dict_mem. simpl. rewrite app_nil_r.
  induction (pending (get_ctx c w)) as [|[k0 f0] d IH]; simpl; [reflexivity|].
  destruct (eq_dec k k0); [reflexivity | exact IH].
Qed.

(** ** [run_requests] and the registration of a new pair *)

(** What the [finally] block of a dispatch will iterate. *)
Lemma dispatch_eq srv c reqs prov w :
  dispatch srv c reqs prov w =
  (match try_block srv (get_ctx c w) reqs prov with
   | Raised e => exception_results c e w
   | Returned results => results
   end,
   emit (CalcMulti prov reqs) w).
Proof.
  unfold dispatch. change (get_ctx c (emit ?ev w)) with (get_ctx c w).
  now destruct (try_block srv (get_ctx c w) reqs prov).
Qed.

Lemma run_requests_ok srv c reqs prov w results :
  pending_wf c w ->
  fst (dispatch srv c reqs prov w) = results ->
  NoDup (dict_keys (List.concat results)) ->
  (forall k, In k (dict_keys (List.concat results)) ->
             In k (dict_keys (pending (get_ctx c w)))) ->
  exists w',
    run_requests srv c reqs prov w = Ok tt w' /\
    pending_wf c w' /\
    resolved_with c (List.concat results) w w' /\
    log w' = log w ++ [CalcMulti prov reqs; Acquire c; Release c].
Proof.
  intros WF E ND Hin. unfold run_requests.
  rewrite dispatch_eq in *. simpl in E. rewrite E.
  destruct (resolve_ok c results (emit (CalcMulti prov reqs) w))
    as (w' & E' & WF' & R & L); auto.
  exists w'. repeat split; try apply WF'; try apply R; auto.
  rewrite L. simpl. now rewrite <- app_assoc.
Qed.

Section DictAppend.
Context {K V : Type} `{EqDec K}.

Lemma dict_set_new (k : K) (v : V) (d : dict K V) :
  dict_get k d = None -> dict_set k v d = d ++ [(k, v)].
Proof.
  induction d as [|[k0 v0] d IH]; simpl; [reflexivity|].
  destruct (eq_dec k k0); [discriminate|]. intros G. now rewrite IH.
Qed.


End DictAppend.

Lemma nth_error_lt {A} (l : list A) (n : nat) (x : A) :
  nth_error l n = Some x -> n < List.length l.
Proof. intros E. apply nth_error_Some. now rewrite E. Qed.

(** A call that neither finds the pair pending nor is answered by the cache
    appends one entry, with a fresh future, to the active context. *)
Lemma calc_locked_registers self p m w :
  let a := active_context self w in
  let k := __risk_key self m (provider p) w in
  let f := List.length (futures w) in
  pending_wf a w ->
  dict_get (k, p) (pending (get_ctx a w)) = None ->
  use_cache (get_ctx self w) = false \/ PricingCache.get k p (cache w) = None ->
  exists w',
    calc_locked self p m w = Ok f w' /\
    pending_wf a w' /\
    get_ctx a w' = with_pending (pending (get_ctx a w) ++ [((k, p), f)]) (get_ctx a w) /\
    (forall c, c <> a -> get_ctx c w' = get_ctx c w) /\
    futures w' = futures w ++ [None] /\
    cache w' = cache w /\
    log w' = log w ++ [Acquire a; Release a].
Proof.
  intros a k f WF G Hmiss.
  pose proof WF as (Ha & NDk & NDv & U).
  rewrite calc_locked_eq. fold a k f. rewrite G.
  assert (Hc : (if use_cache (get_ctx self w)
                then PricingCache.get k p (cache w) else None) = None).
  { destruct Hmiss as [-> | ->]; [reflexivity|].
    now destruct (use_cache (get_ctx self w)). }
  rewrite Hc. eexists. split; [reflexivity|].
  assert (Ectx : get_ctx a
            (emit (Release a)
               (set_pending a (dict_set (k, p) f (pending (get_ctx a w)))
                  (set_futures (futures w ++ [None]) (emit (Acquire a) w)))) =
          with_pending (pending (get_ctx a w) ++ [((k, p), f)]) (get_ctx a w)).
  { change (get_ctx a (emit ?ev ?w0)) with (get_ctx a w0).
    rewrite get_ctx_set_pending_eq by exact Ha.
    rewrite dict_set_new by exact G. reflexivity. }
  split; [|split; [exact Ectx|]].
  - unfold pending_wf. rewrite Ectx. simpl.
    unfold dict_keys, dict_values. rewrite !map_app. simpl.
    split; [now rewrite length_list_update|].
    assert (Hf : ~ In f (map snd (pending (get_ctx a w)))).
    { intros I. apply U in I. apply nth_error_lt in I. unfold f in I. lia. }
    repeat split.
    + apply NoDup_app; auto.
      * repeat constructor. intros [].
      * intros x Ix [<-|[]]. apply dict_get_None_notin in G. contradiction.
    + apply NoDup_app; auto.
      * repeat constructor. intros [].
      * intros x Ix [<-|[]]. contradiction.
    + intros f0 I. apply in_app_or in I as [I|[<-|[]]].
      * rewrite nth_error_app1; [now apply U|].
        apply U in I. now apply nth_error_lt in I.
      * apply nth_error_app_last.
  - repeat split.
    + intros c N. change (get_ctx c (emit ?ev ?w0)) with (get_ctx c w0).
      now rewrite get_ctx_set_pending_neq by auto.
    + simpl. now rewrite <- app_assoc.
Qed.

(** ** The flush wave *)

Lemma snapshot_eq c w :
  snapshot c w =
  Ok (requests_by_provider (dict_keys (pending (get_ctx c w))))
     (emit (Release c) (emit (Acquire c) w)).
Proof. reflexivity. Qed.

Lemma dict_get_singleton {K V} `{EqDec K} (k : K) (v : V) :
  dict_get k [(k, v)] = Some v.
Proof. simpl. destruct (eq_dec k k); congruence. Qed.

(** One provider and a synchronous context: the batch runs inline. *)
Lemma dispatch_all_inline `{MO : MarketOrder} srv sched c prov bp w :
  is_async (get_ctx c w) = false ->
  dispatch_all srv sched c [(prov, bp)] w =
  (run_requests srv c (build_requests (get_ctx c w) bp) prov ;; ret tt) w.
Proof.
  intros Ha. unfold dispatch_all, bind at 1, reads. rewrite Ha. reflexivity.
Qed.







(** ** Tasks of the pool *)

Lemma run_worker_eq srv c prov reqs w :
  run_worker srv (mkWorker c prov reqs Submitted) w =
  res_world (run_requests srv c reqs prov w).
Proof.
  unfold run_worker, worker_step, run_requests.
  cbn [wk_phase wk_self wk_requests wk_provider with_phase].
  destruct (dispatch srv c reqs prov w) as [results w'].
  cbn [wk_phase wk_self wk_requests wk_provider with_phase].
  now destruct (resolve c results w').
Qed.

Lemma worker_two_steps srv c prov reqs w :
  exists r,
    (let (wk1, w1) := worker_step srv (mkWorker c prov reqs Submitted) w in
     worker_step srv wk1 w1) =
    (mkWorker c prov reqs (Finished r),
     run_worker srv (mkWorker c prov reqs Submitted) w).
Proof.
  unfold run_worker, worker_step.
  cbn [wk_phase wk_self wk_requests wk_provider with_phase].
  destruct (dispatch srv c reqs prov w) as [results w'].
  cbn [wk_phase wk_self wk_requests wk_provider with_phase].
  destruct (resolve c results w'); eexists; reflexivity.
Qed.

(** Two tasks, the first one run to its end before the second starts. *)
Lemma pool_join_first srv c p0 r0 p1 r1 w :
  let wk0 := mkWorker c p0 r0 Submitted in
  let wk1 := mkWorker c p1 r1 Submitted in
  snd (pool_join srv [0; 0] [wk0; wk1] w) = run_worker srv wk1 (run_worker srv wk0 w) /\
  snd (pool_join srv [1; 1] [wk0; wk1] w) = run_worker srv wk0 (run_worker srv wk1 w).
Proof.
  intros wk0 wk1. unfold pool_join. cbn [app flat_map seq List.length].
  split.
  - destruct (worker_two_steps srv c p0 r0 w) as [ra Ea].
    fold wk0 in Ea.
    destruct (worker_two_steps srv c p1 r1 (run_worker srv wk0 w)) as [rb Eb].
    fold wk1 in Eb.
    cbn [pool_steps nth_error list_update].
    destruct (worker_step srv wk0 w) as [wk0' w0'].
    cbn [pool_steps nth_error list_update]. rewrite Ea.
    cbn [pool_steps nth_error list_update worker_step wk_phase].
    destruct (worker_step srv wk1 (run_worker srv wk0 w)) as [wk1' w1'].
    cbn [pool_steps nth_error list_update]. rewrite Eb. reflexivity.
  - destruct (worker_two_steps srv c p1 r1 w) as [ra Ea].
    fold wk1 in Ea.
    destruct (worker_two_steps srv c p0 r0 (run_worker srv wk1 w)) as [rb Eb].
    fold wk0 in Eb.
    cbn [pool_steps nth_error list_update].
    destruct (worker_step srv wk1 w) as [wk1' w1'].
    cbn [pool_steps nth_error list_update]. rewrite Ea.
    cbn [pool_steps nth_error list_update].
    destruct (worker_step srv wk0 (run_worker srv wk1 w)) as [wk0' w0'].
    cbn [pool_steps nth_error list_update]. rewrite Eb.
    cbn [pool_steps nth_error list_update worker_step wk_phase]. reflexivity.
Qed.


Section DictInj.
Context {K V : Type} `{EqDec K}.

Lemma In_dict_get (k : K) (v : V) (d : dict K V) :
  NoDup (dict_keys d) -> In (k, v) d -> dict_get k d = Some v.
Proof.
  induction d as [|[k0 v0] d IH]; simpl; [tauto|].
  intros ND. inversion ND as [|? ? Hn ND']; subst.
  intros [E|I].
  - injection E as -> ->. destruct (eq_dec k k); congruence.
  - destruct (eq_dec k k0) as [->|]; [|auto].
    exfalso. apply Hn. apply (in_map fst) in I. exact I.
Qed.

Lemma dict_get_inj (k k' : K) (v : V) (d : dict K V) :
  NoDup (dict_values d) ->
  dict_get k d = Some v -> dict_get k' d = Some v -> k = k'.
Proof.
  induction d as [|[k0 v0] d IH]; simpl; [discriminate|].
  intros ND. inversion ND as [|? ? Hn ND']; subst.
  destruct (eq_dec k k0) as [->|N], (eq_dec k' k0) as [->|N']; auto.
  - intros [= ->] G. exfalso. apply Hn. now apply dict_get_Some_in in G.
  - intros G [= ->]. exfalso. apply Hn. now apply dict_get_Some_in in G.
Qed.

End DictInj.

(** A future whose pair was among the resolved ones is no longer pending. *)
Lemma resolved_value_gone c rm w w' k f :
  pending_wf c w -> pending_wf c w' -> resolved_with c rm w w' ->
  dict_get k (pending (get_ctx c w)) = Some f ->
  dict_mem k rm = true ->
  ~ In f (dict_values (pending (get_ctx c w'))).
Proof.
  intros (_ & _ & NDv & _) (_ & NDk' & _) (R1 & _) G Mm I.
  apply in_map_iff in I as [[k' f'] [E I]]. simpl in E. subst f'.
  apply In_dict_get in I; [|exact NDk'].
  rewrite R1 in I. destruct (dict_mem k' rm) eqn:Mm'; [discriminate|].
  assert (k = k') by (eapply dict_get_inj; eauto). congruence.
Qed.

Lemma run_requests_nothing_pending srv c reqs prov w :
  pending (get_ctx c w) = [] ->
  futures (res_world (run_requests srv c reqs prov w)) = futures w /\
  contexts (res_world (run_requests srv c reqs prov w)) = contexts w.
Proof.
  intros E. unfold run_requests. rewrite dispatch_eq.
  apply (resolve_nothing_pending c _ (emit (CalcMulti prov reqs) w)). exact E.
Qed.

Lemma try_block_config srv c pend ctx reqs prov :
  c = with_pending pend ctx ->
  try_block srv c reqs prov = try_block srv ctx reqs prov.
Proof. now intros ->. Qed.

(** The failing batch handled first: its handler finds every pair pending
    and the [finally] block gives each of them the exception. *)
Lemma fail_then_good srv c w A B reqsA reqsB e :
  pending_wf c w ->
  try_block srv (get_ctx c w) reqsA A = Raised e ->
  let w' := res_world (run_requests srv c reqsB B
                         (res_world (run_requests srv c reqsA A w))) in
  pending (get_ctx c w') = [] /\
  forall k f, dict_get k (pending (get_ctx c w)) = Some f ->
              future_value f w' = Some (ExceptionValue e).
Proof.
  intros WF TA.
  pose proof WF as (_ & NDk & _).
  destruct (run_requests_ok srv c reqsA A w (exception_results c e w) WF)
    as (wA & EA & WFA & (R1 & R2 & _) & _).
  { now rewrite dispatch_eq, TA. }
  { now rewrite exception_results_keys. }
  { intros k. now rewrite exception_results_keys. }
  rewrite EA. cbv zeta. cbn [res_world].
  assert (PA : pending (get_ctx c wA) = []).
  { apply dict_get_all_None. intros k. rewrite R1.
    unfold dict_mem. rewrite exception_results_get. unfold dict_mem.
    now destruct (dict_get k (pending (get_ctx c w))). }
  destruct (run_requests_nothing_pending srv c reqsB B wA PA) as [Ef Ec].
  split.
  - unfold get_ctx. rewrite Ec. exact PA.
  - intros k f G. unfold future_value. rewrite Ef.
    change (future_value f wA = Some (ExceptionValue e)).
    rewrite (R2 k f G), exception_results_get. unfold dict_mem. now rewrite G.
Qed.

(** The succeeding batch applied first: its pairs get their values, and the
    failing batch's handler then finds only the rest. *)
Lemma good_then_fail srv c w A B reqsA reqsB e results :
  pending_wf c w ->
  try_block srv (get_ctx c w) reqsA A = Raised e ->
  try_block srv (get_ctx c w) reqsB B = Returned results ->
  NoDup (dict_keys (List.concat results)) ->
  (forall k, In k (dict_keys (List.concat results)) ->
             In k (dict_keys (pending (get_ctx c w)))) ->
  let w' := res_world (run_requests srv c reqsA A
                         (res_world (run_requests srv c reqsB B w))) in
  pending (get_ctx c w') = [] /\
  forall k f, dict_get k (pending (get_ctx c w)) = Some f ->
              future_value f w' =
              match dict_get k (List.concat results) with
              | Some v => Some v
              | None => Some (ExceptionValue e)
              end.
Proof.
  intros WF TA TB ND Hin.
  destruct (run_requests_ok srv c reqsB B w results WF)
    as (wB & EB & WFB & RB & _); auto.
  { now rewrite dispatch_eq, TB. }
  rewrite EB. cbv zeta. cbn [res_world].
  pose proof RB as (R1 & R2 & R3 & R4 & [pend R5] & _).
  pose proof WFB as (_ & NDkB & _).
  destruct (run_requests_ok srv c reqsA A wB (exception_results c e wB) WFB)
    as (w' & E' & WF' & (S1 & S2 & S3 & _) & _).
  { rewrite dispatch_eq, (try_block_config srv _ pend (get_ctx c w)), TA; auto. }
  { now rewrite exception_results_keys. }
  { intros k. now rewrite exception_results_keys. }
  rewrite E'. cbn [res_world]. split.
  - apply dict_get_all_None. intros k. rewrite S1.
    unfold dict_mem. rewrite exception_results_get. unfold dict_mem.
    now destruct (dict_get k (pending (get_ctx c wB))).
  - intros k f G. destruct (dict_get k (List.concat results)) as [v|] eqn:Gv.
    + unfold future_value. rewrite S3.
      * change (future_value f wB = Some v). now rewrite (R2 k f G).
      * apply (resolved_value_gone c (List.concat results) w wB k f); auto.
        unfold dict_mem. now rewrite Gv.
    + assert (GB : dict_get k (pending (get_ctx c wB)) = Some f).
      { rewrite R1. unfold dict_mem. now rewrite Gv. }
      rewrite (S2 k f GB), exception_results_get. unfold dict_mem. now rewrite GB.
Qed.


Lemma done_of_value f w v : future_value f w = Some v -> done f w = true.
Proof.
  unfold future_value, done.
  destruct (nth_error (futures w) f) as [[?|]|]; congruence.
Qed.


(** ** What a flush can touch *)

Lemma touches_only_refl c w : touches_only c w w.
Proof. repeat split; auto. apply incl_refl. Qed.

Lemma touches_only_trans c w1 w2 w3 :
  touches_only c w1 w2 -> touches_only c w2 w3 -> touches_only c w1 w3.
Proof.
  intros (A1 & A2 & A3) (B1 & B2 & B3). repeat split.
  - intros c' N. now rewrite B1, A1.
  - intros f N. rewrite B2, A2; auto.
  - eapply incl_tran; eauto.
Qed.

Lemma touches_only_emit c ev w w' :
  touches_only c w w' -> touches_only c w (emit ev w').
Proof. intros T. exact T. Qed.

Lemma touches_only_emit_l c ev w w' :
  touches_only c (emit ev w) w' -> touches_only c w w'.
Proof. intros T. exact T. Qed.

Lemma pending_of_set_pending c P w :
  incl (dict_values (pending (get_ctx c (set_pending c P w)))) (dict_values P) \/
  get_ctx c (set_pending c P w) = get_ctx c w.
Proof.
  destruct (Nat.lt_ge_cases c (List.length (contexts w))) as [L|G].
  - left. rewrite get_ctx_set_pending_eq by exact L. apply incl_refl.
  - right. unfold get_ctx, set_pending. simpl.
    rewrite !nth_overflow; auto. now rewrite length_list_update.
Qed.

Lemma resolve_item_touches c item w :
  touches_only c w (res_world (resolve_item c item w)).
Proof.
  destruct item as [[rk p] v].
  unfold resolve_item, bind, reads, modify, ret, pending_pop.
  assert (H : forall w0 : World,
            get_ctx c w0 = get_ctx c w -> futures w0 = futures w ->
            (forall c', get_ctx c' w0 = get_ctx c' w) ->
            touches_only c w
              (res_world
                 match
                   match dict_get (rk, p) (pending (get_ctx c w0)) with
                   | Some f =>
                       Ok f (set_pending c
                               (dict_remove (rk, p) (pending (get_ctx c w0))) w0)
                   | None => Raise KeyError w0
                   end
                 with
                 | Ok a w' => set_result a v w'
                 | Raise e w' => Raise e w'
                 end)).
  { intros w0 Ec Ef Eall. rewrite Ec.
    destruct (dict_get (rk, p) (pending (get_ctx c w))) as [f|] eqn:G; simpl.
    2:{ split; [intros; apply Eall|]. split; [intros; now rewrite Ef|].
        rewrite Ec. apply incl_refl. }
    assert (T0 : touches_only c w
                   (set_pending c (dict_remove (rk, p) (pending (get_ctx c w))) w0)).
    { repeat split.
      - intros c' N. rewrite get_ctx_set_pending_neq by auto. apply Eall.
      - intros f0 _. simpl. now rewrite Ef.
      - destruct (pending_of_set_pending c
                    (dict_remove (rk, p) (pending (get_ctx c w))) w0) as [I|E].
        + eapply incl_tran; [exact I|]. apply dict_values_remove_incl.
        + rewrite E, Ec. apply incl_refl. }
    unfold set_result. simpl.
    destruct (nth_error (futures w0) f) as [[?|]|]; simpl; try exact T0.
    destruct T0 as (T1 & T2 & T3). repeat split; auto.
    intros f0 N. simpl. rewrite nth_error_list_update_neq; [now rewrite Ef|].
    intros <-. apply N. now apply dict_get_Some_in in G. }
  destruct (use_cache (get_ctx c w)); apply H; reflexivity.
Qed.

Lemma for_each_touches {A} c (body : A -> M unit) (l : list A) :
  (forall x w, touches_only c w (res_world (body x w))) ->
  forall w, touches_only c w (res_world (for_each body l w)).
Proof.
  intros Hb. induction l as [|x l IH]; intros w; simpl.
  - apply touches_only_refl.
  - unfold bind. pose proof (Hb x w) as T.
    destruct (body x w) as [[] w1|e w1]; simpl in *; [|exact T].
    eapply touches_only_trans; [exact T | apply IH].
Qed.

Lemma resolve_touches c results w :
  touches_only c w (res_world (resolve c results w)).
Proof.
  unfold resolve, with_lock, bind, modify, finally.
  pose proof (for_each_touches c (for_each (resolve_item c)) results
                (fun rm w0 => for_each_touches c (resolve_item c) rm
                                (resolve_item_touches c) w0)
                (emit (Acquire c) w)) as T.
  destruct (for_each (for_each (resolve_item c)) results (emit (Acquire c) w));
    exact T.
Qed.

Lemma worker_step_touches srv wk w :
  touches_only (wk_self wk) w (snd (worker_step srv wk w)) /\
  wk_self (fst (worker_step srv wk w)) = wk_self wk.
Proof.
  unfold worker_step. destruct (wk_phase wk) as [|results|r].
  - rewrite dispatch_eq. simpl.
    split; [apply touches_only_emit, touches_only_refl | reflexivity].
  - pose proof (resolve_touches (wk_self wk) results w) as T.
    destruct (resolve (wk_self wk) results w); simpl; auto.
  - simpl. split; [apply touches_only_refl | reflexivity].
Qed.

Lemma Forall_list_update {A} (Q : A -> Prop) i x (l : list A) :
  Forall Q l -> Q x -> Forall Q (list_update i (fun _ => x) l).
Proof.
  intros F Hx. revert i. induction F; intros [|i]; simpl; auto.
Qed.

Lemma pool_steps_touches srv c sched :
  forall pool w,
    Forall (fun wk => wk_self wk = c) pool ->
    touches_only c w (snd (pool_steps srv sched pool w)).
Proof.
  induction sched as [|i sched IH]; intros pool w F; simpl.
  - apply touches_only_refl.
  - destruct (nth_error pool i) as [wk|] eqn:E; [|now apply IH].
    assert (Hc : wk_self wk = c).
    { apply nth_error_In in E. rewrite Forall_forall in F. now apply F. }
    pose proof (worker_step_touches srv wk w) as [T S].
    destruct (worker_step srv wk w) as [wk' w']. simpl in T, S.
    rewrite Hc in T. eapply touches_only_trans; [exact T|].
    apply IH. apply Forall_list_update; [exact F | congruence].
Qed.

Lemma run_requests_touches srv c reqs prov w :
  touches_only c w (res_world (run_requests srv c reqs prov w)).
Proof.
  unfold run_requests. rewrite dispatch_eq.
  apply (resolve_touches c _ (emit (CalcMulti prov reqs) w)).
Qed.

(** A synchronous flush of [c] changes nothing but [c]'s pending map and
    the futures it held pending. *)
Lemma flush_touches `{MO : MarketOrder} srv sched c w :
  is_async (get_ctx c w) = false ->
  touches_only c w (res_world (__calc srv sched c w)).
Proof.
  intros Ha. unfold __calc, bind. rewrite snapshot_eq.
  set (rbp := requests_by_provider _). set (w1 := emit _ (emit _ w)).
  apply (touches_only_emit_l c (Acquire c)), (touches_only_emit_l c (Release c)).
  fold w1. assert (Ha1 : is_async (get_ctx c w1) = false) by exact Ha.
  clearbody w1. unfold dispatch_all.
  destruct rbp as [|j rbp]; [apply touches_only_refl|].
  unfold bind, reads. rewrite Ha1, orb_false_r.
  destruct (1 <? List.length (j :: rbp)).
  - unfold modify. cbn [res_world]. unfold pool_join.
    apply pool_steps_touches. apply Forall_forall. intros wk I.
    apply in_map_iff in I as [x [<- _]]. reflexivity.
  - apply for_each_touches. intros x w0. apply run_requests_touches.
Qed.

(** ** The flush at the end of [calc] *)

Lemma with_pending_same (ctx : PricingContext) :
  with_pending (pending ctx) ctx = ctx.
Proof. now destruct ctx. Qed.

Lemma get_ctx_set_pending_config c a P w :
  exists P', get_ctx c (set_pending a P w) = with_pending P' (get_ctx c w).
Proof.
  destruct (Nat.eq_dec a c) as [->|N].
  - destruct (Nat.lt_ge_cases c (List.length (contexts w))) as [L|G].
    + exists P. now apply get_ctx_set_pending_eq.
    + exists []. unfold get_ctx, set_pending. simpl.
      rewrite !nth_overflow; auto. now rewrite length_list_update.
  - exists (pending (get_ctx c w)).
    rewrite get_ctx_set_pending_neq by exact N. now rewrite with_pending_same.
Qed.

(** The locked block leaves every context's configuration alone. *)
Lemma calc_locked_config self p m w c :
  exists f w1 P',
    calc_locked self p m w = Ok f w1 /\
    get_ctx c w1 = with_pending P' (get_ctx c w).
Proof.
  rewrite calc_locked_eq.
  destruct (dict_get _ _) as [f|].
  - exists f. eexists. exists (pending (get_ctx c w)). split; [reflexivity|].
    change (get_ctx c (emit ?e (emit ?e' w))) with (get_ctx c w).
    now rewrite with_pending_same.
  - destruct (if use_cache (get_ctx self w) then _ else None) as [v|].
    + eexists _, _. exists (pending (get_ctx c w)). split; [reflexivity|].
      change (get_ctx c (emit ?e (set_futures ?fs (emit ?e' w)))) with (get_ctx c w).
      now rewrite with_pending_same.
    + eexists _, _.
      destruct (get_ctx_set_pending_config c (active_context self w)
                  (dict_set (__risk_key self m (provider p) w, p)
                     (List.length (futures w))
                     (pending (get_ctx (active_context self w) w)))
                  (set_futures (futures w ++ [None])
                     (emit (Acquire (active_context self w)) w))) as [P' E].
      exists P'. split; [reflexivity|].
      change (get_ctx c (emit ?e ?w0)) with (get_ctx c w0). exact E.
Qed.

(** A synchronous context that is not entered flushes its own pending map
    before [calc] returns. *)
Lemma calc_sync_eq `{MO : MarketOrder} srv sched self p m w :
  is_entered (get_ctx self w) = false ->
  is_async (get_ctx self w) = false ->
  calc srv sched self p m w =
  match calc_locked self p m w with
  | Ok f w1 =>
      match __calc srv sched self w1 with
      | Ok _ w2 => Ok f w2
      | Raise e w2 => Raise e w2
      end
  | Raise e w1 => Raise e w1
  end.
Proof.
  intros He Ha. unfold calc, bind at 1.
  destruct (calc_locked_config self p m w self) as (f & w1 & P' & E & Ec).
  rewrite E. unfold bind, reads. rewrite Ec. simpl. rewrite He, Ha. simpl.
  now destruct (__calc srv sched self w1).
Qed.

Lemma requests_by_provider_single (k : RiskKey) (p : Priceable) :
  requests_by_provider [(k, p)] =
  [(rk_provider k,
    [((rk_params k, rk_scenario k, rk_date k, rk_market k),
      [(p, [rk_risk_measure k])])])].
Proof. reflexivity. Qed.

Lemma flush_nothing_pending `{MO : MarketOrder} srv sched c w :
  pending (get_ctx c w) = [] ->
  __calc srv sched c w = Ok tt (emit (Release c) (emit (Acquire c) w)).
Proof.
  intros E. unfold __calc, bind. rewrite snapshot_eq, E. reflexivity.
Qed.




(** ** Grouping loops *)

Section Dedup.
Context {A : Type} `{EqDec A}.

Lemma eqb_same (x : A) : eqb x x = true.
Proof. unfold eqb. destruct (eq_dec x x); congruence. Qed.

Lemma eq_of_eqb (x y : A) : eqb x y = true -> x = y.
Proof. unfold eqb. destruct (eq_dec x y); congruence. Qed.

Lemma eqb_diff (x y : A) : x <> y -> eqb x y = false.
Proof. unfold eqb. destruct (eq_dec x y); congruence. Qed.

Lemma In_set_add (x y : A) (s : list A) :
  In y (set_add x s) <-> y = x \/ In y s.
Proof.
  unfold set_add. destruct (in_dec eq_dec x s) as [I|N].
  - split; [auto|]. intros [->|]; auto.
  - rewrite in_app_iff. simpl. intuition.
Qed.

Lemma NoDup_set_add (x : A) (s : list A) : NoDup s -> NoDup (set_add x s).
Proof.
  intros ND. unfold set_add. destruct (in_dec eq_dec x s) as [I|N]; [exact ND|].
  apply NoDup_app; auto.
  - repeat constructor. intros [].
  - intros y Iy [<-|[]]. contradiction.
Qed.

Lemma dedup_snoc (l : list A) (x : A) : dedup (l ++ [x]) = set_add x (dedup l).
Proof. unfold dedup. now rewrite fold_left_app. Qed.

Lemma In_dedup (x : A) (l : list A) : In x (dedup l) <-> In x l.
Proof.
  induction l as [|y l IH] using rev_ind; [reflexivity|].
  rewrite dedup_snoc, In_set_add, in_app_iff, IH. simpl. intuition.
Qed.

Lemma NoDup_dedup (l : list A) : NoDup (dedup l).
Proof.
  induction l as [|y l IH] using rev_ind; [constructor|].
  rewrite dedup_snoc. now apply NoDup_set_add.
Qed.

Lemma dedup_NoDup (l : list A) : NoDup l -> dedup l = l.
Proof.
  induction l as [|y l IH] using rev_ind; [reflexivity|].
  intros ND. rewrite dedup_snoc.
  apply NoDup_remove in ND as [ND N]. rewrite app_nil_r in ND, N.
  rewrite IH by exact ND. unfold set_add.
  destruct (in_dec eq_dec y l); [contradiction | reflexivity].
Qed.

End Dedup.

Section Grouped.
Context {A K V : Type} `{EqDec K}.
Variables (kf : A -> K) (upd : A -> V -> V) (dflt : V).

Lemma setdefault_present (k0 : K) (f : V -> V) (g : K -> V) (ks : list K) :
  NoDup ks -> In k0 ks ->
  dict_setdefault k0 dflt f (map (fun k => (k, g k)) ks) =
  map (fun k => (k, if eq_dec k k0 then f (g k) else g k)) ks.
Proof.
  induction ks as [|k ks IH]; simpl; [tauto|].
  intros ND. inversion ND as [|? ? Hn ND']; subst.
  destruct (eq_dec k0 k) as [->|N].
  - intros _. destruct (eq_dec k k); [|congruence]. f_equal.
    apply map_ext_in. intros k' I.
    destruct (eq_dec k' k) as [->|]; [contradiction | reflexivity].
  - intros [E|I]; [congruence|].
    destruct (eq_dec k k0); [congruence|]. f_equal. now apply IH.
Qed.

Lemma setdefault_absent (k0 : K) (f : V -> V) (g : K -> V) (ks : list K) :
  ~ In k0 ks ->
  dict_setdefault k0 dflt f (map (fun k => (k, g k)) ks) =
  map (fun k => (k, g k)) ks ++ [(k0, f dflt)].
Proof.
  induction ks as [|k ks IH]; simpl; [reflexivity|].
  intros N. destruct (eq_dec k0 k) as [->|]; [exfalso; apply N; now left|].
  f_equal. apply IH. intros I. apply N. now right.
Qed.

Lemma filter_key_absent (k : K) (l : list A) :
  ~ In k (map kf l) -> filter (fun x => eqb (kf x) k) l = [].
Proof.
  induction l as [|x l IH]; simpl; [reflexivity|].
  intros N. destruct (eqb (kf x) k) eqn:E.
  - apply eq_of_eqb in E. exfalso. apply N. now left.
  - apply IH. intros I. apply N. now right.
Qed.

(** The loop and its closed form. *)
Lemma fold_setdefault_grouped (l : list A) :
  fold_left (fun acc x => dict_setdefault (kf x) dflt (upd x) acc) l [] =
  grouped kf upd dflt l.
Proof.
  induction l as [|x l IH] using rev_ind; [reflexivity|].
  rewrite fold_left_app. simpl. rewrite IH. unfold grouped.
  rewrite map_app. simpl. rewrite dedup_snoc.
  pose proof (NoDup_dedup (map kf l)) as ND.
  unfold set_add. destruct (in_dec eq_dec (kf x) (dedup (map kf l))) as [I|N].
  - rewrite setdefault_present by assumption.
    apply map_ext. intros k. f_equal.
    rewrite filter_app, fold_left_app. simpl.
    destruct (eq_dec k (kf x)) as [->|Nk].
    + now rewrite eqb_same.
    + assert (E : eqb (kf x) k = false) by (apply eqb_diff; congruence).
      now rewrite E.
  - rewrite setdefault_absent by assumption.
    rewrite map_app. simpl. f_equal.
    + apply map_ext_in. intros k Ik. f_equal.
      rewrite filter_app. simpl.
      assert (E : eqb (kf x) k = false).
      { apply eqb_diff. intros <-. contradiction. }
      rewrite E. now rewrite app_nil_r.
    + f_equal. f_equal. rewrite filter_app. simpl. rewrite eqb_same.
      rewrite filter_key_absent; [reflexivity|].
      intros I. apply N. now apply In_dedup.
Qed.

End Grouped.

(** ** The first grouping pass *)

Lemma fold_left_ext {A B} (f g : A -> B -> A) (l : list B) (a : A) :
  (forall a x, f a x = g a x) -> fold_left f l a = fold_left g l a.
Proof.
  intros E. revert a. induction l as [|x l IH]; intros a; simpl; [reflexivity|].
  now rewrite E, IH.
Qed.

Lemma fold_set_add_dedup {A B} `{EqDec B} (f : A -> B) (l : list A) :
  fold_left (fun s x => set_add (f x) s) l [] = dedup (map f l).
Proof.
  induction l as [|x l IH] using rev_ind; [reflexivity|].
  rewrite fold_left_app, map_app. simpl. now rewrite dedup_snoc, IH.
Qed.

Lemma measures_loop (l : list PendingKey) :
  fold_left (fun s kp => set_add (key_measure kp) s) l [] = measures_of l.
Proof. apply fold_set_add_dedup. Qed.

Lemma positions_loop (l : list PendingKey) :
  fold_left (fun d kp => dict_setdefault (snd kp) [] (set_add (key_measure kp)) d) l []
  = positions_of l.
Proof.
  rewrite (fold_setdefault_grouped (fun kp : PendingKey => snd kp)
             (fun kp => set_add (key_measure kp)) []).
  unfold grouped, positions_of. apply map_ext. intros p. f_equal.
  apply measures_loop.
Qed.

Lemma by_psdm_loop (l : list PendingKey) :
  fold_left (fun d kp =>
               dict_setdefault (key_psdm kp) []
                 (dict_setdefault (snd kp) [] (set_add (key_measure kp))) d) l []
  = by_psdm_of l.
Proof.
  rewrite (fold_setdefault_grouped key_psdm
             (fun kp => dict_setdefault (snd kp) [] (set_add (key_measure kp))) []).
  unfold grouped, by_psdm_of. apply map_ext. intros g. f_equal.
  apply positions_loop.
Qed.

(** The locked loop of [__calc], in closed form. *)
Lemma requests_by_provider_closed (keys : list PendingKey) :
  requests_by_provider keys = by_provider_of keys.
Proof.
  unfold requests_by_provider.
  rewrite (fold_left_ext group_step
             (fun acc kp =>
                dict_setdefault (key_provider kp) []
                  (dict_setdefault (key_psdm kp) []
                     (dict_setdefault (snd kp) [] (set_add (key_measure kp)))) acc)).
  2:{ intros acc [key p]. reflexivity. }
  rewrite (fold_setdefault_grouped key_provider
             (fun kp => dict_setdefault (key_psdm kp) []
                          (dict_setdefault (snd kp) [] (set_add (key_measure kp)))) []).
  unfold grouped, by_provider_of. apply map_ext. intros v. f_equal.
  apply by_psdm_loop.
Qed.

(** ** [sorted] *)

Section SortedFacts.
Context {A : Type}.
Variable leb : A -> A -> bool.
Hypothesis leb_total : forall x y, leb x y = true \/ leb y x = true.
Hypothesis leb_trans : forall x y z, leb x y = true -> leb y z = true -> leb x z = true.
Hypothesis leb_antisym : forall x y, leb x y = true -> leb y x = true -> x = y.

Lemma insert_sorted_perm (x : A) (l : list A) :
  Permutation (insert_sorted leb x l) (x :: l).
Proof.
  induction l as [|y l IH]; simpl; [auto|].
  destruct (leb x y); [auto|].
  eapply perm_trans; [apply perm_skip, IH | apply perm_swap].
Qed.

Lemma sorted_perm (l : list A) : Permutation (sorted leb l) l.
Proof.
  induction l as [|x l IH]; simpl; [auto|].
  eapply perm_trans; [apply insert_sorted_perm | now apply perm_skip].
Qed.

Lemma insert_sorted_ordered (x : A) (l : list A) :
  StronglySorted (leb_rel leb) l -> StronglySorted (leb_rel leb) (insert_sorted leb x l).
Proof.
  induction 1 as [|y l S IH F]; simpl.
  - repeat constructor.
  - destruct (leb x y) eqn:E.
    + constructor; [now constructor|]. constructor; [exact E|].
      eapply Forall_impl; [|exact F]. intros z Hz. eapply leb_trans; eauto.
    + constructor; [exact IH|].
      assert (Hyx : leb_rel leb y x)
        by (destruct (leb_total x y); [congruence | assumption]).
      eapply Permutation_Forall; [apply Permutation_sym, insert_sorted_perm|].
      now constructor.
Qed.

Lemma sorted_ordered (l : list A) : StronglySorted (leb_rel leb) (sorted leb l).
Proof.
  induction l as [|x l IH]; simpl; [constructor|].
  now apply insert_sorted_ordered.
Qed.

Lemma ordered_perm_eq (l1 l2 : list A) :
  StronglySorted (leb_rel leb) l1 -> StronglySorted (leb_rel leb) l2 ->
  Permutation l1 l2 -> l1 = l2.
Proof.
  intros S1. revert l2. induction S1 as [|x l1 S1 IH F1]; intros l2 S2 P.
  - now apply Permutation_nil in P.
  - destruct S2 as [|y l2 S2 F2].
    + apply Permutation_sym, Permutation_nil in P. discriminate.
    + assert (x = y).
      { assert (Ix : In x (y :: l2)) by (eapply Permutation_in; [exact P | now left]).
        assert (Iy : In y (x :: l1))
          by (eapply Permutation_in; [apply Permutation_sym, P | now left]).
        destruct Ix as [->|Ix]; [reflexivity|].
        destruct Iy as [->|Iy]; [reflexivity|].
        rewrite Forall_forall in F1, F2.
        apply leb_antisym; [now apply F1 | now apply F2]. }
      subst y. f_equal. apply IH; [exact S2|].
      now apply Permutation_cons_inv in P.
Qed.

(** Sorting a set does not depend on the order it is iterated in. *)
Lemma sorted_canonical (l1 l2 : list A) :
  NoDup l1 -> NoDup l2 -> (forall x, In x l1 <-> In x l2) ->
  sorted leb l1 = sorted leb l2.
Proof.
  intros N1 N2 E. apply ordered_perm_eq; try apply sorted_ordered.
  eapply perm_trans; [apply sorted_perm|].
  eapply perm_trans; [|apply Permutation_sym, sorted_perm].
  now apply NoDup_Permutation.
Qed.

End SortedFacts.

Lemma insert_sorted_ext {A} (leb1 leb2 : A -> A -> bool) (x : A) (l : list A) :
  (forall y, In y l -> leb1 x y = leb2 x y) ->
  insert_sorted leb1 x l = insert_sorted leb2 x l.
Proof.
  induction l as [|y l IH]; intros E; simpl; [reflexivity|].
  rewrite (E y) by now left. destruct (leb2 x y); [reflexivity|].
  f_equal. apply IH. intros z I. apply E. now right.
Qed.

(** Two comparisons that agree on the distinct elements of a set sort it
    alike. *)
Lemma sorted_agree {A} (leb1 leb2 : A -> A -> bool) (l : list A) :
  NoDup l ->
  (forall x y, In x l -> In y l -> x <> y -> leb1 x y = leb2 x y) ->
  sorted leb1 l = sorted leb2 l.
Proof.
  induction 1 as [|x l N ND IH]; intros E; simpl; [reflexivity|].
  rewrite IH by (intros; apply E; auto; now right).
  apply insert_sorted_ext. intros y I.
  assert (Iy : In y l) by (eapply Permutation_in; [apply (sorted_perm leb2) | exact I]).
  apply E; [now left | now right |]. intros <-. contradiction.
Qed.

Lemma ordered_perm_eq_on {A} (leb : A -> A -> bool) (l1 l2 : list A) :
  (forall x y, In x l1 -> In y l1 -> leb x y = true -> leb y x = true -> x = y) ->
  StronglySorted (leb_rel leb) l1 -> StronglySorted (leb_rel leb) l2 ->
  Permutation l1 l2 -> l1 = l2.
Proof.
  intros AS S1. revert AS l2.
  induction S1 as [|x l1 S1 IH F1]; intros AS l2 S2 P.
  - now apply Permutation_nil in P.
  - destruct S2 as [|y l2 S2 F2].
    + apply Permutation_sym, Permutation_nil in P. discriminate.
    + assert (x = y).
      { assert (Ix : In x (y :: l2)) by (eapply Permutation_in; [exact P | now left]).
        assert (Iy : In y (x :: l1))
          by (eapply Permutation_in; [apply Permutation_sym, P | now left]).
        destruct Ix as [->|Ix]; [reflexivity|].
        pose proof Iy as Iy0.
        destruct Iy as [->|Iy]; [reflexivity|].
        rewrite Forall_forall in F1, F2.
        apply AS; [now left | exact Iy0 | now apply F1 | now apply F2]. }
      subst y. f_equal. apply IH; [|exact S2|].
      * intros a b Ia Ib. apply AS; now right.
      * now apply Permutation_cons_inv in P.
Qed.

Lemma NoDup_map_eq {A B} (f : A -> B) (l : list A) (x y : A) :
  NoDup (map f l) -> In x l -> In y l -> f x = f y -> x = y.
Proof.
  induction l as [|a l IH]; simpl; intros ND Ix Iy E; [destruct Ix|].
  inversion ND as [|? ? N ND']; subst.
  destruct Ix as [->|Ix], Iy as [->|Iy]; auto.
  - exfalso. apply N. rewrite E. now apply in_map.
  - exfalso. apply N. rewrite <- E. now apply in_map.
Qed.

Lemma date_leb_total a b : date_leb a b = true \/ date_leb b a = true.
Proof. unfold date_leb. rewrite !Z.leb_le. lia. Qed.

Lemma date_leb_trans a b c :
  date_leb a b = true -> date_leb b c = true -> date_leb a c = true.
Proof. unfold date_leb. rewrite !Z.leb_le. lia. Qed.

(** On two pairs of different dates the comparison of the tuples never asks
    the markets. *)
Lemma date_market_lt_by_date `{MO : MarketOrder} (a b : Date * Market) :
  fst a <> fst b -> date_market_lt a b = date_leb a b.
Proof.
  intros N. unfold date_market_lt, date_leb.
  destruct (Z.eqb_spec (fst a) (fst b)) as [E|_]; [contradiction|].
  rewrite andb_false_l, orb_false_r.
  destruct (Z.ltb_spec (fst a) (fst b)), (Z.leb_spec (fst a) (fst b));
    try reflexivity; lia.
Qed.

(** Sorting pairs of pairwise different dates: the result is the same for
    every comparison of markets and every order of iteration. *)
Lemma sorted_by_date `{MO : MarketOrder} (X DM : list (Date * Market)) :
  NoDup X -> NoDup (map fst DM) -> (forall x, In x X <-> In x DM) ->
  sorted date_market_lt X = sorted date_leb DM.
Proof.
  intros NX ND E.
  assert (NDM : NoDup DM) by now apply NoDup_map_inv in ND.
  assert (P : Permutation X DM) by now apply NoDup_Permutation.
  assert (NXd : NoDup (map fst X)).
  { eapply Permutation_NoDup; [|exact ND].
    apply Permutation_sym. now apply Permutation_map. }
  rewrite (sorted_agree date_market_lt date_leb X NX).
  - apply (ordered_perm_eq_on date_leb).
    + intros x y Ix Iy L1 L2.
      apply (NoDup_map_eq fst X); auto.
      * eapply Permutation_in; [apply (sorted_perm date_leb) | exact Ix].
      * eapply Permutation_in; [apply (sorted_perm date_leb) | exact Iy].
      * unfold date_leb in L1, L2. rewrite Z.leb_le in L1, L2. lia.
    + apply sorted_ordered; [apply date_leb_total | apply date_leb_trans].
    + apply sorted_ordered; [apply date_leb_total | apply date_leb_trans].
    + eapply perm_trans; [apply sorted_perm|].
      eapply perm_trans; [exact P | apply Permutation_sym, sorted_perm].
  - intros x y Ix Iy N. apply date_market_lt_by_date.
    intros Ed. apply N. now apply (NoDup_map_eq fst X).
Qed.

Lemma nat_leb_total x y : Nat.leb x y = true \/ Nat.leb y x = true.
Proof. rewrite !Nat.leb_le. lia. Qed.

Lemma nat_leb_trans x y z :
  Nat.leb x y = true -> Nat.leb y z = true -> Nat.leb x z = true.
Proof. rewrite !Nat.leb_le. lia. Qed.

Lemma nat_leb_antisym x y : Nat.leb x y = true -> Nat.leb y x = true -> x = y.
Proof. rewrite !Nat.leb_le. lia. Qed.

(** ** Pending keys that differ in date and market only *)

Section DictTail.
Context {K V : Type} `{EqDec K}.

Lemma dict_setdefault_new (k : K) (dflt : V) (f : V -> V) (d : dict K V) :
  ~ In k (dict_keys d) -> dict_setdefault k dflt f d = d ++ [(k, f dflt)].
Proof.
  induction d as [|[k0 v0] d IH]; simpl; [reflexivity|].
  intros N. destruct (eq_dec k k0) as [->|]; [exfalso; apply N; now left|].
  f_equal. apply IH. intros I. apply N. now right.
Qed.

Lemma dict_setdefault_last (k : K) (dflt v : V) (f : V -> V) (d : dict K V) :
  ~ In k (dict_keys d) ->
  dict_setdefault k dflt f (d ++ [(k, v)]) = d ++ [(k, f v)].
Proof.
  induction d as [|[k0 v0] d IH]; simpl.
  - intros _. destruct (eq_dec k k); congruence.
  - intros N. destruct (eq_dec k k0) as [->|]; [exfalso; apply N; now left|].
    f_equal. apply IH. intros I. apply N. now right.
Qed.

End DictTail.

Section Dedup2.
Context {A B : Type} `{EqDec A} `{EqDec B}.

Lemma dedup_const (c : A) (l : list A) :
  l <> [] -> (forall x, In x l -> x = c) -> dedup l = [c].
Proof.
  intros Hne Hc.
  assert (Hd : forall x, In x (dedup l) -> x = c)
    by (intros x I; apply Hc; now apply In_dedup).
  assert (Ic : In c (dedup l)).
  { destruct l as [|x l]; [congruence|]. apply In_dedup.
    left. apply Hc. now left. }
  pose proof (NoDup_dedup l) as ND.
  destruct (dedup l) as [|y [|z r]].
  - destruct Ic.
  - f_equal. apply Hd. now left.
  - exfalso. inversion ND as [|? ? Hn _]; subst. apply Hn.
    left. rewrite (Hd y), (Hd z); simpl; auto.
Qed.

Lemma dedup_map_inj (f : A -> B) (l : list A) :
  (forall x y, f x = f y -> x = y) -> dedup (map f l) = map f (dedup l).
Proof.
  intros Hinj. induction l as [|x l IH] using rev_ind; [reflexivity|].
  rewrite map_app. simpl. rewrite !dedup_snoc, IH. unfold set_add.
  destruct (in_dec eq_dec (f x) (map f (dedup l))) as [I|N],
           (in_dec eq_dec x (dedup l)) as [I'|N'].
  - reflexivity.
  - exfalso. apply in_map_iff in I as [y [E I]]. apply Hinj in E. congruence.
  - exfalso. apply N. now apply in_map.
  - now rewrite map_app.
Qed.

End Dedup2.

Lemma filter_all {A} (f : A -> bool) (l : list A) :
  (forall x, In x l -> f x = true) -> filter f l = l.
Proof.
  induction l as [|x l IH]; simpl; [reflexivity|].
  intros Hf. rewrite (Hf x) by now left. f_equal. apply IH. auto.
Qed.

Section Uniform.
Variables (SMS : list RiskMeasure) (Ps : list Priceable).
Hypothesis Ps_nonempty : Ps <> [].

Lemma for_provider_step_eq (g : PSDM) (acc : ForProvider) (p : Priceable)
    (ms : list RiskMeasure) :
  for_provider_step g acc (p, ms) =
  dict_setdefault (g, sorted Nat.leb ms) [] (fun priceables => priceables ++ [p]) acc.
Proof. reflexivity. Qed.

(** The second pass over instruments that have the same measures. *)
Lemma for_provider_inner (g : PSDM) (pm : dict Priceable (list RiskMeasure))
    (acc : ForProvider) (ps0 : list Priceable) :
  ~ In (g, SMS) (dict_keys acc) ->
  (forall e, In e pm -> sorted Nat.leb (snd e) = SMS) ->
  fold_left (for_provider_step g) pm (acc ++ [((g, SMS), ps0)]) =
  acc ++ [((g, SMS), ps0 ++ map fst pm)].
Proof.
  intros N. revert ps0. induction pm as [|[p ms] pm IH]; intros ps0 Hs;
    cbn [fold_left map fst].
  - now rewrite app_nil_r.
  - rewrite for_provider_step_eq.
    pose proof (Hs (p, ms) (or_introl eq_refl)) as Es. simpl in Es. rewrite Es.
    rewrite dict_setdefault_last by exact N.
    rewrite IH by (intros e I; apply Hs; now right).
    now rewrite <- app_assoc.
Qed.

Lemma for_provider_block (g : PSDM) (pm : dict Priceable (list RiskMeasure))
    (acc : ForProvider) :
  ~ In (g, SMS) (dict_keys acc) ->
  pm <> [] ->
  (forall e, In e pm -> sorted Nat.leb (snd e) = SMS) ->
  fold_left (for_provider_step g) pm acc = acc ++ [((g, SMS), map fst pm)].
Proof.
  intros N Hne Hs. destruct pm as [|[p ms] pm]; [congruence|].
  cbn [fold_left map fst].
  rewrite for_provider_step_eq.
    pose proof (Hs (p, ms) (or_introl eq_refl)) as Es. simpl in Es. rewrite Es.
  rewrite dict_setdefault_new by exact N.
  rewrite for_provider_inner; [reflexivity | exact N |].
  intros e I. apply Hs. now right.
Qed.

Lemma requests_for_provider_uniform {X} (gf : X -> PSDM)
    (pos : X -> dict Priceable (list RiskMeasure)) (l : list X) :
  NoDup (map gf l) ->
  (forall x, In x l -> dict_keys (pos x) = Ps) ->
  (forall x e, In x l -> In e (pos x) -> sorted Nat.leb (snd e) = SMS) ->
  requests_for_provider (map (fun x => (gf x, pos x)) l) =
  map (fun x => ((gf x, SMS), Ps)) l.
Proof.
  unfold requests_for_provider.
  induction l as [|x l IH] using rev_ind; intros ND Hk Hs; [reflexivity|].
  rewrite map_app in ND. simpl in ND.
  apply NoDup_remove in ND as [ND Hn]. rewrite app_nil_r in ND, Hn.
  rewrite !map_app, fold_left_app. simpl.
  rewrite IH; auto.
  2:{ intros x0 I. apply Hk, in_or_app. now left. }
  2:{ intros x0 e I. apply Hs, in_or_app. now left. }
  rewrite for_provider_block.
  - unfold dict_keys in Hk. rewrite (Hk x) by (apply in_or_app; right; now left).
    reflexivity.
  - unfold dict_keys. rewrite map_map. simpl. intros I.
    apply in_map_iff in I as [x0 [E I]]. injection E as E.
    apply Hn. rewrite <- E. now apply in_map.
  - intros E. apply Ps_nonempty.
    rewrite <- (Hk x) by (apply in_or_app; right; now left). now rewrite E.
  - intros e I. eapply Hs; [|exact I]. apply in_or_app. right. now left.
Qed.

End Uniform.

Section UniformDates.
Variables (prm : RiskRequestParameters) (sc : option MarketDataScenario)
          (SMS : list RiskMeasure) (Ps : list Priceable).

Lemma by_date_market_same_key (l : list (Date * Market)) (s0 : list (Date * Market)) :
  fold_left by_date_market_step (map (fun dm => ((psdm_at prm sc dm, SMS), Ps)) l)
    [((prm, sc, SMS, Ps), s0)] =
  [((prm, sc, SMS, Ps), fold_left (fun s dm => set_add dm s) l s0)].
Proof.
  revert s0. induction l as [|[d m] l IH]; intros s0; [reflexivity|].
  cbn [map fold_left]. rewrite <- IH. f_equal.
  unfold by_date_market_step, psdm_at. cbn [fst snd dict_setdefault].
  destruct (eq_dec (prm, sc, SMS, Ps) (prm, sc, SMS, Ps)); congruence.
Qed.

(** The third pass when every (date, market) carries the same instruments
    and measures: one group, holding all the pairs. *)
Lemma requests_by_date_market_uniform (DM : list (Date * Market)) :
  NoDup DM -> DM <> [] ->
  requests_by_date_market (map (fun dm => ((psdm_at prm sc dm, SMS), Ps)) DM) =
  [((prm, sc, SMS, Ps), DM)].
Proof.
  intros ND Hne. destruct DM as [|[d m] l]; [congruence|].
  unfold requests_by_date_market. cbn [map fold_left].
  change (by_date_market_step [] (psdm_at prm sc (d, m), SMS, Ps))
    with [((prm, sc, SMS, Ps), [(d, m)])].
  rewrite by_date_market_same_key. do 2 f_equal.
  change (fold_left (fun s dm => set_add dm s) l [(d, m)]) with (dedup ((d, m) :: l)).
  now apply dedup_NoDup.
Qed.

End UniformDates.

Lemma positions_of_keys (l : list PendingKey) :
  dict_keys (positions_of l) = dedup (map snd l).
Proof.
  unfold positions_of, dict_keys. rewrite map_map. simpl. apply map_id.
Qed.

Lemma In_positions_of (l : list PendingKey) (e : Priceable * list RiskMeasure) :
  In e (positions_of l) ->
  In (fst e) (dedup (map snd l)) /\
  snd e = measures_of (filter (fun kp => eqb (snd kp) (fst e)) l).
Proof.
  unfold positions_of. intros I. apply in_map_iff in I as [p [<- I]]. auto.
Qed.

Section UniformKeys.
Variables (keys : list PendingKey) (v : Provider) (prm : RiskRequestParameters)
          (sc : option MarketDataScenario).
Hypothesis uniform : forall kp, In kp keys ->
  key_provider kp = v /\ rk_params (fst kp) = prm /\ rk_scenario (fst kp) = sc.

Lemma key_psdm_uniform kp : In kp keys -> key_psdm kp = psdm_at prm sc (key_dm kp).
Proof.
  intros I. destruct (uniform kp I) as (_ & E1 & E2).
  unfold key_psdm, psdm_at, key_dm. simpl. now rewrite E1, E2.
Qed.

Lemma psdm_at_injective dm1 dm2 :
  psdm_at prm sc dm1 = psdm_at prm sc dm2 -> dm1 = dm2.
Proof. destruct dm1, dm2. unfold psdm_at. simpl. congruence. Qed.

Lemma filter_psdm_uniform dm :
  filter (fun kp => eqb (key_psdm kp) (psdm_at prm sc dm)) keys =
  filter (fun kp => eqb (key_dm kp) dm) keys.
Proof.
  apply filter_ext_in. intros kp I. rewrite (key_psdm_uniform kp I).
  unfold eqb. destruct (eq_dec (psdm_at prm sc (key_dm kp)) (psdm_at prm sc dm)) as [E|N],
                       (eq_dec (key_dm kp) dm) as [E'|N']; auto.
  - apply psdm_at_injective in E. contradiction.
  - congruence.
Qed.

Lemma by_psdm_of_uniform :
  by_psdm_of keys =
  map (fun dm => (psdm_at prm sc dm,
                  positions_of (filter (fun kp => eqb (key_dm kp) dm) keys)))
      (dedup (map key_dm keys)).
Proof.
  unfold by_psdm_of.
  rewrite (map_ext_in key_psdm (fun kp => psdm_at prm sc (key_dm kp)) keys
             key_psdm_uniform).
  rewrite <- (map_map key_dm (psdm_at prm sc)), (dedup_map_inj (psdm_at prm sc))
    by exact psdm_at_injective.
  rewrite map_map. apply map_ext. intros dm. now rewrite filter_psdm_uniform.
Qed.

Lemma by_provider_of_uniform :
  keys <> [] -> by_provider_of keys = [(v, by_psdm_of keys)].
Proof.
  intros Hne. unfold by_provider_of. rewrite (dedup_const v).
  - simpl. rewrite filter_all; [reflexivity|].
    intros kp I. destruct (uniform kp I) as (E & _). rewrite E. apply eqb_same.
  - destruct keys; [congruence | discriminate].
  - intros x I. apply in_map_iff in I as [kp [<- I]]. now apply uniform.
Qed.

(** The measures pending for instrument [p] on (date, market) [dm]. *)
Lemma In_measures_uniform dm p m :
  In m (measures_of
          (filter (fun kp => eqb (snd kp) p)
             (filter (fun kp => eqb (key_dm kp) dm) keys))) <->
  In (mkRiskKey v (fst dm) (snd dm) prm sc m, p) keys.
Proof.
  unfold measures_of. rewrite In_dedup, in_map_iff. split.
  - intros [[k p'] [Em I]]. apply filter_In in I as [I Ep].
    apply filter_In in I as [I Edm].
    apply eq_of_eqb in Ep, Edm. simpl in Ep. subst p'.
    destruct (uniform _ I) as (E1 & E2 & E3).
    unfold key_provider, key_dm, key_measure in *. simpl in *.
    destruct k; simpl in *. subst. exact I.
  - intros I. exists (mkRiskKey v (fst dm) (snd dm) prm sc m, p).
    split; [reflexivity|]. apply filter_In. split; [|apply eqb_same].
    apply filter_In. split; [exact I|].
    unfold key_dm. simpl. destruct dm. apply eqb_same.
Qed.

End UniformKeys.

(** C7, as stated, fails: two instruments with the same parameters, scenario
    and measures, pending on two different dates, are sent as two requests
    of one position and one as-of pair each, because the instruments of a
    group are part of what the third pass groups by. *)
Lemma two_dates_two_instruments_two_requests :
  let ctx := Ex.context false false true [] in
  let keys := [(Ex.key 7 20%Z 5, Ex.swap); (Ex.key 7 21%Z 5, Ex.cap)] in
  exists r1 r2,
    jobs_of ctx keys = [(7, [r1; r2])] /\
    map instrument (positions r1) = [Ex.swap] /\
    map instrument (positions r2) = [Ex.cap] /\
    pricing_and_market_data_as_of r1 = [mkAsOf 20%Z (CloseMarket 0)] /\
    pricing_and_market_data_as_of r2 = [mkAsOf 21%Z (CloseMarket 0)].
Proof. do 2 eexists. vm_compute. repeat split; reflexivity. Qed.

(** C7, amended: when the pending keys share provider, parameters and
    scenario, span the M (date, market) pairs [DM], whose dates are
    pairwise distinct, and under each of these pairs the same N instruments
    [Ps] are pending, first registered in the same order and each with the
    measure set [MS], the flush emits exactly one request: the N positions,
    the sorted measures, and the M pairs in ascending order of their dates,
    whatever the comparison of two markets is. *)
Theorem uniform_pending_makes_one_request `{MO : MarketOrder}
    (ctx : PricingContext) (keys : list PendingKey) (v : Provider)
    (prm : RiskRequestParameters) (sc : option MarketDataScenario)
    (Ps : list Priceable) (MS : list RiskMeasure) (DM : list (Date * Market)) :
  keys <> [] ->
  (forall kp, In kp keys ->
     key_provider kp = v /\ rk_params (fst kp) = prm /\ rk_scenario (fst kp) = sc) ->
  NoDup (map fst DM) -> NoDup MS ->
  (forall dm, In dm DM <-> In dm (map key_dm keys)) ->
  (forall dm, In dm DM ->
     dedup (map snd (filter (fun kp => eqb (key_dm kp) dm) keys)) = Ps) ->
  (forall dm p m, In dm DM -> In p Ps ->
     (In m MS <-> In (mkRiskKey v (fst dm) (snd dm) prm sc m, p) keys)) ->
  jobs_of ctx keys =
  [(v, [mkRiskRequest
          (map (fun p => mkRiskPosition p (get_quantity p)) Ps)
          (sorted Nat.leb MS)
          (__parameters ctx)
          (negb (is_batch ctx))
          sc
          (map (fun dm => mkAsOf (fst dm) (snd dm)) (sorted date_leb DM))
          (visible_to_gs ctx)])] /\
  NoDup Ps.
Proof.
  intros Hne Huni NDdates NDms Hdm Hps Hms.
  assert (NDdm : NoDup DM) by now apply NoDup_map_inv in NDdates.
  set (DM' := dedup (map key_dm keys)).
  assert (HDM' : forall dm, In dm DM' -> In dm DM).
  { intros dm I. apply Hdm. exact (proj1 (In_dedup _ _) I). }
  assert (NDdm' : NoDup DM') by apply NoDup_dedup.
  assert (Hex : exists kp, In kp keys).
  { destruct keys as [|kp ks]; [congruence|]. exists kp. now left. }
  destruct Hex as [kp0 Ikp0].
  assert (Idm0 : In (key_dm kp0) DM') by (apply In_dedup; now apply in_map).
  assert (Hne' : DM' <> []).
  { intros E. rewrite E in Idm0. destruct Idm0. }
  assert (Hpos : forall dm, In dm DM' ->
            dict_keys (positions_of (filter (fun kp => eqb (key_dm kp) dm) keys)) = Ps).
  { intros dm I. rewrite positions_of_keys. now apply Hps, HDM'. }
  assert (NDps : NoDup Ps).
  { rewrite <- (Hps (key_dm kp0)) by (now apply HDM'). apply NoDup_dedup. }
  assert (Hpsne : Ps <> []).
  { rewrite <- (Hps (key_dm kp0)) by (now apply HDM'). intros E0.
    assert (I' : In (snd kp0)
                   (dedup (map snd (filter (fun kp => eqb (key_dm kp) (key_dm kp0))
                                      keys)))).
    { apply In_dedup, in_map, filter_In. split; [exact Ikp0 | apply eqb_same]. }
    rewrite E0 in I'. destruct I'. }
  split; [|exact NDps].
  unfold jobs_of, jobs. rewrite requests_by_provider_closed.
  rewrite (by_provider_of_uniform keys v prm sc Huni Hne).
  cbn [map fst snd]. do 2 f_equal.
  rewrite (by_psdm_of_uniform keys v prm sc Huni). fold DM'.
  unfold build_requests.
  rewrite (requests_for_provider_uniform (sorted Nat.leb MS) Ps Hpsne
             (psdm_at prm sc)).
  - rewrite requests_by_date_market_uniform by assumption.
    cbn [map make_request]. do 3 f_equal.
    apply sorted_by_date; [exact NDdm' | exact NDdates |].
    intros dm. split; [apply HDM'|]. intros I. apply In_dedup. now apply Hdm.
  - unfold DM'.
    rewrite <- (dedup_map_inj (psdm_at prm sc)).
    + apply NoDup_dedup.
    + apply psdm_at_injective.
  - exact Hpos.
  - intros dm e Idm Ie. apply In_positions_of in Ie as [Ip ->].
    rewrite <- positions_of_keys, (Hpos dm Idm) in Ip.
    apply (sorted_canonical Nat.leb nat_leb_total nat_leb_trans nat_leb_antisym);
      [apply NoDup_dedup | exact NDms |].
    intros m. rewrite (In_measures_uniform keys v prm sc Huni).
    symmetry. apply Hms; auto.
Qed.


(** C7 at work: two instruments, two dates and two measures, registered in
    an order that mixes dates and measures but keeps [swap] before [cap]
    under each date. *)
Lemma uniform_pending_makes_one_request_witness :
  jobs_of (Ex.context false false true [])
    [(Ex.key 7 21%Z 5, Ex.swap); (Ex.key 7 21%Z 3, Ex.swap);
     (Ex.key 7 21%Z 3, Ex.cap); (Ex.key 7 20%Z 5, Ex.swap);
     (Ex.key 7 20%Z 5, Ex.cap); (Ex.key 7 21%Z 5, Ex.cap);
     (Ex.key 7 20%Z 3, Ex.swap); (Ex.key 7 20%Z 3, Ex.cap)] =
  [(7, [mkRiskRequest
          [mkRiskPosition Ex.swap 100%Z; mkRiskPosition Ex.cap 50%Z]
          [3; 5] Ex.params true None
          [mkAsOf 20%Z (CloseMarket 0); mkAsOf 21%Z (CloseMarket 0)]
          false])].
Proof.
  refine (proj1 (uniform_pending_makes_one_request
                   (Ex.context false false true []) _ 7 Ex.params None
                   [Ex.swap; Ex.cap] [5; 3]
                   [(21%Z, CloseMarket 0); (20%Z, CloseMarket 0)]
                   _ _ _ _ _ _ _)).
  - discriminate.
  - intros kp I. simpl in I.
    repeat (destruct I as [<-|I]; [repeat split|]). destruct I.
  - repeat constructor; simpl; intuition discriminate.
  - repeat constructor; simpl; intuition discriminate.
  - intros dm. simpl. intuition.
  - intros dm [<-|[<-|[]]]; reflexivity.
  - intros dm p m [<-|[<-|[]]] [<-|[<-|[]]]; simpl; split.
    all: try (intros [<-|[<-|[]]]; repeat (first [left; reflexivity | right])).
    all: intros I;
      repeat (destruct I as [E|I];
              [unfold Ex.key in E;
               first [assert (5 = m) by congruence; now left
                     |assert (3 = m) by congruence; right; now left]|]);
      destruct I.
Defined.

(** ** The second and third grouping passes *)

Section GroupedFacts.
Context {A K V : Type} `{EqDec K}.
Variables (kf : A -> K) (upd : A -> V -> V) (dflt : V).

Lemma grouped_keys (l : list A) :
  dict_keys (grouped kf upd dflt l) = dedup (map kf l).
Proof. unfold grouped, dict_keys. rewrite map_map. apply map_id. Qed.

Lemma In_grouped (l : list A) (k : K) (v : V) :
  In (k, v) (grouped kf upd dflt l) <->
  In k (map kf l) /\
  v = fold_left (fun v x => upd x v) (filter (fun x => eqb (kf x) k) l) dflt.
Proof.
  unfold grouped. rewrite in_map_iff. split.
  - intros [k' [E I]]. injection E as -> <-. split; [|reflexivity].
    exact (proj1 (In_dedup _ _) I).
  - intros [I ->]. exists k. split; [reflexivity|]. now apply In_dedup.
Qed.

Lemma NoDup_grouped (l : list A) : NoDup (grouped kf upd dflt l).
Proof.
  apply (NoDup_map_inv fst). fold (dict_keys (grouped kf upd dflt l)).
  rewrite grouped_keys. apply NoDup_dedup.
Qed.

End GroupedFacts.

Lemma fold_append_map {A B} (f : A -> B) (l : list A) (l0 : list B) :
  fold_left (fun acc x => acc ++ [f x]) l l0 = l0 ++ map f l.
Proof.
  revert l0. induction l as [|x l IH]; intros l0; simpl.
  - now rewrite app_nil_r.
  - rewrite IH. now rewrite <- app_assoc.
Qed.

Lemma for_provider_inner_items (g : PSDM) (pm : dict Priceable (list RiskMeasure))
    (acc : ForProvider) :
  fold_left (for_provider_step g) pm acc =
  fold_left (fun acc (x : ForProviderItem) => for_provider_step (fst x) acc (snd x))
    (map (pair g) pm) acc.
Proof.
  revert acc. induction pm as [|e pm IH]; intros acc; simpl; [reflexivity|].
  apply IH.
Qed.

(** The second pass in closed form. *)
Lemma requests_for_provider_closed
    (bp : dict PSDM (dict Priceable (list RiskMeasure))) :
  requests_for_provider bp =
  grouped for_provider_key
    (fun (x : ForProviderItem) priceables => priceables ++ [fst (snd x)]) []
    (for_provider_items bp).
Proof.
  rewrite <- fold_setdefault_grouped.
  unfold requests_for_provider, for_provider_items.
  generalize (@nil (PSDM * list RiskMeasure * list Priceable)).
  induction bp as [|[g pm] bp IH]; intros acc; simpl; [reflexivity|].
  rewrite fold_left_app, IH. f_equal.
  rewrite for_provider_inner_items. apply fold_left_ext.
  intros a [g' [p ms]]. reflexivity.
Qed.

Lemma In_requests_for_provider bp (g : PSDM) (S : list RiskMeasure)
    (ps : list Priceable) :
  In ((g, S), ps) (requests_for_provider bp) <->
  In (g, S) (map for_provider_key (for_provider_items bp)) /\
  ps = map (fun x : ForProviderItem => fst (snd x))
         (filter (fun x => eqb (for_provider_key x) (g, S)) (for_provider_items bp)).
Proof.
  rewrite requests_for_provider_closed, In_grouped.
  now rewrite (fold_append_map (fun x : ForProviderItem => fst (snd x))).
Qed.

(** The third pass in closed form. *)
Lemma requests_by_date_market_closed (rfp : ForProvider) :
  requests_by_date_market rfp =
  grouped date_market_key (fun entry => set_add (date_market_of entry)) [] rfp.
Proof.
  rewrite <- fold_setdefault_grouped. unfold requests_by_date_market.
  apply fold_left_ext. intros acc [[[[[prm sc] d] m] ms] ps]. reflexivity.
Qed.

Lemma In_requests_by_date_market rfp (key : GroupKey) (dms : list (Date * Market)) :
  In (key, dms) (requests_by_date_market rfp) <->
  In key (map date_market_key rfp) /\
  dms = dedup (map date_market_of
                 (filter (fun entry => eqb (date_market_key entry) key) rfp)).
Proof.
  rewrite requests_by_date_market_closed, In_grouped.
  now rewrite (fold_set_add_dedup date_market_of).
Qed.

Lemma mem_true {A} `{EqDec A} (x : A) (l : list A) : mem x l = true <-> In x l.
Proof. unfold mem. destruct (in_dec eq_dec x l); split; auto; discriminate. Qed.

Lemma In_sorted {A} (leb : A -> A -> bool) (x : A) (l : list A) :
  In x (sorted leb l) <-> In x l.
Proof.
  split; apply Permutation_in; [|apply Permutation_sym]; apply sorted_perm.
Qed.

Lemma filter_unique {A} (f : A -> bool) (x0 : A) (l : list A) :
  NoDup l -> In x0 l -> f x0 = true ->
  (forall x, In x l -> f x = true -> x = x0) ->
  filter f l = [x0].
Proof.
  induction l as [|x l IH]; simpl; [tauto|].
  intros ND I F0 U. inversion ND as [|? ? Hn ND']; subst.
  destruct I as [->|I].
  - rewrite F0. f_equal.
    assert (E : filter f l = []); [|exact E].
    destruct (filter f l) as [|y r] eqn:E; [reflexivity|].
    assert (Iy : In y (filter f l)) by (rewrite E; now left).
    apply filter_In in Iy as [Iy Fy].
    assert (y = x0) by (apply U; auto). subst y. contradiction.
  - destruct (f x) eqn:Fx.
    + assert (x = x0) by (apply U; auto). subst x. contradiction.
    + apply IH; auto.
Qed.

Lemma In_positions_iff (l : list PendingKey) (p : Priceable) (ms : list RiskMeasure) :
  In (p, ms) (positions_of l) <->
  In p (map snd l) /\ ms = measures_of (filter (fun kp => eqb (snd kp) p) l).
Proof.
  unfold positions_of. rewrite in_map_iff. split.
  - intros [p' [E I]]. injection E as -> <-. split; [|reflexivity].
    exact (proj1 (In_dedup _ _) I).
  - intros [I ->]. exists p. split; [reflexivity|]. now apply In_dedup.
Qed.

Lemma In_by_psdm_iff (l : list PendingKey) (g : PSDM)
    (pm : dict Priceable (list RiskMeasure)) :
  In (g, pm) (by_psdm_of l) <->
  In g (map key_psdm l) /\
  pm = positions_of (filter (fun kp => eqb (key_psdm kp) g) l).
Proof.
  unfold by_psdm_of. rewrite in_map_iff. split.
  - intros [g' [E I]]. injection E as -> <-. split; [|reflexivity].
    exact (proj1 (In_dedup _ _) I).
  - intros [I ->]. exists g. split; [reflexivity|]. now apply In_dedup.
Qed.

(** The measures pending for instrument [p] under the tuple [g]. *)
Lemma In_for_provider_items (l : list PendingKey) (g : PSDM) (p : Priceable)
    (ms : list RiskMeasure) :
  In (g, (p, ms)) (for_provider_items (by_psdm_of l)) <->
  In p (map snd (filter (fun kp => eqb (key_psdm kp) g) l)) /\
  ms = measures_of (filter (fun kp => eqb (snd kp) p)
                      (filter (fun kp => eqb (key_psdm kp) g) l)).
Proof.
  unfold for_provider_items. rewrite in_flat_map. split.
  - intros [[g' pm] [I Ix]]. simpl in Ix.
    apply in_map_iff in Ix as [[p' ms'] [E Ix]]. injection E as -> -> ->.
    apply In_by_psdm_iff in I as [_ ->]. now apply In_positions_iff in Ix.
  - intros [Ip ->].
    exists (g, positions_of (filter (fun kp => eqb (key_psdm kp) g) l)). split.
    + apply In_by_psdm_iff. split; [|reflexivity].
      apply in_map_iff in Ip as [kp [_ I]]. apply filter_In in I as [I E].
      apply eq_of_eqb in E. rewrite <- E. now apply in_map.
    + simpl. apply in_map. now apply In_positions_iff.
Qed.

(** Within the batch of one provider, exactly one group carries a given
    pending pair. *)
Lemma one_group_covers (l : list PendingKey) (kp0 : PendingKey) :
  In kp0 l ->
  List.length (filter (group_covers kp0) (groups_of (by_psdm_of l))) = 1.
Proof.
  intros I0.
  set (g0 := key_psdm kp0). set (p0 := snd kp0).
  set (items := for_provider_items (by_psdm_of l)).
  set (rfp := requests_for_provider (by_psdm_of l)).
  set (lg := filter (fun kp => eqb (key_psdm kp) g0) l).
  set (MS0 := measures_of (filter (fun kp => eqb (snd kp) p0) lg)).
  set (S0 := sorted Nat.leb MS0).
  assert (Ilg : In kp0 lg) by (apply filter_In; split; [exact I0 | apply eqb_same]).
  assert (F1 : In (g0, (p0, MS0)) items).
  { apply In_for_provider_items. split; [|reflexivity]. now apply in_map. }
  assert (F2 : forall ms, In (g0, (p0, ms)) items -> ms = MS0).
  { intros ms I. now apply In_for_provider_items in I as [_ ->]. }
  assert (Hm0 : In (key_measure kp0) S0).
  { apply In_sorted. unfold MS0, measures_of. apply In_dedup, in_map.
    apply filter_In. split; [exact Ilg | apply eqb_same]. }
  set (PSL0 := map (fun x : ForProviderItem => fst (snd x))
                 (filter (fun x => eqb (for_provider_key x) (g0, S0)) items)).
  assert (E2 : In ((g0, S0), PSL0) rfp).
  { apply In_requests_for_provider. split; [|reflexivity].
    apply in_map_iff. exists (g0, (p0, MS0)). split; [reflexivity | exact F1]. }
  assert (Hp0 : In p0 PSL0).
  { apply in_map_iff. exists (g0, (p0, MS0)). split; [reflexivity|].
    apply filter_In. split; [exact F1 | apply eqb_same]. }
  assert (F3 : forall S PSL, In ((g0, S), PSL) rfp -> In p0 PSL ->
                             S = S0 /\ PSL = PSL0).
  { intros S PSL I Ip. apply In_requests_for_provider in I as [_ EP].
    assert (ES : S = S0).
    { rewrite EP in Ip. apply in_map_iff in Ip as [[g [p ms]] [Ep Ix]].
      apply filter_In in Ix as [Ix Ek]. apply eq_of_eqb in Ek.
      unfold for_provider_key in Ek. simpl in Ek, Ep.
      injection Ek as -> <-. subst p. now rewrite (F2 ms Ix). }
    split; [exact ES|]. now rewrite EP, ES. }
  set (key3 := date_market_key ((g0, S0), PSL0)).
  set (DMS0 := dedup (map date_market_of
                        (filter (fun entry => eqb (date_market_key entry) key3) rfp))).
  assert (Hdm0 : date_market_of ((g0, S0), PSL0) = key_dm kp0) by reflexivity.
  assert (E3 : In (key3, DMS0) (groups_of (by_psdm_of l))).
  { apply In_requests_by_date_market. split; [|reflexivity].
    apply in_map_iff. exists ((g0, S0), PSL0). split; [reflexivity | exact E2]. }
  assert (C3 : group_covers kp0 (key3, DMS0) = true).
  { unfold group_covers, key3, date_market_key, g0, key_psdm.
    rewrite !eqb_same. simpl.
    rewrite (proj2 (mem_true _ _) Hm0), (proj2 (mem_true _ _) Hp0). simpl.
    apply mem_true. unfold DMS0. apply In_dedup. rewrite <- Hdm0.
    apply in_map, filter_In. split; [exact E2 | apply eqb_same]. }
  rewrite (filter_unique (group_covers kp0) (key3, DMS0)); auto.
  - unfold groups_of. rewrite requests_by_date_market_closed. apply NoDup_grouped.
  - intros [[[[prm sc] S] PSL] DMS] I C.
    apply In_requests_by_date_market in I as [_ ED].
    unfold group_covers in C. rewrite !andb_true_iff in C.
    destruct C as ((((Cp & Cs) & Cm) & Cps) & Cdm).
    apply eq_of_eqb in Cp, Cs. apply mem_true in Cps, Cdm.
    rewrite ED in Cdm. apply (proj1 (In_dedup _ _)) in Cdm.
    apply in_map_iff in Cdm as [[[[[[prm' sc'] d'] m'] S'] PSL'] [Ed Ie]].
    apply filter_In in Ie as [Ie Ek]. apply eq_of_eqb in Ek.
    simpl in Ek, Ed. injection Ek as -> -> -> ->.
    assert (Eg : (prm, sc, d', m') = g0).
    { unfold g0, key_psdm. unfold key_dm in Ed. injection Ed as -> ->.
      now rewrite Cp, Cs. }
    rewrite Eg in Ie. destruct (F3 S PSL Ie Cps) as [-> ->].
    assert (Ek3 : (prm, sc, S0, PSL0) = key3).
    { unfold key3, date_market_key, g0, key_psdm. now rewrite Cp, Cs. }
    rewrite ED. unfold DMS0. rewrite <- Ek3. reflexivity.
Qed.

Lemma filter_flat_map {A B} (f : B -> bool) (g : A -> list B) (l : list A) :
  filter f (flat_map g l) = flat_map (fun x => filter f (g x)) l.
Proof.
  induction l as [|x l IH]; simpl; [reflexivity|].
  now rewrite filter_app, IH.
Qed.

Lemma flat_map_map_in {A B C} (h : A -> B) (g : B -> list C) (l : list A) :
  flat_map g (map h l) = flat_map (fun x => g (h x)) l.
Proof. induction l as [|x l IH]; simpl; [reflexivity | now rewrite IH]. Qed.

Lemma flat_map_all_nil {A B} (g : A -> list B) (l : list A) :
  (forall x, In x l -> g x = []) -> flat_map g l = [].
Proof.
  induction l as [|x l IH]; simpl; [reflexivity|].
  intros Hg. rewrite (Hg x) by now left. simpl. apply IH. auto.
Qed.

Lemma length_flat_map_one {A B} (g : A -> list B) (x0 : A) (l : list A) :
  NoDup l -> In x0 l -> (forall x, In x l -> x <> x0 -> g x = []) ->
  List.length (flat_map g l) = List.length (g x0).
Proof.
  induction l as [|x l IH]; simpl; [tauto|].
  intros ND I Hg. inversion ND as [|? ? Hn ND']; subst.
  rewrite length_app. destruct I as [->|I].
  - rewrite flat_map_all_nil; [simpl; lia|].
    intros y Iy. apply Hg; [now right|]. intros ->. contradiction.
  - rewrite (Hg x); [|now left | intros ->; contradiction]. simpl.
    apply IH; auto.
Qed.

(** The batches of a flush hold exactly one group for each pending pair. *)
Lemma one_unit_of_work (keys : list PendingKey) (kp0 : PendingKey) :
  In kp0 keys ->
  List.length (filter (covers kp0) (flush_groups keys)) = 1.
Proof.
  intros I0. unfold flush_groups.
  rewrite requests_by_provider_closed. unfold by_provider_of.
  rewrite flat_map_map_in, filter_flat_map. cbn [fst snd].
  rewrite (length_flat_map_one _ (key_provider kp0)).
  - rewrite (filter_ext (covers kp0)
               (fun vg => group_covers kp0 (snd vg) && eqb (fst vg) (key_provider kp0))).
    2:{ intros vg. unfold covers. apply andb_comm. }
    set (G := groups_of _).
    assert (E : filter (fun vg : Provider * RequestGroup =>
                          group_covers kp0 (snd vg) && eqb (fst vg) (key_provider kp0))
                  (map (pair (key_provider kp0)) G) =
                map (pair (key_provider kp0)) (filter (group_covers kp0) G)).
    { induction G as [|g G IH]; simpl; [reflexivity|].
      rewrite eqb_same, andb_true_r.
      destruct (group_covers kp0 g); simpl; now rewrite IH. }
    rewrite E, length_map. apply one_group_covers.
    apply filter_In. split; [exact I0 | apply eqb_same].
  - apply NoDup_dedup.
  - apply In_dedup. now apply in_map.
  - intros v _ N.
    induction (groups_of _) as [|g G IH]; simpl; [reflexivity|].
    unfold covers at 1. simpl. rewrite (eqb_diff _ _ N). simpl. exact IH.
Qed.

(** The requests of the batches are the groups, one request per group. *)
Lemma jobs_of_groups `{MO : MarketOrder} (ctx : PricingContext) (keys : list PendingKey) :
  flat_map (fun job : Job => map (pair (fst job)) (snd job)) (jobs_of ctx keys) =
  map (fun vg => (fst vg, make_request ctx (snd vg))) (flush_groups keys).
Proof.
  unfold jobs_of, jobs, flush_groups, build_requests, groups_of.
  induction (requests_by_provider keys) as [|[v bp] rbp IH]; simpl; [reflexivity|].
  rewrite map_app, IH. f_equal. now rewrite !map_map.
Qed.

(** ** Repeated calls *)

Lemma find_pointwise {A} (f g : A -> bool) (l : list A) :
  (forall x, f x = g x) -> find f l = find g l.
Proof.
  intros E. induction l as [|x l IH]; simpl; [reflexivity|].
  now rewrite E, IH.
Qed.

(** The locked block changes pending maps, futures and the log only. *)
Lemma calc_locked_frame self p m w :
  exists f w1,
    calc_locked self p m w = Ok f w1 /\
    path w1 = path w /\ scenario_path w1 = scenario_path w /\
    forall c, exists P', get_ctx c w1 = with_pending P' (get_ctx c w).
Proof.
  rewrite calc_locked_eq.
  destruct (dict_get _ _) as [f|].
  - eexists _, _. split; [reflexivity|]. repeat split.
    intros c. exists (pending (get_ctx c w)).
    change (get_ctx c (emit ?e (emit ?e' w))) with (get_ctx c w).
    now rewrite with_pending_same.
  - destruct (if use_cache (get_ctx self w) then _ else None) as [v|].
    + eexists _, _. split; [reflexivity|]. repeat split.
      intros c. exists (pending (get_ctx c w)).
      change (get_ctx c (emit ?e (set_futures ?fs (emit ?e' w)))) with (get_ctx c w).
      now rewrite with_pending_same.
    + eexists _, _. split; [reflexivity|]. repeat split.
      intros c. change (get_ctx c (emit ?e ?w0)) with (get_ctx c w0).
      match goal with
      | |- exists P', get_ctx c (set_pending ?a ?P ?w0) = _ =>
          destruct (get_ctx_set_pending_config c a P w0) as [P' E]
      end.
      exists P'. exact E.
Qed.

Lemma calc_locked_stable self p m w f w1 :
  calc_locked self p m w = Ok f w1 ->
  active_context self w1 = active_context self w /\
  __risk_key self m (provider p) w1 = __risk_key self m (provider p) w /\
  is_entered (get_ctx self w1) = is_entered (get_ctx self w) /\
  is_async (get_ctx self w1) = is_async (get_ctx self w) /\
  use_cache (get_ctx self w1) = use_cache (get_ctx self w).
Proof.
  intros E. destruct (calc_locked_frame self p m w) as (f' & w1' & E' & Ep & Es & Ec).
  rewrite E in E'. injection E' as <- <-.
  destruct (Ec self) as [P' Eself].
  split; [|split; [|rewrite Eself; auto]].
  - unfold active_context. rewrite Ep.
    rewrite (find_pointwise (fun c => is_entered (get_ctx c w1))
               (fun c => is_entered (get_ctx c w))); [reflexivity|].
    intros c. destruct (Ec c) as [P'' ->]. reflexivity.
  - unfold __risk_key, __scenario. rewrite Es, Eself. reflexivity.
Qed.

(** An entered or asynchronous context does not flush in [calc]. *)
Lemma calc_no_flush `{MO : MarketOrder} srv sched self p m w :
  is_entered (get_ctx self w) || is_async (get_ctx self w) = true ->
  calc srv sched self p m w = calc_locked self p m w.
Proof.
  intros H. unfold calc, bind at 1.
  destruct (calc_locked_frame self p m w) as (f & w1 & E & _).
  pose proof (calc_locked_stable self p m w f w1 E) as (_ & _ & He & Ha & _).
  rewrite E. unfold bind, reads. rewrite He, Ha, H. reflexivity.
Qed.

(** A call that is not answered by the cache leaves its pair pending in the
    active context, under the future it returns. *)
Lemma calc_locked_pending self p m w :
  let a := active_context self w in
  let k := __risk_key self m (provider p) w in
  self < List.length (contexts w) ->
  dict_get (k, p) (pending (get_ctx a w)) <> None \/
    use_cache (get_ctx self w) = false \/
    PricingCache.get k p (cache w) = None ->
  exists f w1,
    calc_locked self p m w = Ok f w1 /\
    dict_get (k, p) (pending (get_ctx a w1)) = Some f /\
    log w1 = log w ++ [Acquire a; Release a].
Proof.
  intros a k Hself Hmiss. rewrite calc_locked_eq. fold a k.
  destruct (dict_get (k, p) (pending (get_ctx a w))) as [f|] eqn:G.
  - eexists _, _. split; [reflexivity|]. split; [exact G|].
    simpl. now rewrite <- app_assoc.
  - assert (Hc : (if use_cache (get_ctx self w)
                  then PricingCache.get k p (cache w) else None) = None).
    { destruct Hmiss as [N|[-> | ->]]; [congruence | reflexivity|].
      now destruct (use_cache (get_ctx self w)). }
    rewrite Hc. eexists _, _. split; [reflexivity|].
    assert (Ha : a < List.length (contexts w)).
    { destruct (Nat.eq_dec a self) as [->|N]; [exact Hself|].
      now apply active_context_valid. }
    change (get_ctx a (emit ?e ?w0)) with (get_ctx a w0).
    rewrite get_ctx_set_pending_eq by exact Ha. split.
    + simpl. apply dict_get_set_same.
    + simpl. now rewrite <- app_assoc.
Qed.

(** C6, as stated, fails when the cache answers: each call wraps the cached
    value in a future of its own, so the two calls return different future
    objects, nothing becomes pending and the following flush sends nothing. *)
Lemma cached_calls_return_distinct_futures :
  let k := Ex.key 7 20%Z 5 in
  let w := Ex.world [Ex.context false true true []] [0]
             (PricingCache.put k Ex.swap (FloatWithInfo 42) []) [] in
  exists w1 w2 w3,
    calc Ex.srv_ok [] 0 Ex.swap 5 w = Ok 0 w1 /\
    __risk_key 0 5 (provider Ex.swap) w1 = __risk_key 0 5 (provider Ex.swap) w /\
    calc Ex.srv_ok [] 0 Ex.swap 5 w1 = Ok 1 w2 /\
    pending (get_ctx 0 w2) = [] /\
    __calc Ex.srv_ok [] 0 w2 = Ok tt w3 /\
    log w3 = [Acquire 0; Release 0; Acquire 0; Release 0; Acquire 0; Release 0].
Proof. do 3 eexists. vm_compute. repeat split; reflexivity. Qed.

(** C6, amended: on a context that is entered or asynchronous, so that
    [calc] itself does not flush, two calls with the same instrument and
    measure, the first of which is not answered by the cache, compute the
    same key and return the same future; the second call changes no pending
    map, nothing is dispatched in between, and the batches of the following
    flush of the active context hold exactly one request group for the
    pair, each group being one request. *)
Theorem repeated_calc_returns_same_future `{MO : MarketOrder}
    (srv : Session) (sched : list nat) (self : CtxId) (p : Priceable)
    (m : RiskMeasure) (w : World) :
  let a := active_context self w in
  let k := __risk_key self m (provider p) w in
  self < List.length (contexts w) ->
  is_entered (get_ctx self w) || is_async (get_ctx self w) = true ->
  dict_get (k, p) (pending (get_ctx a w)) <> None \/
    use_cache (get_ctx self w) = false \/
    PricingCache.get k p (cache w) = None ->
  exists f w1 w2,
    calc srv sched self p m w = Ok f w1 /\
    __risk_key self m (provider p) w1 = k /\
    calc srv sched self p m w1 = Ok f w2 /\
    dict_get (k, p) (pending (get_ctx a w2)) = Some f /\
    contexts w2 = contexts w1 /\
    log w2 = log w ++ [Acquire a; Release a; Acquire a; Release a] /\
    let keys := dict_keys (pending (get_ctx a w2)) in
    List.length (filter (covers (k, p)) (flush_groups keys)) = 1 /\
    forall ctx,
      flat_map (fun job : Job => map (pair (fst job)) (snd job)) (jobs_of ctx keys) =
      map (fun vg => (fst vg, make_request ctx (snd vg))) (flush_groups keys).
Proof.
  intros a k Hself Hnoflush Hmiss.
  destruct (calc_locked_pending self p m w Hself Hmiss) as (f & w1 & E1 & G1 & L1).
  fold a k in G1, L1.
  destruct (calc_locked_stable self p m w f w1 E1) as (Ea & Ek & He & Has & _).
  fold a in Ea. fold k in Ek.
  exists f, w1, (emit (Release a) (emit (Acquire a) w1)).
  split; [now rewrite calc_no_flush|]. split; [exact Ek|].
  split.
  { rewrite calc_no_flush by (now rewrite He, Has).
    rewrite calc_locked_eq, Ea, Ek, G1. reflexivity. }
  split; [exact G1|]. split; [reflexivity|].
  split; [simpl; rewrite L1, <- !app_assoc; reflexivity|].
  change (get_ctx a (emit (Release a) (emit (Acquire a) w1))) with (get_ctx a w1).
  split.
  - apply one_unit_of_work. now apply dict_get_Some_in in G1.
  - intros ctx. apply jobs_of_groups.
Qed.

(** C6 at work: an entered context with [cap] already pending for another
    date and an empty cache. *)
Lemma repeated_calc_returns_same_future_witness :
  let w := Ex.world [Ex.context false true true
                       [((Ex.key 7 21%Z 5, Ex.cap), 0)]] [0] [] [None] in
  let k := Ex.key 7 20%Z 5 in
  exists f w1 w2,
    calc Ex.srv_ok [] 0 Ex.swap 5 w = Ok f w1 /\
    __risk_key 0 5 (provider Ex.swap) w1 = k /\
    calc Ex.srv_ok [] 0 Ex.swap 5 w1 = Ok f w2 /\
    dict_get (k, Ex.swap) (pending (get_ctx 0 w2)) = Some f /\
    contexts w2 = contexts w1 /\
    log w2 = log w ++ [Acquire 0; Release 0; Acquire 0; Release 0] /\
    let keys := dict_keys (pending (get_ctx 0 w2)) in
    List.length (filter (covers (k, Ex.swap)) (flush_groups keys)) = 1 /\
    forall ctx,
      flat_map (fun job : Job => map (pair (fst job)) (snd job)) (jobs_of ctx keys) =
      map (fun vg => (fst vg, make_request ctx (snd vg))) (flush_groups keys).
Proof.
  intros w k.
  apply (repeated_calc_returns_same_future Ex.srv_ok [] 0 Ex.swap 5 w).
  - apply Nat.lt_0_1.
  - reflexivity.
  - right. right. reflexivity.
Defined.

(** ** Lookups after an update *)

Section DictUpdate.
Context {K V : Type} `{EqDec K}.

Lemma dict_get_set_other (k k' : K) (v : V) (d : dict K V) :
  k' <> k -> dict_get k' (dict_set k v d) = dict_get k' d.
Proof.
  intros N. induction d as [|[k0 v0] d IH]; simpl.
  - destruct (eq_dec k' k); congruence.
  - destruct (eq_dec k k0) as [->|]; simpl.
    + destruct (eq_dec k' k0); congruence.
    + destruct (eq_dec k' k0); auto.
Qed.

Lemma dict_get_setdefault_same (k : K) (dflt : V) (f : V -> V) (d : dict K V) :
  dict_get k (dict_setdefault k dflt f d) =
  Some (f (match dict_get k d with Some v => v | None => dflt end)).
Proof.
  induction d as [|[k0 v0] d IH]; simpl.
  - destruct (eq_dec k k); congruence.
  - destruct (eq_dec k k0) as [->|N]; simpl.
    + destruct (eq_dec k0 k0); congruence.
    + destruct (eq_dec k k0); [contradiction | exact IH].
Qed.

Lemma dict_get_setdefault_other (k k' : K) (dflt : V) (f : V -> V) (d : dict K V) :
  k' <> k -> dict_get k' (dict_setdefault k dflt f d) = dict_get k' d.
Proof.
  intros N. induction d as [|[k0 v0] d IH]; simpl.
  - destruct (eq_dec k' k); congruence.
  - destruct (eq_dec k k0) as [->|]; simpl.
    + destruct (eq_dec k' k0); congruence.
    + destruct (eq_dec k' k0); auto.
Qed.

Lemma dict_keys_setdefault (k : K) (dflt : V) (f : V -> V) (d : dict K V) :
  dict_keys (dict_setdefault k dflt f d) =
  if dict_mem k d then dict_keys d else dict_keys d ++ [k].
Proof.
  unfold dict_mem. induction d as [|[k0 v0] d IH]; simpl; [reflexivity|].
  destruct (eq_dec k k0) as [->|N]; simpl; [reflexivity|].
  rewrite IH. now destruct (dict_get k d).
Qed.
End DictUpdate.

(** ** Lookups in the store of [PricingCache] *)

Lemma get_put_same rk p v cache :
  is_ErrorValue v = false -> is_LiveMarket (rk_market rk) = false ->
  PricingCache.get rk p (PricingCache.put rk p v cache) = Some v.
Proof.
  intros Ev Lv. unfold PricingCache.get, PricingCache.put.
  rewrite Ev, Lv. simpl. rewrite dict_get_setdefault_same.
  apply dict_get_set_same.
Qed.

Lemma get_put_other rk p v rk' p' cache :
  (rk', p') <> (rk, p) ->
  PricingCache.get rk' p' (PricingCache.put rk p v cache) =
  PricingCache.get rk' p' cache.
Proof.
  intros N. unfold PricingCache.get, PricingCache.put.
  destruct (negb (is_ErrorValue v) && negb (is_LiveMarket (rk_market rk)));
    [|reflexivity].
  destruct (eq_dec p' p) as [->|Np].
  - rewrite dict_get_setdefault_same.
    assert (Nk : rk' <> rk) by congruence.
    rewrite dict_get_set_other by exact Nk.
    now destruct (dict_get p cache).
  - now rewrite dict_get_setdefault_other.
Qed.

Lemma reachable_keys_nodup cache :
  cache_reachable cache -> NoDup (dict_keys cache).
Proof.
  induction 1 as [|rk p v c _ IH|p c _ IH|c _ IH].
  - constructor.
  - unfold PricingCache.put.
    destruct (negb (is_ErrorValue v) && negb (is_LiveMarket (rk_market rk)));
      [|exact IH].
    rewrite dict_keys_setdefault.
    destruct (dict_mem p c) eqn:E; [exact IH|].
    apply NoDup_app; [exact IH | repeat constructor; intros [] | ].
    intros x Hx [<-|[]].
    apply dict_mem_true in Hx. congruence.
  - unfold PricingCache.drop. destruct (dict_mem p c); [|exact IH].
    now apply NoDup_keys_remove.
  - exact IH.
Qed.

(** X1.  A result that is not an [ErrorValue], stored under a key whose
    market is not live, is what [get] returns for that key and instrument
    afterwards, whatever the store held before. *)
Theorem put_then_get_returns_result (rk : RiskKey) (p : Priceable) (v : Value)
    (cache : CacheStore) :
  is_ErrorValue v = false ->
  is_LiveMarket (rk_market rk) = false ->
  PricingCache.get rk p (PricingCache.put rk p v cache) = Some v.
Proof. apply get_put_same. Qed.

Lemma put_then_get_returns_result_witness :
  PricingCache.get (Ex.key 7 20%Z 5) Ex.swap
    (PricingCache.put (Ex.key 7 20%Z 5) Ex.swap (StringWithInfo "par")
       (PricingCache.put (Ex.key 7 20%Z 5) Ex.swap (FloatWithInfo 42) []))
  = Some (StringWithInfo "par").
Proof. apply put_then_get_returns_result; reflexivity. Defined.

(** X2.  [put] changes the answer of [get] for its own key and instrument
    only: every other (key, instrument) pair reads as before, whether the
    other pair differs in the key, in the instrument, or in both. *)
Theorem put_leaves_other_pairs (rk rk' : RiskKey) (p p' : Priceable) (v : Value)
    (cache : CacheStore) :
  (rk', p') <> (rk, p) ->
  PricingCache.get rk' p' (PricingCache.put rk p v cache) =
  PricingCache.get rk' p' cache.
Proof. apply get_put_other. Qed.

Lemma put_leaves_other_pairs_witness :
  PricingCache.get (Ex.key 7 20%Z 5) Ex.swap
    (PricingCache.put (Ex.key 7 20%Z 3) Ex.swap (FloatWithInfo 7)
       (PricingCache.put (Ex.key 7 20%Z 5) Ex.swap (FloatWithInfo 42) []))
  = PricingCache.get (Ex.key 7 20%Z 5) Ex.swap
      (PricingCache.put (Ex.key 7 20%Z 5) Ex.swap (FloatWithInfo 42) []).
Proof. apply put_leaves_other_pairs. discriminate. Defined.

(** X3.  In a store the class methods can produce, [drop] forgets every
    result of the instrument: [get] answers [None] for each of its keys. *)
Theorem drop_forgets_instrument (cache : CacheStore) (p : Priceable) (rk : RiskKey) :
  cache_reachable cache ->
  PricingCache.get rk p (PricingCache.drop p cache) = None.
Proof.
  intros R. apply reachable_keys_nodup in R.
  unfold PricingCache.get, PricingCache.drop.
  destruct (dict_mem p cache) eqn:E.
  - now rewrite dict_get_remove_same.
  - unfold dict_mem in E. now destruct (dict_get p cache).
Qed.

Lemma drop_forgets_instrument_witness :
  PricingCache.get (Ex.key 7 20%Z 5) Ex.swap
    (PricingCache.drop Ex.swap
       (PricingCache.put (Ex.key 7 20%Z 5) Ex.swap (FloatWithInfo 42) []))
  = None.
Proof. apply drop_forgets_instrument. apply reach_put, reach_empty. Defined.

(** X4.  [drop] leaves the results of every other instrument as they
    were. *)
Theorem drop_leaves_other_instruments (cache : CacheStore) (p p' : Priceable)
    (rk : RiskKey) :
  p' <> p ->
  PricingCache.get rk p' (PricingCache.drop p cache) = PricingCache.get rk p' cache.
Proof.
  intros N. unfold PricingCache.get, PricingCache.drop.
  destruct (dict_mem p cache); [|reflexivity].
  now rewrite dict_get_remove_other.
Qed.

Lemma drop_leaves_other_instruments_witness :
  PricingCache.get (Ex.key 7 20%Z 5) Ex.cap
    (PricingCache.drop Ex.swap
       (PricingCache.put (Ex.key 7 20%Z 5) Ex.cap (FloatWithInfo 7)
          (PricingCache.put (Ex.key 7 20%Z 5) Ex.swap (FloatWithInfo 42) [])))
  = PricingCache.get (Ex.key 7 20%Z 5) Ex.cap
      (PricingCache.put (Ex.key 7 20%Z 5) Ex.cap (FloatWithInfo 7)
         (PricingCache.put (Ex.key 7 20%Z 5) Ex.swap (FloatWithInfo 42) [])).
Proof. apply drop_leaves_other_instruments. discriminate. Defined.

(** ** The active context *)

Lemma find_app {A} (f : A -> bool) (l1 l2 : list A) :
  find f (l1 ++ l2) = match find f l1 with Some x => Some x | None => find f l2 end.
Proof.
  induction l1 as [|x l1 IH]; simpl; [reflexivity|].
  now destruct (f x).
Qed.

Lemma find_none_all {A} (f : A -> bool) (l : list A) :
  (forall x, In x l -> f x = false) -> find f l = None.
Proof.
  induction l as [|x l IH]; simpl; intros Hall; [reflexivity|].
  rewrite (Hall x) by now left. apply IH. intros y I. apply Hall. now right.
Qed.

(** X5.  The active context is the innermost entered context of
    [PricingContext.path]: contexts further in that are not entered are
    passed over, and contexts further out are not looked at, entered or
    not.  The context [calc] was called on plays no part. *)
Theorem active_context_is_innermost_entered (self c : CtxId)
    (outer inner : list CtxId) (w : World) :
  path w = outer ++ c :: inner ->
  is_entered (get_ctx c w) = true ->
  (forall c', In c' inner -> is_entered (get_ctx c' w) = false) ->
  active_context self w = c.
Proof.
  intros P E N. unfold active_context. rewrite P.
  rewrite rev_app_distr. simpl. rewrite <- app_assoc, find_app.
  rewrite find_none_all.
  - simpl. now rewrite E.
  - intros x I. apply N. now apply in_rev.
Qed.

Lemma active_context_is_innermost_entered_witness :
  active_context 0
    (Ex.world [Ex.context false false false []; Ex.context false false true [];
               Ex.context false false true []; Ex.context false false false []]
       [1; 2; 3] [] []) = 2.
Proof.
  apply (active_context_is_innermost_entered 0 2 [1] [3]).
  - reflexivity.
  - reflexivity.
  - intros c' [<-|[]]. reflexivity.
Defined.

(** X6.  When no context of [PricingContext.path] is entered, the active
    context is the context [calc] was called on, whether or not it is on
    the path; and in every case the active context is that context or an
    entered member of the path. *)
Theorem active_context_falls_back_to_self (self : CtxId) (w : World) :
  ((forall c, In c (path w) -> is_entered (get_ctx c w) = false) ->
   active_context self w = self) /\
  (active_context self w = self \/
   In (active_context self w) (path w) /\
   is_entered (get_ctx (active_context self w) w) = true).
Proof.
  unfold active_context. split.
  - intros N. rewrite find_none_all; [reflexivity|].
    intros x I. apply N. now apply in_rev.
  - destruct (find _ _) as [c|] eqn:F; [|now left].
    right. apply find_some in F as [I E]. split; [now apply in_rev | exact E].
Qed.

Lemma active_context_falls_back_to_self_witness :
  active_context 1
    (Ex.world [Ex.context false false false []; Ex.context false false false []]
       [0] [] []) = 1.
Proof.
  apply (proj1 (active_context_falls_back_to_self 1
                  (Ex.world [Ex.context false false false [];
                             Ex.context false false false []] [0] [] []))).
  intros c [<-|[]]. reflexivity.
Defined.

(** ** Registration keeps the pending maps well formed *)

Lemma pending_wf_same c w w' :
  contexts w' = contexts w -> futures w' = futures w ->
  pending_wf c w -> pending_wf c w'.
Proof.
  unfold pending_wf, get_ctx. intros -> ->. auto.
Qed.

Lemma pending_wf_new_future c w w' o :
  contexts w' = contexts w -> futures w' = futures w ++ [o] ->
  pending_wf c w -> pending_wf c w'.
Proof.
  unfold pending_wf, get_ctx. intros -> -> (Hc & Nk & Nv & U).
  repeat split; auto.
  intros f I. specialize (U f I).
  rewrite nth_error_app1; [exact U | now apply nth_error_lt in U].
Qed.

(** X7.  Registration keeps every pending map well formed: after the locked
    block of [calc], each context whose pending futures were distinct and
    unresolved still has distinct, unresolved pending futures, whichever of
    the three branches the call took. *)
Theorem calc_keeps_pending_well_formed (self c : CtxId) (p : Priceable)
    (m : RiskMeasure) (w : World) :
  pending_wf c w ->
  exists f w', calc_locked self p m w = Ok f w' /\ pending_wf c w'.
Proof.
  intros WF. rewrite calc_locked_eq.
  set (a := active_context self w). set (k := __risk_key self m (provider p) w).
  destruct (dict_get (k, p) (pending (get_ctx a w))) as [f|] eqn:G.
  { do 2 eexists. split; [reflexivity|]. revert WF. now apply pending_wf_same. }
  destruct (if use_cache (get_ctx self w) then PricingCache.get k p (cache w) else None)
    as [v|] eqn:C.
  { do 2 eexists. split; [reflexivity|]. revert WF.
    now apply pending_wf_new_future with (o := Some v). }
  do 2 eexists. split; [reflexivity|].
  set (w1 := set_futures (futures w ++ [None]) (emit (Acquire a) w)).
  assert (WF1 : pending_wf c w1).
  { revert WF. now apply pending_wf_new_future with (o := None). }
  destruct (eq_dec c a) as [->|N].
  - destruct WF1 as (Hc & Nk & Nv & U). unfold pending_wf.
    change (contexts (emit ?e ?x)) with (contexts x).
    change (futures (emit ?e ?x)) with (futures x).
    change (get_ctx a (emit ?e ?x)) with (get_ctx a x).
    rewrite get_ctx_set_pending_eq by exact Hc.
    change (get_ctx a w1) with (get_ctx a w) in *.
    change (futures (set_pending ?c ?P ?x)) with (futures x).
    change (contexts (set_pending ?c ?P ?x)) with (list_update c (with_pending P) (contexts x)).
    rewrite length_list_update. simpl pending.
    rewrite dict_set_new by exact G.
    unfold dict_keys, dict_values in *. rewrite !map_app. simpl.
    assert (Fresh : ~ In (List.length (futures w)) (map snd (pending (get_ctx a w)))).
    { intros I. destruct WF as (_ & _ & _ & U0). apply U0 in I.
      apply nth_error_lt in I. lia. }
    repeat split.
    + exact Hc.
    + apply NoDup_app; [exact Nk | repeat constructor; intros [] |].
      intros x Hx [<-|[]]. apply dict_get_None_notin in G. now apply G.
    + apply NoDup_app; [exact Nv | repeat constructor; intros [] |].
      intros x Hx [<-|[]]. now apply Fresh.
    + intros f I. apply in_app_or in I as [I|[<-|[]]].
      * now apply U.
      * unfold w1. simpl. apply nth_error_app_last.
  - destruct WF1 as (Hc & Nk & Nv & U). unfold pending_wf.
    change (contexts (emit ?e ?x)) with (contexts x).
    change (futures (emit ?e ?x)) with (futures x).
    change (get_ctx c (emit ?e ?x)) with (get_ctx c x).
    rewrite get_ctx_set_pending_neq by congruence.
    change (futures (set_pending ?c ?P ?x)) with (futures x).
    change (contexts (set_pending ?c ?P ?x)) with (list_update c (with_pending P) (contexts x)).
    rewrite length_list_update. auto.
Qed.

Lemma calc_keeps_pending_well_formed_witness :
  exists f w',
    calc_locked 0 Ex.cap 5
      (Ex.world [Ex.context false false true [((Ex.key 7 20%Z 5, Ex.swap), 0)]]
         [0] [] [None]) = Ok f w' /\
    pending_wf 0 w'.
Proof.
  apply calc_keeps_pending_well_formed. unfold pending_wf. simpl.
  repeat split.
  - lia.
  - repeat constructor. intros [].
  - repeat constructor. intros [].
  - intros f [<-|[]]. reflexivity.
Defined.

(** X8.  The locked block of [calc] never raises, never writes the cache,
    and never changes a future that existed before the call; when the pair
    is not pending in the active context the future it returns is a new
    one. *)
Theorem registration_keeps_futures_and_cache (self : CtxId) (p : Priceable)
    (m : RiskMeasure) (w : World) :
  exists f w',
    calc_locked self p m w = Ok f w' /\
    cache w' = cache w /\
    (forall g, g < List.length (futures w) ->
               nth_error (futures w') g = nth_error (futures w) g) /\
    (dict_get (__risk_key self m (provider p) w, p)
       (pending (get_ctx (active_context self w) w)) = None ->
     f = List.length (futures w) /\
     List.length (futures w') = S (List.length (futures w))).
Proof.
  rewrite calc_locked_eq.
  destruct (dict_get _ _) as [f|] eqn:G.
  { do 2 eexists. split; [reflexivity|]. repeat split; auto; discriminate. }
  destruct (if use_cache (get_ctx self w) then _ else None) as [v|].
  - do 2 eexists. split; [reflexivity|]. simpl. repeat split.
    + intros g L. now apply nth_error_app1.
    + rewrite length_app. simpl. lia.
  - do 2 eexists. split; [reflexivity|]. simpl. repeat split.
    + intros g L. now apply nth_error_app1.
    + rewrite length_app. simpl. lia.
Qed.

(** X9.  On a context that is entered or asynchronous, [calc] is the locked
    block alone: it takes and releases the lock of the active context once,
    sends nothing to a provider and starts no task. *)
Theorem deferred_calc_sends_nothing `{MO : MarketOrder} (srv : Session) (sched : list nat)
    (self : CtxId) (p : Priceable) (m : RiskMeasure) (w : World) :
  is_entered (get_ctx self w) || is_async (get_ctx self w) = true ->
  exists f w',
    calc srv sched self p m w = Ok f w' /\
    log w' = log w ++ [Acquire (active_context self w);
                       Release (active_context self w)] /\
    background w' = background w.
Proof.
  intros E. rewrite calc_no_flush by exact E. rewrite calc_locked_eq.
  destruct (dict_get _ _) as [f|].
  { do 2 eexists. split; [reflexivity|]. simpl. now rewrite <- app_assoc. }
  destruct (if use_cache (get_ctx self w) then _ else None) as [v|];
    do 2 eexists; (split; [reflexivity|]); simpl; now rewrite <- app_assoc.
Qed.

Lemma deferred_calc_sends_nothing_witness :
  exists f w',
    calc Ex.srv_ok [] 0 Ex.swap 5
      (Ex.world [Ex.context true false false []] [] [] []) = Ok f w' /\
    log w' = [Acquire 0; Release 0] /\
    background w' = [].
Proof.
  apply (deferred_calc_sends_nothing Ex.srv_ok [] 0 Ex.swap 5
           (Ex.world [Ex.context true false false []] [] [] [])).
  reflexivity.
Defined.

(** ** The store of [PricingCache] during a flush *)

Lemma use_cache_set_pending c a P w :
  use_cache (get_ctx c (set_pending a P w)) = use_cache (get_ctx c w).
Proof.
  destruct (get_ctx_set_pending_config c a P w) as [P' E]. now rewrite E.
Qed.

Lemma pop_set_cache c kp v w :
  let w' := res_world ((f <- pending_pop c kp ;; set_result f v) w) in
  cache w' = cache w /\ use_cache (get_ctx c w') = use_cache (get_ctx c w).
Proof.
  unfold bind, pending_pop.
  destruct (dict_get kp (pending (get_ctx c w))) as [f|]; [|now split].
  unfold set_result.
  destruct (nth_error (futures (set_pending c _ w)) f) as [[?|]|]; simpl;
    (split; [reflexivity|]);
    apply use_cache_set_pending.
Qed.

Lemma resolve_item_cache c k p v w :
  let w' := res_world (resolve_item c ((k, p), v) w) in
  cache w' = (if use_cache (get_ctx c w)
              then PricingCache.put k p v (cache w) else cache w) /\
  use_cache (get_ctx c w') = use_cache (get_ctx c w).
Proof.
  assert (E : resolve_item c ((k, p), v) w =
              (f <- pending_pop c (k, p) ;; set_result f v)
                (if use_cache (get_ctx c w)
                 then set_cache (PricingCache.put k p v (cache w)) w else w)).
  { unfold resolve_item, bind, reads, modify, ret.
    now destruct (use_cache (get_ctx c w)). }
  rewrite E. clear E. destruct (use_cache (get_ctx c w)) eqn:U.
  - destruct (pop_set_cache c (k, p) v
                (set_cache (PricingCache.put k p v (cache w)) w)) as [E1 E2].
    split; [exact E1 | exact (eq_trans E2 U)].
  - destruct (pop_set_cache c (k, p) v w) as [E1 E2].
    split; [exact E1 | exact (eq_trans E2 U)].
Qed.

Lemma for_each_invariant {A} (Inv : World -> Prop) (body : A -> M unit)
    (l : list A) :
  (forall x w, Inv w -> Inv (res_world (body x w))) ->
  forall w, Inv w -> Inv (res_world (for_each body l w)).
Proof.
  intros Hb. induction l as [|x l IH]; intros w I; simpl; [exact I|].
  unfold bind. pose proof (Hb x w I) as I1.
  destruct (body x w) as [[] w1|e w1]; simpl in *; [now apply IH | exact I1].
Qed.

Lemma resolve_item_keeps_store c cs item w :
  store_kept c cs w -> store_kept c cs (res_world (resolve_item c item w)).
Proof.
  destruct item as [[k p] v]. intros [E U].
  destruct (resolve_item_cache c k p v w) as [E1 E2].
  rewrite U in E1, E2. split; [exact (eq_trans E1 E) | exact E2].
Qed.

Lemma resolve_keeps_store c cs results w :
  store_kept c cs w -> store_kept c cs (res_world (resolve c results w)).
Proof.
  intros I. unfold resolve, with_lock, bind, modify, finally.
  pose proof (for_each_invariant (store_kept c cs) (for_each (resolve_item c)) results
                (fun rm w0 => for_each_invariant (store_kept c cs) (resolve_item c) rm
                                (resolve_item_keeps_store c cs) w0)
                (emit (Acquire c) w) I) as T.
  destruct (for_each (for_each (resolve_item c)) results (emit (Acquire c) w));
    exact T.
Qed.

Lemma run_requests_keeps_store srv c cs reqs prov w :
  store_kept c cs w ->
  store_kept c cs (res_world (run_requests srv c reqs prov w)).
Proof.
  intros I. unfold run_requests. rewrite dispatch_eq.
  now apply (resolve_keeps_store c cs _ (emit (CalcMulti prov reqs) w)).
Qed.

Lemma worker_step_keeps_store srv cs wk w :
  store_kept (wk_self wk) cs w ->
  store_kept (wk_self wk) cs (snd (worker_step srv wk w)).
Proof.
  intros I. unfold worker_step. destruct (wk_phase wk) as [|results|r].
  - rewrite dispatch_eq. exact I.
  - pose proof (resolve_keeps_store (wk_self wk) cs results w I) as T.
    destruct (resolve (wk_self wk) results w); exact T.
  - exact I.
Qed.

Lemma pool_steps_keeps_store srv c cs sched :
  forall pool w,
    Forall (fun wk => wk_self wk = c) pool ->
    store_kept c cs w ->
    store_kept c cs (snd (pool_steps srv sched pool w)).
Proof.
  induction sched as [|i sched IH]; intros pool w F I; simpl; [exact I|].
  destruct (nth_error pool i) as [wk|] eqn:E; [|now apply IH].
  assert (Hc : wk_self wk = c).
  { apply nth_error_In in E. rewrite Forall_forall in F. now apply F. }
  pose proof (worker_step_keeps_store srv cs wk w) as T.
  pose proof (worker_step_touches srv wk w) as [_ S].
  destruct (worker_step srv wk w) as [wk' w']. simpl in T, S.
  rewrite Hc in T. apply IH; [|now apply T].
  apply Forall_list_update; [exact F | congruence].
Qed.

(** X10.  A flush of a context that does not cache leaves the store of
    [PricingCache] as it was, whatever the providers answer, in whatever
    order the pooled tasks run, and whether the flush is synchronous or
    not. *)
Theorem flush_without_cache_keeps_store `{MO : MarketOrder} (srv : Session) (sched : list nat)
    (c : CtxId) (w : World) :
  use_cache (get_ctx c w) = false ->
  cache (res_world (__calc srv sched c w)) = cache w.
Proof.
  intros U. assert (I : store_kept c (cache w) w) by now split.
  enough (store_kept c (cache w) (res_world (__calc srv sched c w))) as [E _]
    by exact E.
  unfold __calc, bind. rewrite snapshot_eq.
  set (rbp := requests_by_provider _). set (w1 := emit _ (emit _ w)).
  assert (I1 : store_kept c (cache w) w1) by exact I.
  clearbody w1. unfold dispatch_all.
  destruct rbp as [|j rbp]; [exact I1|].
  unfold bind, reads.
  destruct ((1 <? List.length (j :: rbp)) || is_async (get_ctx c w1)).
  - destruct (is_async (get_ctx c w1)); unfold modify; cbn [res_world].
    + exact I1.
    + unfold pool_join. apply pool_steps_keeps_store; [|exact I1].
      apply Forall_forall. intros wk J.
      apply in_map_iff in J as [x [<- _]]. reflexivity.
  - apply for_each_invariant; [|exact I1].
    intros x w0. apply run_requests_keeps_store.
Qed.

Lemma flush_without_cache_keeps_store_witness :
  cache (res_world
           (__calc Ex.srv_ok [] 0
              (Ex.world [Ex.context false false true [((Ex.key 7 20%Z 5, Ex.swap), 0)]]
                 [0] (PricingCache.put (Ex.key 7 20%Z 3) Ex.cap (FloatWithInfo 1) [])
                 [None])))
  = PricingCache.put (Ex.key 7 20%Z 3) Ex.cap (FloatWithInfo 1) [].
Proof.
  apply (flush_without_cache_keeps_store Ex.srv_ok [] 0
           (Ex.world [Ex.context false false true [((Ex.key 7 20%Z 5, Ex.swap), 0)]]
              [0] (PricingCache.put (Ex.key 7 20%Z 3) Ex.cap (FloatWithInfo 1) [])
              [None])).
  reflexivity.
Defined.

(** ** What a caching flush stores *)

Lemma for_each_cache_on c rm :
  forall w w',
    use_cache (get_ctx c w) = true ->
    for_each (resolve_item c) rm w = Ok tt w' ->
    cache w' = cache_all rm (cache w) /\ use_cache (get_ctx c w') = true.
Proof.
  induction rm as [|[[k p] v] rm IH]; intros w w' U E.
  - simpl in E. inversion E; subst. now split.
  - change (for_each (resolve_item c) ((k, p, v) :: rm) w)
      with (match resolve_item c (k, p, v) w with
            | Ok _ w1 => for_each (resolve_item c) rm w1
            | Raise e w1 => Raise e w1
            end) in E.
    destruct (resolve_item_cache c k p v w) as [E1 E2].
    destruct (resolve_item c (k, p, v) w) as [[] w1|e w1]; [|discriminate].
    simpl in E1, E2. rewrite U in E1, E2.
    destruct (IH w1 w' E2 E) as [E3 E4]. split; [|exact E4].
    rewrite E3, E1. reflexivity.
Qed.

Lemma resolve_cache_on c results w w' :
  use_cache (get_ctx c w) = true ->
  resolve c results w = Ok tt w' ->
  cache w' = cache_all (List.concat results) (cache w).
Proof.
  intros U. unfold resolve, with_lock, bind, modify, finally.
  rewrite for_each_concat.
  destruct (for_each (resolve_item c) (List.concat results) (emit (Acquire c) w))
    as [[] w1|e w1] eqn:E; [|discriminate].
  intros R. inversion R; subst.
  apply for_each_cache_on in E as [E _]; [|exact U]. exact E.
Qed.

Lemma get_cache_all_absent rk p rm :
  forall cs,
    dict_get (rk, p) rm = None ->
    PricingCache.get rk p (cache_all rm cs) = PricingCache.get rk p cs.
Proof.
  induction rm as [|[[k0 p0] v0] rm IH]; intros cs G; [reflexivity|].
  simpl in G. destruct (eq_dec (rk, p) (k0, p0)) as [|N]; [discriminate|].
  unfold cache_all. simpl. fold (cache_all rm (PricingCache.put k0 p0 v0 cs)).
  rewrite IH by exact G. now apply get_put_other.
Qed.

Lemma get_cache_all rk p rm :
  forall cs,
    NoDup (dict_keys rm) ->
    PricingCache.get rk p (cache_all rm cs) =
    match dict_get (rk, p) rm with
    | Some v =>
        if is_ErrorValue v || is_LiveMarket (rk_market rk)
        then PricingCache.get rk p cs else Some v
    | None => PricingCache.get rk p cs
    end.
Proof.
  induction rm as [|[[k0 p0] v0] rm IH]; intros cs ND; [reflexivity|].
  simpl in ND. inversion ND as [|? ? Hn ND']; subst.
  unfold cache_all. simpl. fold (cache_all rm (PricingCache.put k0 p0 v0 cs)).
  destruct (eq_dec (rk, p) (k0, p0)) as [E|N].
  - inversion E; subst k0 p0.
    rewrite get_cache_all_absent by now apply dict_get_None_notin.
    destruct (is_ErrorValue v0) eqn:Ev; simpl.
    { rewrite put_rejected by now left. reflexivity. }
    destruct (is_LiveMarket (rk_market rk)) eqn:Lv.
    { rewrite put_rejected by now right. reflexivity. }
    now apply get_put_same.
  - rewrite IH by exact ND'.
    rewrite get_put_other by exact N. reflexivity.
Qed.

(** A synchronous flush to one provider, on a caching context, when every
    pair in [results], what the [finally] block iterates, is pending. *)
Lemma caching_flush_single `{MO : MarketOrder} srv sched c w prov bp results :
  let P := pending (get_ctx c w) in
  pending_wf c w ->
  is_async (get_ctx c w) = false ->
  use_cache (get_ctx c w) = true ->
  requests_by_provider (dict_keys P) = [(prov, bp)] ->
  fst (dispatch srv c (build_requests (get_ctx c w) bp) prov w) = results ->
  NoDup (dict_keys (List.concat results)) ->
  (forall k, In k (dict_keys (List.concat results)) -> In k (dict_keys P)) ->
  exists w',
    __calc srv sched c w = Ok tt w' /\
    cache w' = cache_all (List.concat results) (cache w) /\
    (forall k f, dict_get k P = Some f ->
                 future_value f w' = dict_get k (List.concat results)) /\
    resolved_with c (List.concat results) w w' /\
    log w' = log w ++ [Acquire c; Release c;
                       CalcMulti prov (build_requests (get_ctx c w) bp);
                       Acquire c; Release c].
Proof.
  intros P WF Ha U R D ND Hin.
  unfold __calc, bind. rewrite snapshot_eq. fold P. rewrite R.
  set (w1 := emit (Release c) (emit (Acquire c) w)).
  rewrite dispatch_all_inline by exact Ha.
  change (get_ctx c w1) with (get_ctx c w).
  assert (WF1 : pending_wf c w1) by (revert WF; now apply pending_wf_same).
  destruct (run_requests_ok srv c (build_requests (get_ctx c w) bp) prov w1 results)
    as (w2 & E & WF2 & RW & L); auto.
  { rewrite dispatch_eq. rewrite dispatch_eq in D. exact D. }
  unfold bind. rewrite E. exists w2. split; [reflexivity|].
  split.
  - assert (D1 : fst (dispatch srv c (build_requests (get_ctx c w) bp) prov w1)
                 = results).
    { rewrite dispatch_eq. rewrite dispatch_eq in D. exact D. }
    unfold run_requests in E.
    destruct (dispatch srv c (build_requests (get_ctx c w) bp) prov w1)
      as [res w3] eqn:Ed.
    simpl in D1. subst res. rewrite dispatch_eq in Ed.
    injection Ed as _ Ew. rewrite <- Ew in E.
    apply resolve_cache_on in E; [exact E | exact U].
  - split; [|split].
    + intros k f G. destruct RW as (_ & RW & _). now apply RW.
    + exact RW.
    + rewrite L. simpl. now rewrite <- !app_assoc.
Qed.

(** X11.  A synchronous flush to one provider on a caching context stores
    what the provider returned: afterwards [get] answers each returned pair
    with its value, except that an [ErrorValue] or a pair under a live
    market leaves the earlier answer in place, as it does for every pair the
    provider did not return. *)
Theorem caching_flush_stores_results `{MO : MarketOrder} (srv : Session) (sched : list nat)
    (c : CtxId) (w : World) (prov : Provider)
    (bp : dict PSDM (dict Priceable (list RiskMeasure)))
    (results : list ResultMap) :
  let P := pending (get_ctx c w) in
  let ctx := get_ctx c w in
  pending_wf c w ->
  is_async ctx = false ->
  use_cache ctx = true ->
  requests_by_provider (dict_keys P) = [(prov, bp)] ->
  try_block srv ctx (build_requests ctx bp) prov = Returned results ->
  NoDup (dict_keys (List.concat results)) ->
  (forall k, In k (dict_keys (List.concat results)) -> In k (dict_keys P)) ->
  exists w',
    __calc srv sched c w = Ok tt w' /\
    forall rk p,
      PricingCache.get rk p (cache w') =
      match dict_get (rk, p) (List.concat results) with
      | Some v =>
          if is_ErrorValue v || is_LiveMarket (rk_market rk)
          then PricingCache.get rk p (cache w) else Some v
      | None => PricingCache.get rk p (cache w)
      end.
Proof.
  intros P ctx WF Ha U R T ND Hin.
  destruct (caching_flush_single srv sched c w prov bp results)
    as (w' & E & Ec & _); auto.
  { rewrite dispatch_eq. simpl. fold ctx. now rewrite T. }
  exists w'. split; [exact E|]. intros rk p. rewrite Ec.
  now apply get_cache_all.
Qed.

Lemma caching_flush_stores_results_witness :
  let w := Ex.world [Ex.context false true true [((Ex.key 7 20%Z 5, Ex.swap), 0)]]
             [0] [] [None] in
  exists w',
    __calc Ex.srv_ok [] 0 w = Ok tt w' /\
    forall rk p,
      PricingCache.get rk p (cache w') =
      match dict_get (rk, p) [((Ex.key 7 20%Z 5, Ex.swap), FloatWithInfo 42)] with
      | Some v =>
          if is_ErrorValue v || is_LiveMarket (rk_market rk)
          then PricingCache.get rk p (cache w) else Some v
      | None => PricingCache.get rk p (cache w)
      end.
Proof.
  apply (caching_flush_stores_results Ex.srv_ok [] 0
           (Ex.world [Ex.context false true true [((Ex.key 7 20%Z 5, Ex.swap), 0)]]
              [0] [] [None])
           7 [(Ex.params, None, 20%Z, CloseMarket 0, [(Ex.swap, [5])])]
           [[((Ex.key 7 20%Z 5, Ex.swap), FloatWithInfo 42)]]).
  - unfold pending_wf. simpl. repeat split.
    + lia.
    + repeat constructor. intros [].
    + repeat constructor. intros [].
    + intros f [<-|[]]. reflexivity.
  - reflexivity.
  - reflexivity.
  - reflexivity.
  - reflexivity.
  - repeat constructor. intros [].
  - intros k [<-|[]]. now left.
Defined.

(** X12.  When the provider call of a synchronous flush to one provider
    raises, on a caching context, every pending future receives the
    exception and the exception itself is stored in the cache for each
    pending pair whose market is not live: an exception object is not an
    [ErrorValue]. *)
Theorem failed_dispatch_caches_exception `{MO : MarketOrder} (srv : Session) (sched : list nat)
    (c : CtxId) (w : World) (prov : Provider)
    (bp : dict PSDM (dict Priceable (list RiskMeasure))) (e : Exn) :
  let P := pending (get_ctx c w) in
  let ctx := get_ctx c w in
  pending_wf c w ->
  is_async ctx = false ->
  use_cache ctx = true ->
  requests_by_provider (dict_keys P) = [(prov, bp)] ->
  try_block srv ctx (build_requests ctx bp) prov = Raised e ->
  exists w',
    __calc srv sched c w = Ok tt w' /\
    forall rk p f,
      dict_get (rk, p) P = Some f ->
      future_value f w' = Some (ExceptionValue e) /\
      (is_LiveMarket (rk_market rk) = false ->
       PricingCache.get rk p (cache w') = Some (ExceptionValue e)).
Proof.
  intros P ctx WF Ha U R T.
  pose proof WF as (_ & NDk & _).
  destruct (caching_flush_single srv sched c w prov bp (exception_results c e w))
    as (w' & E & Ec & Ef & _); auto.
  { rewrite dispatch_eq. simpl. fold ctx. now rewrite T. }
  { now rewrite exception_results_keys. }
  { intros k. now rewrite exception_results_keys. }
  exists w'. split; [exact E|]. intros rk p f G. subst P.
  assert (M : dict_mem ((rk, p) : PendingKey) (pending (get_ctx c w)) = true)
    by exact (f_equal (fun o : option FutureId =>
                         match o with Some _ => true | None => false end) G).
  split.
  - rewrite (Ef _ _ G), exception_results_get. now rewrite M.
  - intros Lv. rewrite Ec, get_cache_all by now rewrite exception_results_keys.
    rewrite exception_results_get. rewrite M, Lv. reflexivity.
Qed.

Lemma failed_dispatch_caches_exception_witness :
  let w := Ex.world [Ex.context false true true [((Ex.key 7 20%Z 5, Ex.swap), 0)]]
             [0] [] [None] in
  exists w',
    __calc Ex.srv_7_down [] 0 w = Ok tt w' /\
    forall rk p f,
      dict_get (rk, p) (pending (get_ctx 0 w)) = Some f ->
      future_value f w' = Some (ExceptionValue (ProviderError 503)) /\
      (is_LiveMarket (rk_market rk) = false ->
       PricingCache.get rk p (cache w') = Some (ExceptionValue (ProviderError 503))).
Proof.
  apply (failed_dispatch_caches_exception Ex.srv_7_down [] 0
           (Ex.world [Ex.context false true true [((Ex.key 7 20%Z 5, Ex.swap), 0)]]
              [0] [] [None])
           7 [(Ex.params, None, 20%Z, CloseMarket 0, [(Ex.swap, [5])])]).
  - unfold pending_wf. simpl. repeat split.
    + lia.
    + repeat constructor. intros [].
    + repeat constructor. intros [].
    + intros f [<-|[]]. reflexivity.
  - reflexivity.
  - reflexivity.
  - reflexivity.
  - reflexivity.
Defined.

(** ** Flushes that send nothing, and what a flush leaves alone *)

(** X13.  A flush of a context with nothing pending takes and releases the
    lock and does nothing else: no provider is called, no pool is created,
    whatever the flags of the context. *)
Theorem flush_with_nothing_pending_sends_nothing `{MO : MarketOrder} (srv : Session)
    (sched : list nat) (c : CtxId) (w : World) :
  pending (get_ctx c w) = [] ->
  __calc srv sched c w = Ok tt (emit (Release c) (emit (Acquire c) w)) /\
  _on_exit srv sched c None w = Ok tt (emit (Release c) (emit (Acquire c) w)).
Proof.
  intros E. unfold _on_exit. now rewrite flush_nothing_pending.
Qed.

Lemma flush_with_nothing_pending_sends_nothing_witness :
  let w := Ex.world [Ex.context true false true []] [0] [] [] in
  __calc Ex.srv_7_down [] 0 w = Ok tt (emit (Release 0) (emit (Acquire 0) w)) /\
  _on_exit Ex.srv_7_down [] 0 None w = Ok tt (emit (Release 0) (emit (Acquire 0) w)).
Proof.
  apply (flush_with_nothing_pending_sends_nothing Ex.srv_7_down [] 0
           (Ex.world [Ex.context true false true []] [0] [] [])).
  reflexivity.
Defined.

(** X14.  Every step of a task of a flush of a context, its provider call
    with the [except] handler or its [finally] block, changes no other
    context, changes no future that the context does not hold pending when
    that step begins, and adds nothing to the context's pending map,
    whatever the provider answers.  So does a whole synchronous flush
    during which no other thread registers an entry, for the futures the
    context did not hold pending when the flush began, in whatever order
    the pooled tasks run. *)
Theorem sync_flush_touches_own_pending_only `{MO : MarketOrder} (srv : Session) (sched : list nat)
    (c : CtxId) (w : World) :
  (forall wk w0,
     wk_self wk = c ->
     let w1 := snd (worker_step srv wk w0) in
     (forall c', c' <> c -> get_ctx c' w1 = get_ctx c' w0) /\
     (forall f, ~ In f (dict_values (pending (get_ctx c w0))) ->
                nth_error (futures w1) f = nth_error (futures w0) f) /\
     incl (dict_values (pending (get_ctx c w1)))
          (dict_values (pending (get_ctx c w0)))) /\
  (is_async (get_ctx c w) = false ->
   let w' := res_world (__calc srv sched c w) in
   (forall c', c' <> c -> get_ctx c' w' = get_ctx c' w) /\
   (forall f, ~ In f (dict_values (pending (get_ctx c w))) ->
              nth_error (futures w') f = nth_error (futures w) f) /\
   incl (dict_values (pending (get_ctx c w'))) (dict_values (pending (get_ctx c w)))).
Proof.
  split.
  - intros wk w0 <-. exact (proj1 (worker_step_touches srv wk w0)).
  - intros Ha. now apply flush_touches.
Qed.

Lemma sync_flush_touches_own_pending_only_witness :
  let w := Ex.world [Ex.context false false true [((Ex.key 7 20%Z 5, Ex.swap), 0)];
                     Ex.context false false true [((Ex.key 7 20%Z 5, Ex.cap), 1)]]
             [0; 1] [] [None; None] in
  let w' := res_world (__calc Ex.srv_ok [] 0 w) in
  (forall c', c' <> 0 -> get_ctx c' w' = get_ctx c' w) /\
  (forall f, ~ In f (dict_values (pending (get_ctx 0 w))) ->
             nth_error (futures w') f = nth_error (futures w) f) /\
  incl (dict_values (pending (get_ctx 0 w'))) (dict_values (pending (get_ctx 0 w))).
Proof.
  apply (proj2 (sync_flush_touches_own_pending_only Ex.srv_ok [] 0
           (Ex.world [Ex.context false false true [((Ex.key 7 20%Z 5, Ex.swap), 0)];
                      Ex.context false false true [((Ex.key 7 20%Z 5, Ex.cap), 1)]]
              [0; 1] [] [None; None]))).
  reflexivity.
Defined.

(** ** Asynchronous flushes *)

Lemma set_background_same w : set_background (background w) w = w.
Proof. now destruct w. Qed.

Lemma async_flush_eq `{MO : MarketOrder} srv sched c w :
  is_async (get_ctx c w) = true ->
  __calc srv sched c w =
  Ok tt (set_background (background w ++ tasks_of c w)
           (emit (Release c) (emit (Acquire c) w))).
Proof.
  intros Ha. unfold __calc, bind. rewrite snapshot_eq.
  unfold tasks_of, jobs_of.
  set (w1 := emit (Release c) (emit (Acquire c) w)).
  destruct (requests_by_provider (dict_keys (pending (get_ctx c w)))) as [|j rbp].
  - simpl. rewrite app_nil_r.
    change (background w) with (background w1). now rewrite set_background_same.
  - unfold dispatch_all, bind, reads.
    change (get_ctx c w1) with (get_ctx c w). rewrite Ha, orb_true_r.
    reflexivity.
Qed.

(** X15.  A flush of an asynchronous context calls no provider and resolves
    no future itself: it hands one task per provider to the pool, in the
    order the providers first occur among the pending keys, and returns
    without waiting; the pending map, the futures and the cache are as they
    were, and change only by later steps of those tasks. *)
Theorem async_flush_defers `{MO : MarketOrder} (srv : Session) (sched : list nat) (c : CtxId)
    (w : World) :
  is_async (get_ctx c w) = true ->
  exists w',
    __calc srv sched c w = Ok tt w' /\
    background w' = background w ++ tasks_of c w /\
    Forall (fun wk => wk_phase wk = Submitted /\ wk_self wk = c) (tasks_of c w) /\
    map wk_provider (tasks_of c w) =
      dedup (map key_provider (dict_keys (pending (get_ctx c w)))) /\
    contexts w' = contexts w /\ futures w' = futures w /\ cache w' = cache w /\
    log w' = log w ++ [Acquire c; Release c].
Proof.
  intros Ha. rewrite async_flush_eq by exact Ha.
  eexists. split; [reflexivity|]. simpl. repeat split.
  - apply Forall_forall. intros wk I. unfold tasks_of in I.
    apply in_map_iff in I as [j [<- _]]. now split.
  - unfold tasks_of, jobs_of, jobs. rewrite !map_map. simpl.
    rewrite requests_by_provider_closed. unfold by_provider_of.
    rewrite map_map. simpl. apply map_id.
  - now rewrite <- app_assoc.
Qed.

Lemma async_flush_defers_witness :
  let w := Ex.world [Ex.context true false true [((Ex.key 7 20%Z 5, Ex.swap), 0)]]
             [0] [] [None] in
  exists w',
    __calc Ex.srv_ok [] 0 w = Ok tt w' /\
    background w' = background w ++ tasks_of 0 w /\
    Forall (fun wk => wk_phase wk = Submitted /\ wk_self wk = 0) (tasks_of 0 w) /\
    map wk_provider (tasks_of 0 w) =
      dedup (map key_provider (dict_keys (pending (get_ctx 0 w)))) /\
    contexts w' = contexts w /\ futures w' = futures w /\ cache w' = cache w /\
    log w' = log w ++ [Acquire 0; Release 0].
Proof.
  apply (async_flush_defers Ex.srv_ok [] 0
           (Ex.world [Ex.context true false true [((Ex.key 7 20%Z 5, Ex.swap), 0)]]
              [0] [] [None])).
  reflexivity.
Defined.

Lemma background_step_last srv wk bg w :
  background w = bg ++ [wk] ->
  background_step srv (List.length bg) w =
  let (wk', w') := worker_step srv wk w in
  set_background (list_update (List.length bg) (fun _ => wk') (background w')) w'.
Proof.
  intros E. unfold background_step. rewrite E, nth_error_app_last. reflexivity.
Qed.

(** X16.  The flush of an asynchronous context with one provider hands the
    pool one task.  Whenever that task runs its two steps, the provider
    call and the [finally] block, with no other thread in between and with
    the contexts and the futures as they were when the flush began, each
    pending future gets the value the provider returned for its pair.
    Nothing orders these steps after the return of the flush. *)
Theorem async_flush_completes_in_background `{MO : MarketOrder} (srv : Session) (sched : list nat)
    (c : CtxId) (w : World) (prov : Provider)
    (bp : dict PSDM (dict Priceable (list RiskMeasure)))
    (results : list ResultMap) :
  let P := pending (get_ctx c w) in
  let ctx := get_ctx c w in
  let wk := mkWorker c prov (build_requests ctx bp) Submitted in
  pending_wf c w ->
  is_async ctx = true ->
  requests_by_provider (dict_keys P) = [(prov, bp)] ->
  try_block srv ctx (build_requests ctx bp) prov = Returned results ->
  NoDup (dict_keys (List.concat results)) ->
  (forall k, In k (dict_keys (List.concat results)) -> In k (dict_keys P)) ->
  (exists w1,
     __calc srv sched c w = Ok tt w1 /\
     background w1 = background w ++ [wk]) /\
  forall w', same_objects w w' ->
    let w2 := run_worker srv wk w' in
    (forall k f, dict_get k P = Some f ->
                 future_value f w2 = dict_get k (List.concat results)) /\
    log w2 = log w' ++ [CalcMulti prov (build_requests ctx bp); Acquire c; Release c].
Proof.
  intros P ctx wk WF Ha R T ND Hin. split.
  - rewrite async_flush_eq by exact Ha.
    assert (Et : tasks_of c w = [wk]).
    { unfold tasks_of, jobs_of. fold P. rewrite R. reflexivity. }
    rewrite Et. eexists. split; reflexivity.
  - intros w' [Ec Ef]. cbv zeta. unfold wk. rewrite run_worker_eq.
    assert (Ectx : get_ctx c w' = ctx) by (unfold ctx, get_ctx; now rewrite Ec).
    assert (WF' : pending_wf c w') by (revert WF; now apply pending_wf_same).
    destruct (run_requests_ok srv c (build_requests ctx bp) prov w' results WF')
      as (w2 & E & _ & RW & L).
    { now rewrite dispatch_eq, Ectx, T. }
    { exact ND. }
    { intros k I. rewrite Ectx. now apply Hin. }
    rewrite E. cbn [res_world]. split; [|exact L].
    intros k f G. destruct RW as (_ & RW & _). apply RW. now rewrite Ectx.
Qed.

Lemma async_flush_completes_in_background_witness :
  let w := Ex.world [Ex.context true false true [((Ex.key 7 20%Z 5, Ex.swap), 0)]]
             [0] [] [None] in
  let results := [[((Ex.key 7 20%Z 5, Ex.swap), FloatWithInfo 42)]] in
  let reqs := build_requests (get_ctx 0 w)
                [(Ex.params, None, 20%Z, CloseMarket 0, [(Ex.swap, [5])])] in
  let wk := mkWorker 0 7 reqs Submitted in
  (exists w1,
     __calc Ex.srv_ok [] 0 w = Ok tt w1 /\
     background w1 = background w ++ [wk]) /\
  forall w', same_objects w w' ->
    let w2 := run_worker Ex.srv_ok wk w' in
    (forall k f, dict_get k (pending (get_ctx 0 w)) = Some f ->
                 future_value f w2 = dict_get k (List.concat results)) /\
    log w2 = log w' ++ [CalcMulti 7 reqs; Acquire 0; Release 0].
Proof.
  apply (async_flush_completes_in_background Ex.srv_ok [] 0
           (Ex.world [Ex.context true false true [((Ex.key 7 20%Z 5, Ex.swap), 0)]]
              [0] [] [None])
           7 [(Ex.params, None, 20%Z, CloseMarket 0, [(Ex.swap, [5])])]
           [[((Ex.key 7 20%Z 5, Ex.swap), FloatWithInfo 42)]]).
  - unfold pending_wf. simpl. repeat split.
    + lia.
    + repeat constructor. intros [].
    + repeat constructor. intros [].
    + intros f [<-|[]]. reflexivity.
  - reflexivity.
  - reflexivity.
  - reflexivity.
  - repeat constructor. intros [].
  - intros k [<-|[]]. now left.
Defined.

(** ** A result for a pair that is not pending *)

(** X17.  When the first pair of a provider's answer is not pending,
    [run_requests] raises [KeyError] from its [finally] block: the lock is
    released, no future is resolved and no pending entry removed, the pairs
    after it are not looked at, and on a caching context the value of the
    pair has already been put in the cache. *)
Theorem unexpected_result_raises_KeyError (srv : Session) (c : CtxId)
    (reqs : list RiskRequest) (prov : Provider) (w : World)
    (results : list ResultMap) (rk : RiskKey) (p : Priceable) (v : Value)
    (rest : ResultMap) :
  try_block srv (get_ctx c w) reqs prov = Returned results ->
  List.concat results = ((rk, p), v) :: rest ->
  dict_get (rk, p) (pending (get_ctx c w)) = None ->
  exists w',
    run_requests srv c reqs prov w = Raise KeyError w' /\
    futures w' = futures w /\
    contexts w' = contexts w /\
    cache w' = (if use_cache (get_ctx c w)
                then PricingCache.put rk p v (cache w) else cache w) /\
    log w' = log w ++ [CalcMulti prov reqs; Acquire c; Release c].
Proof.
  intros T C G0.
  pose proof (G0 : dict_get ((rk, p) : PendingKey) (pending (get_ctx c w)) = None)
    as G. clear G0.
  unfold run_requests. rewrite dispatch_eq, T.
  unfold resolve, with_lock, bind, modify, finally.
  rewrite for_each_concat, C. cbn [for_each].
  unfold bind at 1.
  set (w1 := emit (Acquire c) (emit (CalcMulti prov reqs) w)).
  assert (E : resolve_item c ((rk, p), v) w1 =
              Raise KeyError
                (if use_cache (get_ctx c w)
                 then set_cache (PricingCache.put rk p v (cache w)) w1 else w1)).
  { unfold resolve_item, bind, reads, modify, ret, pending_pop.
    change (get_ctx c w1) with (get_ctx c w).
    destruct (use_cache (get_ctx c w)).
    - change (get_ctx c (set_cache ?cs w1)) with (get_ctx c w). now rewrite G.
    - change (get_ctx c w1) with (get_ctx c w). now rewrite G. }
  rewrite E. eexists. split; [reflexivity|].
  destruct (use_cache (get_ctx c w)); simpl; repeat split;
    now rewrite <- !app_assoc.
Qed.

Lemma unexpected_result_raises_KeyError_witness :
  let w := Ex.world [Ex.context false true true [((Ex.key 7 20%Z 5, Ex.swap), 0)]]
             [0] [] [None] in
  let reqs := build_requests (get_ctx 0 w)
                [(Ex.params, None, 21%Z, CloseMarket 0, [(Ex.cap, [3])])] in
  exists w',
    run_requests Ex.srv_ok 0 reqs 7 w = Raise KeyError w' /\
    futures w' = futures w /\
    contexts w' = contexts w /\
    cache w' = (if use_cache (get_ctx 0 w)
                then PricingCache.put (Ex.key 7 21%Z 3) Ex.cap (FloatWithInfo 42)
                       (cache w)
                else cache w) /\
    log w' = log w ++ [CalcMulti 7 reqs; Acquire 0; Release 0].
Proof.
  apply (unexpected_result_raises_KeyError Ex.srv_ok 0
           (build_requests (Ex.context false true true [((Ex.key 7 20%Z 5, Ex.swap), 0)])
              [(Ex.params, None, 21%Z, CloseMarket 0, [(Ex.cap, [3])])])
           7
           (Ex.world [Ex.context false true true [((Ex.key 7 20%Z 5, Ex.swap), 0)]]
              [0] [] [None])
           [[((Ex.key 7 21%Z 3, Ex.cap), FloatWithInfo 42)]]
           (Ex.key 7 21%Z 3) Ex.cap (FloatWithInfo 42) []).
  - reflexivity.
  - reflexivity.
  - reflexivity.
Defined.

(** ** What the requests of a flush ask for *)

(** The entry of the second grouping pass a group was built from, for each
    of its (date, market) pairs. *)
Lemma group_entry (rfp : ForProvider) prm sc S ps dms dm :
  In ((prm, sc, S, ps), dms) (requests_by_date_market rfp) ->
  In dm dms ->
  In ((prm, sc, fst dm, snd dm, S), ps) rfp.
Proof.
  intros H I. apply In_requests_by_date_market in H as [_ ->].
  apply (proj1 (In_dedup _ _)) in I. apply in_map_iff in I as [entry [E I]].
  apply filter_In in I as [I K]. apply eq_of_eqb in K.
  destruct entry as [[[[[prm' sc'] d] mk] S'] ps']. simpl in E, K.
  inversion K; subst. exact I.
Qed.

(** The pending pairs behind an entry of the second grouping pass. *)
Lemma for_provider_entry (l : list PendingKey) (g : PSDM) S ps p m :
  In ((g, S), ps) (requests_for_provider (by_psdm_of l)) ->
  In p ps -> In m S ->
  exists kp, In kp l /\ key_psdm kp = g /\ snd kp = p /\ key_measure kp = m.
Proof.
  intros H Ip Im. apply In_requests_for_provider in H as [_ ->].
  apply in_map_iff in Ip as [x [Ex Ix]].
  apply filter_In in Ix as [Ix K]. apply eq_of_eqb in K.
  destruct x as [g' [p' ms]]. simpl in Ex. subst p'.
  unfold for_provider_key in K. simpl in K. inversion K; subst g' S.
  apply In_for_provider_items in Ix as [_ ->].
  apply (proj1 (In_sorted _ _ _)) in Im. unfold measures_of in Im. apply (proj1 (In_dedup _ _)) in Im.
  apply in_map_iff in Im as [kp [Em Ik]].
  apply filter_In in Ik as [Ik Kp]. apply filter_In in Ik as [Ik Kg].
  apply eq_of_eqb in Kp, Kg. exists kp. auto.
Qed.

Lemma In_flush_groups keys v (g : RequestGroup) :
  In (v, g) (flush_groups keys) ->
  In v (map key_provider keys) /\
  In g (groups_of (by_psdm_of (filter (fun kp => eqb (key_provider kp) v) keys))).
Proof.
  unfold flush_groups. rewrite requests_by_provider_closed. unfold by_provider_of.
  intros H. apply in_flat_map in H as [entry [Ie Ig]].
  apply in_map_iff in Ie as [v0 [<- Iv]]. simpl in Ig.
  apply in_map_iff in Ig as [g0 [E Ig]]. inversion E; subst.
  split; [now apply (proj1 (In_dedup _ _)) in Iv | exact Ig].
Qed.

(** X18.  A flush asks for pending calculations only: whenever a request
    group of provider [v] lists instrument [p], measure [m] and the
    (date, market) pair [dm] under parameters [prm] and scenario [sc], the
    pair made of that risk key and [p] is one of the pending keys. *)
Theorem flush_asks_only_for_pending (keys : list PendingKey) (v : Provider)
    (prm : RiskRequestParameters) (sc : option MarketDataScenario)
    (S : list RiskMeasure) (ps : list Priceable) (dms : list (Date * Market))
    (p : Priceable) (m : RiskMeasure) (dm : Date * Market) :
  In (v, ((prm, sc, S, ps), dms)) (flush_groups keys) ->
  In p ps -> In m S -> In dm dms ->
  In (mkRiskKey v (fst dm) (snd dm) prm sc m, p) keys.
Proof.
  intros H Ip Im Id. apply In_flush_groups in H as [_ H].
  unfold groups_of in H. apply (group_entry _ _ _ _ _ _ dm) in H; [|exact Id].
  destruct (for_provider_entry _ _ _ _ p m H Ip Im) as (kp & Ik & Eg & Ep & Em).
  apply filter_In in Ik as [Ik Kv]. apply eq_of_eqb in Kv.
  destruct kp as [[v' d mk prm' sc' m'] p'].
  unfold key_psdm, key_provider, key_measure in *. simpl in *.
  inversion Eg; subst. exact Ik.
Qed.

Lemma flush_asks_only_for_pending_witness :
  In (mkRiskKey 7 (fst (20%Z, CloseMarket 0)) (snd (20%Z, CloseMarket 0))
        Ex.params None 5, Ex.cap)
     [(Ex.key 7 20%Z 5, Ex.swap); (Ex.key 7 21%Z 5, Ex.swap);
      (Ex.key 7 20%Z 5, Ex.cap); (Ex.key 7 21%Z 5, Ex.cap)].
Proof.
  apply (flush_asks_only_for_pending _ 7 Ex.params None [5] [Ex.swap; Ex.cap]
           [(20%Z, CloseMarket 0); (21%Z, CloseMarket 0)]).
  - vm_compute. left. reflexivity.
  - right. left. reflexivity.
  - left. reflexivity.
  - left. reflexivity.
Defined.

(** ** The shape of the requests *)

Lemma NoDup_filter {A} (f : A -> bool) (l : list A) : NoDup l -> NoDup (filter f l).
Proof.
  induction 1 as [|x l N ND IH]; simpl; [constructor|].
  destruct (f x); [|exact IH]. constructor; [|exact IH].
  intros I. apply filter_In in I as [I _]. contradiction.
Qed.

Lemma NoDup_map_filter {A B} (h : A -> B) (f : A -> bool) (l : list A) :
  NoDup (map h l) -> NoDup (map h (filter f l)).
Proof.
  induction l as [|x l IH]; simpl; intros ND; [constructor|].
  inversion ND as [|? ? N ND']; subst.
  destruct (f x); simpl; [|now apply IH]. constructor; [|now apply IH].
  intros I. apply N. apply in_map_iff in I as [y [E I]].
  apply filter_In in I as [I _]. rewrite <- E. now apply in_map.
Qed.

Lemma NoDup_map_inj {A B} (h : A -> B) (l : list A) :
  (forall a b, h a = h b -> a = b) -> NoDup l -> NoDup (map h l).
Proof.
  intros Inj. induction 1 as [|x l N ND IH]; simpl; constructor; [|exact IH].
  intros I. apply in_map_iff in I as [y [E I]]. apply Inj in E. now subst.
Qed.

(** No instrument occurs twice under one (parameters, scenario, date,
    market) tuple of the first grouping pass. *)
Lemma for_provider_items_nodup (l : list PendingKey) :
  NoDup (map (fun x : ForProviderItem => (fst x, fst (snd x)))
           (for_provider_items (by_psdm_of l))).
Proof.
  unfold for_provider_items, by_psdm_of. rewrite flat_map_map_in. simpl.
  pose proof (NoDup_dedup (map key_psdm l)) as ND.
  induction (dedup (map key_psdm l)) as [|g gs IH]; simpl; [constructor|].
  inversion ND as [|? ? N ND']; subst.
  rewrite map_app. apply NoDup_app.
  - rewrite map_map. simpl.
    rewrite <- (map_map (fun x : Priceable * list RiskMeasure => fst x) (pair g)).
    apply NoDup_map_inj.
    + intros a b E. now inversion E.
    + change (map (fun x : Priceable * list RiskMeasure => fst x) ?d)
        with (dict_keys d).
      rewrite positions_of_keys. apply NoDup_dedup.
  - now apply IH.
  - intros a Ia Ib. apply in_map_iff in Ia as [x [<- Ix]].
    apply in_map_iff in Ix as [e [<- _]]. simpl in Ib.
    apply in_map_iff in Ib as [y [Ey Iy]].
    apply in_flat_map in Iy as [g' [Ig' Iy]].
    apply in_map_iff in Iy as [e' [<- _]]. simpl in Ey.
    inversion Ey; subst. contradiction.
Qed.

Lemma In_nonempty {A} (x : A) (l : list A) : In x l -> l <> [].
Proof. intros I ->. exact I. Qed.

(** The lists of a request group. *)
Lemma group_shape (l : list PendingKey) prm sc S ps dms :
  In ((prm, sc, S, ps), dms) (groups_of (by_psdm_of l)) ->
  StronglySorted (leb_rel Nat.leb) S /\ NoDup S /\ S <> [] /\
  NoDup ps /\ ps <> [] /\ NoDup dms /\ dms <> [].
Proof.
  intros H. unfold groups_of in H.
  apply In_requests_by_date_market in H as [Ik Ed].
  apply in_map_iff in Ik as [entry [E I]].
  destruct entry as [[[[[prm' sc'] d] mk] S'] ps']. simpl in E.
  inversion E; subst prm' sc' S' ps'. clear E.
  assert (Idm : In (d, mk) dms).
  { rewrite Ed. apply In_dedup. apply in_map_iff.
    exists (prm, sc, d, mk, S, ps). split; [reflexivity|].
    apply filter_In. split; [exact I | apply eqb_same]. }
  pose proof I as I0.
  apply In_requests_for_provider in I as [Ikey Eps].
  apply in_map_iff in Ikey as [x [K Ix]].
  destruct x as [g' [p0 ms]]. unfold for_provider_key in K. simpl in K.
  injection K as Eg H0. subst g'.
  pose proof Ix as Ix0.
  apply In_for_provider_items in Ix as [Ip0 Ems].
  assert (NDms : NoDup ms) by (rewrite Ems; apply NoDup_dedup).
  assert (Ip : In p0 ps).
  { rewrite Eps. apply in_map_iff. exists (prm, sc, d, mk, (p0, ms)).
    split; [reflexivity|]. apply filter_In. split; [exact Ix0|].
    unfold for_provider_key. simpl. rewrite H0. apply eqb_same. }
  repeat split.
  - rewrite <- H0. apply sorted_ordered; [apply nat_leb_total | apply nat_leb_trans].
  - rewrite <- H0. apply (Permutation_NoDup (Permutation_sym (sorted_perm _ _)) NDms).
  - apply in_map_iff in Ip0 as [kp [Ekp Ikp]].
    apply (In_nonempty (key_measure kp)). rewrite <- H0. apply In_sorted.
    rewrite Ems. unfold measures_of. apply In_dedup. apply in_map.
    apply filter_In. split; [exact Ikp|]. rewrite Ekp. apply eqb_same.
  - pose proof (for_provider_items_nodup l) as ND.
    apply (NoDup_map_filter _
             (fun x => eqb (for_provider_key x) (prm, sc, d, mk, S))) in ND.
    rewrite Eps. apply (NoDup_map_inv (pair (prm, sc, d, mk))).
    rewrite map_map.
    erewrite map_ext_in; [exact ND|].
    intros a Ia. apply filter_In in Ia as [_ Ka]. apply eq_of_eqb in Ka.
    destruct a as [ga [pa msa]]. unfold for_provider_key in Ka. simpl in *.
    now inversion Ka.
  - now apply (In_nonempty p0).
  - rewrite Ed. apply NoDup_dedup.
  - now apply (In_nonempty (d, mk)).
Qed.

Lemma In_jobs_of `{MO : MarketOrder} ctx keys (job : Job) r :
  In job (jobs_of ctx keys) -> In r (snd job) ->
  exists g,
    In g (groups_of (by_psdm_of
            (filter (fun kp => eqb (key_provider kp) (fst job)) keys))) /\
    In (fst job) (map key_provider keys) /\
    r = make_request ctx g.
Proof.
  unfold jobs_of, jobs. rewrite requests_by_provider_closed. unfold by_provider_of.
  rewrite map_map. simpl. intros Ij Ir.
  apply in_map_iff in Ij as [v [<- Iv]]. simpl in *.
  unfold build_requests in Ir. apply in_map_iff in Ir as [g [<- Ig]].
  exists g. split; [exact Ig|]. split; [|reflexivity].
  now apply (proj1 (In_dedup _ _)) in Iv.
Qed.

Lemma sorted_by_date_strict (l : list (Date * Market)) :
  StronglySorted (leb_rel date_leb) l -> NoDup (map fst l) ->
  StronglySorted (fun a b => (fst a < fst b)%Z) l.
Proof.
  induction 1 as [|x l S IH F]; intros ND; [constructor|].
  simpl in ND. inversion ND as [|? ? N ND']; subst.
  constructor; [now apply IH|].
  rewrite Forall_forall in *. intros y I.
  pose proof (F y I) as L. unfold leb_rel, date_leb in L. rewrite Z.leb_le in L.
  apply Z.le_neq. split; [exact L|].
  intros E. apply N.
  apply in_map_iff. exists y. split; [symmetry; exact E | exact I].
Qed.

(** X19.  Every request of a flush lists its risk measures in ascending
    order without repeats and names no instrument and no (pricing date,
    market) pair twice; none of the three lists is empty; and when the
    pricing dates of the request are pairwise different, its pairs are in
    ascending order of date, whatever the comparison of markets is. *)
Theorem requests_are_sorted_and_duplicate_free `{MO : MarketOrder}
    (ctx : PricingContext) (keys : list PendingKey) (job : Job)
    (r : RiskRequest) :
  In job (jobs_of ctx keys) ->
  In r (snd job) ->
  let as_of := map (fun a => (asof_pricing_date a, asof_market a))
                 (pricing_and_market_data_as_of r) in
  StronglySorted (leb_rel Nat.leb) (measures r) /\
  NoDup (measures r) /\ measures r <> [] /\
  NoDup (map instrument (positions r)) /\ positions r <> [] /\
  NoDup as_of /\ as_of <> [] /\
  (NoDup (map fst as_of) ->
   StronglySorted (fun a b => (fst a < fst b)%Z) as_of).
Proof.
  intros Ij Ir. destruct (In_jobs_of _ _ _ _ Ij Ir) as (g & Ig & _ & ->).
  destruct g as [[[[prm sc] S] ps] dms].
  apply group_shape in Ig as (G1 & G2 & G3 & G4 & G5 & G6 & G7).
  cbv zeta. unfold make_request. cbn [measures positions pricing_and_market_data_as_of].
  rewrite !map_map. cbn [instrument asof_pricing_date asof_market].
  rewrite map_id.
  assert (Eas : map (fun x : Date * Market => (fst x, snd x))
                  (sorted date_market_lt dms) = sorted date_market_lt dms).
  { erewrite map_ext; [apply map_id|]. now intros []. }
  rewrite Eas.
  repeat split; auto.
  - destruct ps; [contradiction | discriminate].
  - apply (Permutation_NoDup (Permutation_sym (sorted_perm _ _)) G6).
  - destruct dms as [|dm dms]; [contradiction|].
    apply (In_nonempty dm). apply In_sorted. now left.
  - intros ND.
    assert (NDd : NoDup (map fst dms)).
    { eapply Permutation_NoDup; [|exact ND].
      apply Permutation_map, sorted_perm. }
    rewrite (sorted_by_date dms dms G6 NDd) in * by tauto.
    apply sorted_by_date_strict; [|exact ND].
    apply sorted_ordered; [apply date_leb_total | apply date_leb_trans].
Qed.

Lemma requests_are_sorted_and_duplicate_free_witness :
  let r := mkRiskRequest
             [mkRiskPosition Ex.swap 100%Z; mkRiskPosition Ex.cap 50%Z]
             [3; 5] Ex.params true None
             [mkAsOf 20%Z (CloseMarket 0); mkAsOf 21%Z (CloseMarket 0)] false in
  let as_of := map (fun a => (asof_pricing_date a, asof_market a))
                 (pricing_and_market_data_as_of r) in
  StronglySorted (leb_rel Nat.leb) (measures r) /\
  NoDup (measures r) /\ measures r <> [] /\
  NoDup (map instrument (positions r)) /\ positions r <> [] /\
  NoDup as_of /\ as_of <> [] /\
  StronglySorted (fun a b => (fst a < fst b)%Z) as_of.
Proof.
  pose proof (requests_are_sorted_and_duplicate_free (Ex.context false false true [])
           [(Ex.key 7 21%Z 5, Ex.swap); (Ex.key 7 21%Z 3, Ex.swap);
            (Ex.key 7 21%Z 3, Ex.cap); (Ex.key 7 20%Z 5, Ex.swap);
            (Ex.key 7 20%Z 5, Ex.cap); (Ex.key 7 21%Z 5, Ex.cap);
            (Ex.key 7 20%Z 3, Ex.swap); (Ex.key 7 20%Z 3, Ex.cap)]
           (7, [mkRiskRequest
                  [mkRiskPosition Ex.swap 100%Z; mkRiskPosition Ex.cap 50%Z]
                  [3; 5] Ex.params true None
                  [mkAsOf 20%Z (CloseMarket 0); mkAsOf 21%Z (CloseMarket 0)] false])
           (mkRiskRequest
                  [mkRiskPosition Ex.swap 100%Z; mkRiskPosition Ex.cap 50%Z]
                  [3; 5] Ex.params true None
                  [mkAsOf 20%Z (CloseMarket 0); mkAsOf 21%Z (CloseMarket 0)] false))
    as T.
  cbv zeta in T.
  destruct T as (T1 & T2 & T3 & T4 & T5 & T6 & T7 & T8).
  - vm_compute. left. reflexivity.
  - left. reflexivity.
  - repeat split; auto. apply T8.
    repeat constructor; simpl; intuition discriminate.
Defined.

(** X20.  A flush makes one batch per provider, in the order in which the
    providers first occur among the pending keys, and no batch is empty. *)
Theorem one_batch_per_provider `{MO : MarketOrder} (ctx : PricingContext) (keys : list PendingKey) :
  map fst (jobs_of ctx keys) = dedup (map key_provider keys) /\
  NoDup (map fst (jobs_of ctx keys)) /\
  forall job, In job (jobs_of ctx keys) -> snd job <> [].
Proof.
  assert (E : map fst (jobs_of ctx keys) = dedup (map key_provider keys)).
  { unfold jobs_of, jobs. rewrite requests_by_provider_closed. unfold by_provider_of.
    rewrite !map_map. simpl. apply map_id. }
  split; [exact E|]. split; [rewrite E; apply NoDup_dedup|].
  intros job Ij. unfold jobs_of, jobs in Ij.
  rewrite requests_by_provider_closed in Ij. unfold by_provider_of in Ij.
  rewrite map_map in Ij. simpl in Ij.
  apply in_map_iff in Ij as [v [<- Iv]]. simpl.
  apply (proj1 (In_dedup _ _)) in Iv. apply in_map_iff in Iv as [kp [Ev Ik]].
  assert (Il : In kp (filter (fun kp => eqb (key_provider kp) v) keys)).
  { apply filter_In. split; [exact Ik|]. rewrite Ev. apply eqb_same. }
  pose proof (one_group_covers _ kp Il) as L.
  unfold build_requests. fold (groups_of
    (by_psdm_of (filter (fun kp => eqb (key_provider kp) v) keys))).
  destruct (groups_of _) as [|g gs]; [discriminate L | discriminate].
Qed.

(** X21.  Every request of a flush carries the settings of the context that
    flushes, not those of the pending keys: its parameters are that
    context's csa term with raw results on, it waits for results exactly
    when the context is not in batch mode, it has the context's visibility
    flag, and each position carries the quantity its instrument reports. *)
Theorem requests_carry_flushing_context_settings `{MO : MarketOrder} (ctx : PricingContext)
    (keys : list PendingKey) (job : Job) (r : RiskRequest) :
  In job (jobs_of ctx keys) ->
  In r (snd job) ->
  parameters r = mkParams (csa_term ctx) true /\
  wait_for_results r = negb (is_batch ctx) /\
  request_visible_to_gs r = visible_to_gs ctx /\
  Forall (fun pos => quantity pos = get_quantity (instrument pos)) (positions r).
Proof.
  intros Ij Ir. destruct (In_jobs_of _ _ _ _ Ij Ir) as (g & _ & _ & ->).
  destruct g as [[[[prm sc] S] ps] dms]. simpl. repeat split.
  apply Forall_forall. intros pos I. apply in_map_iff in I as [p [<- _]].
  reflexivity.
Qed.

Lemma requests_carry_flushing_context_settings_witness :
  let ctx := mkContext 20%Z None false true false true (Some "EUR-OIS"%string)
               None (CloseMarket 0) [] true in
  let r := mkRiskRequest [mkRiskPosition Ex.swap 100%Z] [5]
             (mkParams (Some "EUR-OIS"%string) true) false None
             [mkAsOf 20%Z (CloseMarket 0)] true in
  parameters r = mkParams (csa_term ctx) true /\
  wait_for_results r = negb (is_batch ctx) /\
  request_visible_to_gs r = visible_to_gs ctx /\
  Forall (fun pos => quantity pos = get_quantity (instrument pos)) (positions r).
Proof.
  apply (requests_carry_flushing_context_settings
           (mkContext 20%Z None false true false true (Some "EUR-OIS"%string)
              None (CloseMarket 0) [] true)
           [(Ex.key 7 20%Z 5, Ex.swap)]
           (7, [mkRiskRequest [mkRiskPosition Ex.swap 100%Z] [5]
                  (mkParams (Some "EUR-OIS"%string) true) false None
                  [mkAsOf 20%Z (CloseMarket 0)] true])).
  - vm_compute. left. reflexivity.
  - left. reflexivity.
Defined.

(** ** Clones *)

Lemma get_ctx_add_old ctx c w :
  c < List.length (contexts w) -> get_ctx c (add_context ctx w) = get_ctx c w.
Proof. intros L. unfold get_ctx, add_context. simpl. now apply app_nth1. Qed.

Lemma get_ctx_add_new ctx w :
  get_ctx (List.length (contexts w)) (add_context ctx w) = ctx.
Proof.
  unfold get_ctx, add_context. simpl.
  rewrite app_nth2 by lia. now rewrite Nat.sub_diag.
Qed.

(** X22.  [clone()] without overrides makes a new context object with the
    configuration of the original, when the location the original holds is
    one [get_enum_value] returns as it is; the clone starts with an empty
    pending map and is not entered, whatever the original has pending, and
    the existing contexts, the futures and the cache are as before. *)
Theorem clone_copies_configuration_not_state (env : Outside) (self : CtxId)
    (w : World) :
  let c := get_ctx self w in
  get_enum_value env (market_data_location c) = market_data_location c ->
  exists w',
    clone env self no_overrides w = Ok (List.length (contexts w)) w' /\
    get_ctx (List.length (contexts w)) w' =
      mkContext (pricing_date c) (market_data_location c) (is_async c)
        (is_batch c) (use_cache c) (visible_to_gs c) (csa_term c)
        (batch_results_timeout c) (market c) [] false /\
    (forall c', c' < List.length (contexts w) -> get_ctx c' w' = get_ctx c' w) /\
    futures w' = futures w /\ cache w' = cache w /\ path w' = path w /\
    log w' = log w.
Proof.
  intros c E. unfold clone, bind, reads, __init__. fold c.
  eexists. split; [reflexivity|]. split.
  - rewrite get_ctx_add_new. simpl. now rewrite E.
  - repeat split. intros c' L. now apply get_ctx_add_old.
Qed.

Lemma clone_copies_configuration_not_state_witness :
  let env := mkOutside 25%Z (fun x => x) 0 in
  let w := Ex.world [Ex.context true true true [((Ex.key 7 20%Z 5, Ex.swap), 0)]]
             [0] [] [None] in
  exists w',
    clone env 0 no_overrides w = Ok 1 w' /\
    get_ctx 1 w' =
      mkContext 20%Z None true false true false None None (CloseMarket 0) [] false /\
    (forall c', c' < 1 -> get_ctx c' w' = get_ctx c' w) /\
    futures w' = futures w /\ cache w' = cache w /\ path w' = path w /\
    log w' = log w.
Proof.
  apply (clone_copies_configuration_not_state (mkOutside 25%Z (fun x => x) 0) 0
           (Ex.world [Ex.context true true true [((Ex.key 7 20%Z 5, Ex.swap), 0)]]
              [0] [] [None])).
  reflexivity.
Defined.

(** X23.  An override of [clone] replaces the original's value before
    [__init__] applies its defaults: [clone(pricing_date=None)] gets the
    current business day and [clone(market=None)] a close market, not the
    date and market of the original, while an override with a value is
    taken as given and a parameter that is not overridden keeps the
    original's value. *)
Theorem clone_override_precedes_defaults (env : Outside) (self : CtxId)
    (kwargs : Overrides) (w : World) :
  let c := get_ctx self w in
  exists w',
    clone env self kwargs w = Ok (List.length (contexts w)) w' /\
    let c' := get_ctx (List.length (contexts w)) w' in
    pricing_date c' =
      match o_pricing_date kwargs with
      | None => pricing_date c
      | Some None => business_day_today env
      | Some (Some d) => d
      end /\
    market c' =
      match o_market kwargs with
      | None => market c
      | Some None => CloseMarket (close_market_location env)
      | Some (Some m) => m
      end /\
    csa_term c' = or_else (o_csa_term kwargs) (csa_term c) /\
    is_async c' = or_else (o_is_async kwargs) (is_async c) /\
    is_batch c' = or_else (o_is_batch kwargs) (is_batch c) /\
    use_cache c' = or_else (o_use_cache kwargs) (use_cache c) /\
    visible_to_gs c' = or_else (o_visible_to_gs kwargs) (visible_to_gs c) /\
    batch_results_timeout c' =
      or_else (o_batch_results_timeout kwargs) (batch_results_timeout c) /\
    pending c' = [] /\ is_entered c' = false.
Proof.
  intros c. unfold clone, bind, reads, __init__. fold c.
  eexists. split; [reflexivity|]. cbv zeta. rewrite get_ctx_add_new.
  destruct kwargs as [opd oml oa ob ouc ov ocsa ot om]. simpl.
  repeat split.
  - now destruct opd as [[d|]|].
  - now destruct om as [[m|]|].
Qed.

(** ** A repeated call on a caching context *)

Lemma resolved_with_stable c rm w w' self m prov :
  resolved_with c rm w w' ->
  active_context self w' = active_context self w /\
  __risk_key self m prov w' = __risk_key self m prov w /\
  (forall c0, is_entered (get_ctx c0 w') = is_entered (get_ctx c0 w) /\
              is_async (get_ctx c0 w') = is_async (get_ctx c0 w) /\
              use_cache (get_ctx c0 w') = use_cache (get_ctx c0 w)).
Proof.
  intros (_ & _ & _ & Ro & [pend Rc] & _ & _ & Rp & _ & Rs).
  assert (Cfg : forall c0, exists P', get_ctx c0 w' = with_pending P' (get_ctx c0 w)).
  { intros c0. destruct (eq_dec c0 c) as [->|N].
    - now exists pend.
    - exists (pending (get_ctx c0 w)). rewrite Ro by exact N.
      now rewrite with_pending_same. }
  split; [|split].
  - unfold active_context. rewrite Rp.
    rewrite (find_pointwise (fun c0 => is_entered (get_ctx c0 w'))
               (fun c0 => is_entered (get_ctx c0 w))); [reflexivity|].
    intros c0. destruct (Cfg c0) as [P' ->]. reflexivity.
  - unfold __risk_key, __scenario. rewrite Rs.
    destruct (Cfg self) as [P' ->]. reflexivity.
  - intros c0. destruct (Cfg c0) as [P' ->]. auto.
Qed.

(** X24.  On a synchronous caching context that is not entered, a call to
    [calc] that the provider answers with a value the cache accepts returns
    a future holding the value and leaves the value in the cache; the same
    call made again returns a new future holding that value, and this time
    no request is sent: the log grows by the two lock rounds only. *)
Theorem second_sync_calc_is_served_from_cache `{MO : MarketOrder} (srv : Session) (sched : list nat)
    (C : CtxId) (p : Priceable) (m : RiskMeasure) (w : World) (v : Value) :
  let ctx := get_ctx C w in
  let k := __risk_key C m (provider p) w in
  let f := List.length (futures w) in
  C < List.length (contexts w) ->
  active_context C w = C ->
  is_entered ctx = false ->
  is_async ctx = false ->
  use_cache ctx = true ->
  pending ctx = [] ->
  PricingCache.get k p (cache w) = None ->
  try_block srv ctx
    (build_requests ctx
       [((rk_params k, rk_scenario k, rk_date k, rk_market k), [(p, [m])])])
    (provider p) = Returned [[((k, p), v)]] ->
  is_ErrorValue v = false ->
  is_LiveMarket (market ctx) = false ->
  exists w1,
    calc srv sched C p m w = Ok f w1 /\
    future_value f w1 = Some v /\
    PricingCache.get k p (cache w1) = Some v /\
    exists w2,
      calc srv sched C p m w1 = Ok (S f) w2 /\
      future_value (S f) w2 = Some v /\
      log w2 = log w1 ++ [Acquire C; Release C; Acquire C; Release C].
Proof.
  intros ctx k f HC Hact He Ha Hu Hp Hget T Ev Lv.
  set (bp := [((rk_params k, rk_scenario k, rk_date k, rk_market k), [(p, [m])])])
    in *.
  assert (WF : pending_wf C w).
  { unfold pending_wf. fold ctx. rewrite Hp. repeat split; auto; try constructor.
    intros f0 []. }
  rewrite calc_sync_eq by assumption.
  pose proof (calc_locked_registers C p m w) as Reg. cbv zeta in Reg.
  rewrite Hact in Reg. fold ctx k f in Reg.
  destruct Reg as (wa & Ea & WFa & Eca & Eoth & Efut & Ecache & Elog);
    [exact WF | now rewrite Hp | now right |].
  rewrite Ea. rewrite Hp in Eca. simpl in Eca.
  pose proof (calc_locked_stable _ _ _ _ _ _ Ea) as (Sa1 & Sa2 & Sa3 & Sa4 & Sa5).
  fold ctx k in Sa2, Sa3, Sa4, Sa5.
  assert (Epa : pending (get_ctx C wa) = [((k, p), f)]) by now rewrite Eca.
  destruct (caching_flush_single srv sched C wa (provider p) bp [[((k, p), v)]])
    as (w1 & E1 & Ec1 & Ef1 & RW & L1).
  - exact WFa.
  - congruence.
  - congruence.
  - rewrite Epa. apply (requests_by_provider_single k p).
  - rewrite dispatch_eq. simpl.
    rewrite (try_block_config srv (get_ctx C wa) _ ctx _ _ Eca).
    rewrite Eca. 
    change (build_requests (with_pending [((k, p), f)] ctx) bp)
      with (build_requests ctx bp).
    now rewrite T.
  - simpl. repeat constructor. intros [].
  - rewrite Epa. simpl. intros k0 [<-|[]]. now left.
  - rewrite E1. exists w1. split; [reflexivity|].
    assert (Ecw1 : cache w1 = PricingCache.put k p v (cache w)).
    { rewrite Ec1, Ecache. reflexivity. }
    assert (G1 : PricingCache.get k p (cache w1) = Some v).
    { rewrite Ecw1. now apply get_put_same. }
    split.
    { rewrite (Ef1 (k, p) f) by (rewrite Epa; apply dict_get_singleton).
      exact (dict_get_singleton ((k, p) : PendingKey) v). }
    split; [exact G1|].
    pose proof (resolved_with_stable _ _ _ _ C m (provider p) RW)
      as (Sb1 & Sb2 & Sb3).
    destruct (Sb3 C) as (Sb4 & Sb5 & Sb6).
    assert (Ep1 : pending (get_ctx C w1) = []).
    { apply dict_get_all_None. intros k0.
      destruct RW as (R1 & _). rewrite R1, Epa. unfold dict_mem. simpl.
      now destruct (eq_dec k0 (k, p)). }
    assert (Elen : List.length (futures w1) = S f).
    { destruct RW as (_ & _ & _ & _ & _ & R6 & _). rewrite R6, Efut.
      rewrite length_app. simpl. unfold f. lia. }
    rewrite calc_sync_eq by congruence.
    rewrite calc_locked_eq. rewrite Sb1, Sa1, Hact, Sb2, Sa2, Ep1.
    cbn [dict_get]. rewrite Sb6, Sa5, Hu, G1, Elen.
    rewrite flush_nothing_pending by exact Ep1.
    clearbody f.
    eexists. split; [reflexivity|]. split.
    + assert (Efw : forall x, x = futures w1 ++ [Some v] ->
                               nth_error x (S f) = Some (Some v)).
      { intros x ->. rewrite <- Elen. apply nth_error_app_last. }
      unfold future_value. now erewrite Efw by reflexivity.
    + simpl. now rewrite <- !app_assoc.
Qed.

Lemma second_sync_calc_is_served_from_cache_witness :
  let w := Ex.world [Ex.context false true false []] [] [] [] in
  exists w1,
    calc Ex.srv_ok [] 0 Ex.swap 5 w = Ok 0 w1 /\
    future_value 0 w1 = Some (FloatWithInfo 42) /\
    PricingCache.get (__risk_key 0 5 (provider Ex.swap) w) Ex.swap (cache w1)
      = Some (FloatWithInfo 42) /\
    exists w2,
      calc Ex.srv_ok [] 0 Ex.swap 5 w1 = Ok 1 w2 /\
      future_value 1 w2 = Some (FloatWithInfo 42) /\
      log w2 = log w1 ++ [Acquire 0; Release 0; Acquire 0; Release 0].
Proof.
  apply (second_sync_calc_is_served_from_cache Ex.srv_ok [] 0 Ex.swap 5
           (Ex.world [Ex.context false true false []] [] [] [])
           (FloatWithInfo 42)); try reflexivity.
  simpl. lia.
Defined.

(** ** A pooled flush in which every provider answers *)

Lemma In_values_get {K V} `{EqDec K} (v : V) (d : dict K V) :
  NoDup (dict_keys d) -> In v (dict_values d) -> exists k, dict_get k d = Some v.
Proof.
  intros ND I. unfold dict_values in I. apply in_map_iff in I as [[k v'] [E I]].
  simpl in E. subst v'. exists k. now apply In_dict_get.
Qed.

Lemma get_in_keys {K V} `{EqDec K} (k : K) (d d' : dict K V) :
  dict_get k d = dict_get k d' -> In k (dict_keys d') -> In k (dict_keys d).
Proof.
  intros E I. apply dict_mem_true in I. apply dict_mem_true.
  unfold dict_mem in *. now rewrite E.
Qed.

Section PoolOk.
Variables (srv : Session) (c : CtxId) (ctx0 : PricingContext)
          (P0 : dict PendingKey FutureId) (js : list Job).
Hypothesis answers : forall j, In j js ->
  (exists results, try_block srv ctx0 (snd j) (fst j) = Returned results) /\
  NoDup (dict_keys (answer srv ctx0 j)) /\
  forall k, In k (dict_keys (answer srv ctx0 j)) ->
            In k (dict_keys P0) /\ rk_provider (fst k) = fst j.
Hypothesis providers_differ : NoDup (map fst js).
Hypothesis futures_differ : NoDup (dict_values P0).

Lemma answers_disjoint i i' j j' k :
  nth_error js i = Some j -> nth_error js i' = Some j' -> i <> i' ->
  In k (dict_keys (answer srv ctx0 j)) -> ~ In k (dict_keys (answer srv ctx0 j')).
Proof.
  intros Ej Ej' N I I'.
  apply (answers j (nth_error_In _ _ Ej)) in I as [_ E].
  apply (answers j' (nth_error_In _ _ Ej')) in I' as [_ E'].
  apply N. apply (proj1 (NoDup_nth_error (map fst js)) providers_differ).
  - rewrite length_map. now apply nth_error_lt in Ej.
  - pose proof (map_nth_error fst _ _ Ej) as M1.
    pose proof (map_nth_error fst _ _ Ej') as M2.
    etransitivity; [exact M1|]. symmetry. etransitivity; [exact M2|].
    congruence.
Qed.

Lemma worker_step_ok pool w i wk :
  pool_ok srv c ctx0 P0 js pool w ->
  nth_error pool i = Some wk ->
  pool_ok srv c ctx0 P0 js
    (list_update i (fun _ => fst (worker_step srv wk w)) pool)
    (snd (worker_step srv wk w)).
Proof.
  intros (WF & [P EP] & Sub & Len & Tasks) Ei.
  assert (Ej : exists j, nth_error js i = Some j).
  { destruct (nth_error js i) as [j|] eqn:E; [now exists j|].
    apply nth_error_None in E. apply nth_error_lt in Ei. lia. }
  destruct Ej as [j Ej].
  pose proof (Tasks i j wk Ej Ei) as (Es & Ep & Er & Ph).
  destruct (answers j (nth_error_In _ _ Ej)) as ([rs T] & NDj & Hk).
  assert (Ea : answer srv ctx0 j = List.concat rs) by (unfold answer; now rewrite T).
  unfold worker_step. destruct (wk_phase wk) as [|results|r] eqn:Eph.
  - rewrite dispatch_eq. cbn [fst snd].
    rewrite Es, Ep, Er, (try_block_config srv _ P ctx0 _ _ EP), T.
    split; [revert WF; now apply pending_wf_same|].
    split; [now exists P|]. split; [exact Sub|].
    split; [now rewrite length_list_update|].
    intros i' j' wk' Ej' Ei'. destruct (Nat.eq_dec i i') as [<-|N].
    + rewrite (nth_error_list_update_eq _ _ _ _ Ei) in Ei'.
      injection Ei' as <-. assert (j' = j) by congruence. subst j'.
      unfold task_ok. cbn [with_phase wk_self wk_provider wk_requests wk_phase].
      repeat split; auto.
    + rewrite nth_error_list_update_neq in Ei' by exact N.
      exact (Tasks i' j' wk' Ej' Ei').
  - destruct Ph as [Ers Hpend]. rewrite Es.
    destruct (resolve_ok c results w WF) as (w' & E & WF' & RW & L).
    { now rewrite Ers. }
    { intros k I. rewrite Ers in I.
      apply (get_in_keys k _ P0); [now apply Hpend | now apply Hk]. }
    rewrite E. cbn [fst snd].
    destruct RW as (R1 & R2 & R3 & R4 & [pend R5] & R6 & R7 & R8 & R9 & R10).
    split; [exact WF'|].
    split; [exists pend; rewrite R5, EP; reflexivity|].
    split.
    { intros k f G. rewrite R1 in G.
      destruct (dict_mem k (List.concat results)); [discriminate | now apply Sub]. }
    split; [now rewrite length_list_update|].
    intros i' j' wk' Ej' Ei'. destruct (Nat.eq_dec i i') as [<-|N].
    + rewrite (nth_error_list_update_eq _ _ _ _ Ei) in Ei'.
      injection Ei' as <-. assert (j' = j) by congruence. subst j'.
      unfold task_ok. cbn [with_phase wk_self wk_provider wk_requests wk_phase].
      repeat split; auto.
      * rewrite <- Ers. apply R2. now rewrite Hpend.
      * rewrite R1.
        assert (M : dict_mem k (List.concat results) = true)
          by (apply dict_mem_true; now rewrite Ers).
        now rewrite M.
    + rewrite nth_error_list_update_neq in Ei' by exact N.
      pose proof (Tasks i' j' wk' Ej' Ei') as (Es' & Ep' & Er' & Ph').
      assert (Other : forall k, In k (dict_keys (answer srv ctx0 j')) ->
                                dict_mem k (List.concat results) = false).
      { intros k I. destruct (dict_mem k (List.concat results)) eqn:M; [|reflexivity].
        apply dict_mem_true in M. rewrite Ers in M.
        exfalso. now apply (answers_disjoint i i' j j' k Ej Ej' N M). }
      unfold task_ok. repeat split; auto.
      destruct (wk_phase wk') as [|results'|r'].
      * intros k I. rewrite R1, (Other k I). now apply Ph'.
      * destruct Ph' as [Ers' Hp']. split; [exact Ers'|].
        intros k I. rewrite R1, (Other k I). now apply Hp'.
      * destruct Ph' as [Er0 Hf]. split; [exact Er0|].
        intros k f I G. destruct (Hf k f I G) as [Fv Np]. split.
        -- unfold future_value in *. rewrite R3; [exact Fv|].
           intros If. destruct WF as (_ & NDk & _).
           apply In_values_get in If as [k' Gk']; [|exact NDk].
           pose proof (Sub _ _ Gk') as G0.
           assert (k' = k) by (eapply dict_get_inj; eauto). subst k'.
           congruence.
        -- rewrite R1. now destruct (dict_mem k (List.concat results)).
  - cbn [fst snd].
    split; [exact WF|]. split; [now exists P|]. split; [exact Sub|].
    split; [now rewrite length_list_update|].
    intros i' j' wk' Ej' Ei'. destruct (Nat.eq_dec i i') as [<-|N].
    + rewrite (nth_error_list_update_eq _ _ _ _ Ei) in Ei'.
      injection Ei' as <-. assert (j' = j) by congruence. subst j'.
      exact (Tasks i j wk Ej Ei).
    + rewrite nth_error_list_update_neq in Ei' by exact N.
      exact (Tasks i' j' wk' Ej' Ei').
Qed.

Lemma pool_steps_ok sched :
  forall pool w,
    pool_ok srv c ctx0 P0 js pool w ->
    pool_ok srv c ctx0 P0 js (fst (pool_steps srv sched pool w))
      (snd (pool_steps srv sched pool w)).
Proof.
  induction sched as [|i sched IH]; intros pool w I; simpl; [exact I|].
  destruct (nth_error pool i) as [wk|] eqn:E; [|now apply IH].
  pose proof (worker_step_ok pool w i wk I E) as I1.
  destruct (worker_step srv wk w) as [wk' w']. now apply IH.
Qed.

End PoolOk.

(** [shutdown(wait=True)] returns with every task at its end. *)
Lemma pool_steps_app srv s1 s2 :
  forall pool w,
    pool_steps srv (s1 ++ s2) pool w =
    pool_steps srv s2 (fst (pool_steps srv s1 pool w))
      (snd (pool_steps srv s1 pool w)).
Proof.
  induction s1 as [|i s1 IH]; intros pool w; simpl; [reflexivity|].
  destruct (nth_error pool i) as [wk|]; [|apply IH].
  destruct (worker_step srv wk w) as [wk' w']. apply IH.
Qed.

Lemma pool_steps_length srv sched :
  forall pool w,
    List.length (fst (pool_steps srv sched pool w)) = List.length pool.
Proof.
  induction sched as [|i sched IH]; intros pool w; simpl; [reflexivity|].
  destruct (nth_error pool i) as [wk|]; [|apply IH].
  destruct (worker_step srv wk w) as [wk' w'].
  rewrite IH. apply length_list_update.
Qed.

Lemma pool_steps_keeps_finished srv sched :
  forall pool w i wk r,
    nth_error pool i = Some wk -> wk_phase wk = Finished r ->
    exists wk' r',
      nth_error (fst (pool_steps srv sched pool w)) i = Some wk' /\
      wk_phase wk' = Finished r'.
Proof.
  induction sched as [|i0 sched IH]; intros pool w i wk r Ei Ph; simpl.
  { now exists wk, r. }
  destruct (nth_error pool i0) as [wk0|] eqn:E0; [|now apply (IH pool w i wk r)].
  destruct (worker_step srv wk0 w) as [wk0' w'] eqn:Es.
  destruct (Nat.eq_dec i0 i) as [->|N].
  - assert (wk0 = wk) by congruence. subst wk0.
    unfold worker_step in Es. rewrite Ph in Es. injection Es as <- <-.
    apply (IH _ w i wk r); [|exact Ph].
    exact (nth_error_list_update_eq i (fun _ => wk) pool wk Ei).
  - apply (IH _ w' i wk r); [|exact Ph].
    now rewrite nth_error_list_update_neq.
Qed.

Lemma two_steps_finish srv pool w i wk :
  nth_error pool i = Some wk ->
  exists wk' r,
    nth_error (fst (pool_steps srv [i; i] pool w)) i = Some wk' /\
    wk_phase wk' = Finished r.
Proof.
  intros Ei. simpl. rewrite Ei.
  destruct (worker_step srv wk w) as [wk1 w1] eqn:E1.
  rewrite (nth_error_list_update_eq _ _ _ _ Ei).
  destruct (worker_step srv wk1 w1) as [wk2 w2] eqn:E2. simpl.
  exists wk2.
  assert (F : exists r, wk_phase wk2 = Finished r).
  { unfold worker_step in E1, E2. destruct (wk_phase wk) as [|results|r] eqn:Ph.
    - destruct (dispatch srv (wk_self wk) (wk_requests wk) (wk_provider wk) w)
        as [results w0]. injection E1 as <- <-. simpl in E2.
      destruct (resolve (wk_self wk) results w0); injection E2 as <- <-;
        eexists; reflexivity.
    - destruct (resolve (wk_self wk) results w); injection E1 as <- <-;
        simpl in E2; injection E2 as <- <-; eexists; reflexivity.
    - injection E1 as <- <-. rewrite Ph in E2. injection E2 as <- <-.
      now exists r. }
  destruct F as [r F]. exists r. split; [|exact F].
  apply (nth_error_list_update_eq i (fun _ => wk2) _ wk1).
  exact (nth_error_list_update_eq i (fun _ => wk1) pool wk Ei).
Qed.

Lemma tail_finishes srv n :
  forall a pool w i,
    a <= i < a + n -> i < List.length pool ->
    exists wk r,
      nth_error (fst (pool_steps srv (flat_map (fun i => [i; i]) (seq a n)) pool w)) i
        = Some wk /\
      wk_phase wk = Finished r.
Proof.
  induction n as [|n IH]; intros a pool w i R L; [lia|].
  change (flat_map (fun i => [i; i]) (seq a (S n)))
    with ([a; a] ++ flat_map (fun i => [i; i]) (seq (S a) n)).
  rewrite pool_steps_app.
  destruct (Nat.eq_dec i a) as [->|N].
  - destruct (nth_error pool a) as [wk|] eqn:E.
    2:{ apply nth_error_None in E. lia. }
    destruct (two_steps_finish srv pool w a wk E) as (wk' & r & E' & Ph).
    now apply (pool_steps_keeps_finished srv _ _ _ a wk' r).
  - apply IH; [lia|]. now rewrite pool_steps_length.
Qed.

Lemma pool_join_all_finished srv sched pool w i wk :
  nth_error (fst (pool_join srv sched pool w)) i = Some wk ->
  exists r, wk_phase wk = Finished r.
Proof.
  unfold pool_join. rewrite pool_steps_app. intros E.
  pose proof (nth_error_lt _ _ _ E) as L.
  rewrite !pool_steps_length in L.
  destruct (tail_finishes srv (List.length pool) 0
              (fst (pool_steps srv sched pool w))
              (snd (pool_steps srv sched pool w)) i) as (wk' & r & E' & Ph).
  - lia.
  - now rewrite pool_steps_length.
  - exists r. congruence.
Qed.

Lemma jobs_of_providers `{MO : MarketOrder} ctx keys :
  map fst (jobs_of ctx keys) = dedup (map key_provider keys).
Proof.
  unfold jobs_of, jobs. rewrite requests_by_provider_closed. unfold by_provider_of.
  rewrite !map_map. simpl. apply map_id.
Qed.

Lemma job_of_key `{MO : MarketOrder} ctx keys (k : PendingKey) :
  In k keys -> exists j, In j (jobs_of ctx keys) /\ fst j = key_provider k.
Proof.
  intros I.
  assert (Iv : In (key_provider k) (map fst (jobs_of ctx keys))).
  { rewrite jobs_of_providers. apply In_dedup. now apply in_map. }
  apply in_map_iff in Iv as [j [E Ij]]. now exists j.
Qed.

(** X25.  A synchronous flush in which every provider answers its batch
    with exactly the pending pairs of that provider resolves every pending
    future with the value its provider returned and leaves the pending map
    empty, with one provider or with several, and in whatever order the
    pooled tasks take their steps. *)
Theorem sync_flush_resolves_in_any_order `{MO : MarketOrder} (srv : Session) (sched : list nat)
    (c : CtxId) (w : World) :
  let ctx := get_ctx c w in
  let P := pending ctx in
  let js := jobs_of ctx (dict_keys P) in
  pending_wf c w ->
  is_async ctx = false ->
  (forall j, In j js ->
     (exists results, try_block srv ctx (snd j) (fst j) = Returned results) /\
     NoDup (dict_keys (answer srv ctx j)) /\
     forall k, In k (dict_keys (answer srv ctx j)) <->
               In k (dict_keys P) /\ rk_provider (fst k) = fst j) ->
  exists w',
    __calc srv sched c w = Ok tt w' /\
    pending (get_ctx c w') = [] /\
    forall k f j,
      dict_get k P = Some f -> In j js -> fst j = rk_provider (fst k) ->
      future_value f w' = dict_get k (answer srv ctx j) /\ done f w' = true.
Proof.
  intros ctx P js WF Ha Hans.
  assert (Answered : forall k f j,
            dict_get k P = Some f -> In j js -> fst j = rk_provider (fst k) ->
            In k (dict_keys (answer srv ctx j))).
  { intros k f j G Ij Ev. apply (Hans j Ij). split; [|now rewrite Ev].
    now apply dict_get_Some_in in G. }
  assert (Value : forall k f j w',
            dict_get k P = Some f -> In j js -> fst j = rk_provider (fst k) ->
            future_value f w' = dict_get k (answer srv ctx j) ->
            done f w' = true).
  { intros k f j w' G Ij Ev Fv.
    pose proof (Answered k f j G Ij Ev) as I. apply dict_mem_true in I.
    unfold dict_mem in I.
    destruct (dict_get k (answer srv ctx j)) as [v|] eqn:D; [|discriminate].
    now apply (done_of_value f w' v). }
  unfold __calc, bind. rewrite snapshot_eq.
  set (w1 := emit (Release c) (emit (Acquire c) w)).
  assert (WF1 : pending_wf c w1) by (revert WF; now apply pending_wf_same).
  fold ctx. fold P.
  assert (Ejs : js = jobs ctx (requests_by_provider (dict_keys P))) by reflexivity.
  destruct (requests_by_provider (dict_keys P)) as [|[prov bp] [|e2 rbp]] eqn:R.
  - exists w1. split; [reflexivity|].
    assert (None_pending : forall k, dict_get k P = None).
    { intros k. destruct (dict_get k P) as [f|] eqn:G; [|reflexivity].
      apply dict_get_Some_in in G as [I _].
      destruct (job_of_key ctx _ k I) as (j & Ij & _).
      fold js in Ij. rewrite Ejs in Ij. destruct Ij. }
    split; [now apply dict_get_all_None|].
    intros k f j G. now rewrite None_pending in G.
  - rewrite dispatch_all_inline by exact Ha.
    change (get_ctx c w1) with ctx.
    set (j := (prov, build_requests ctx bp) : Job).
    assert (Ij : In j js) by (rewrite Ejs; now left).
    destruct (Hans j Ij) as ([rs T] & ND & Hk).
    assert (Ea : answer srv ctx j = List.concat rs) by (unfold answer; now rewrite T).
    destruct (run_requests_ok srv c (build_requests ctx bp) prov w1 rs)
      as (w2 & E & WF2 & RW & L); auto.
    { rewrite dispatch_eq. cbn [fst]. change (get_ctx c w1) with ctx.
      pose proof T as T'. unfold j in T'. cbn [fst snd] in T'. now rewrite T'. }
    { now rewrite <- Ea. }
    { intros k I. rewrite <- Ea in I. now apply Hk in I. }
    unfold bind. rewrite E. exists w2. split; [reflexivity|].
    destruct RW as (R1 & R2 & _).
    assert (Only : forall k f j', dict_get k P = Some f -> In j' js ->
                                  fst j' = rk_provider (fst k) -> j' = j).
    { intros k f j' _ Ij' _. rewrite Ejs in Ij'. now destruct Ij' as [<-|[]]. }
    split.
    + apply dict_get_all_None. intros k. rewrite R1.
      change (pending (get_ctx c w1)) with P.
      destruct (dict_get k P) as [f|] eqn:G.
      * pose proof G as G'. apply dict_get_Some_in in G' as [I _].
        destruct (job_of_key ctx _ k I) as (j' & Ij' & Ev). fold js in Ij'.
        assert (j' = j) by (eapply Only; eauto). subst j'.
        pose proof (Answered k f j G Ij Ev) as A. rewrite Ea in A.
        apply dict_mem_true in A. now rewrite A.
      * now destruct (dict_mem k (List.concat rs)).
    + intros k f j' G Ij' Ev.
      assert (j' = j) by (eapply Only; eauto). subst j'.
      assert (Fv : future_value f w2 = dict_get k (answer srv ctx j)).
      { rewrite Ea. now apply R2. }
      split; [exact Fv | now apply (Value k f j w2)].
  - unfold dispatch_all, bind, reads.
    change (get_ctx c w1) with ctx. rewrite Ha.
    change (1 <? List.length ((prov, bp) :: e2 :: rbp)) with true.
    cbn [orb]. unfold modify.
    rewrite <- Ejs.
    set (pool := map (fun j : Job => mkWorker c (fst j) (snd j) Submitted) js).
    eexists. split; [reflexivity|].
    assert (I0 : pool_ok srv c ctx P js pool w1).
    { split; [exact WF1|]. split.
      { exists P. change (get_ctx c w1) with ctx. symmetry.
        exact (with_pending_same ctx). }
      split; [auto|]. split; [apply length_map|].
      intros i j wk Ej Ei. unfold pool in Ei.
      rewrite (map_nth_error _ _ _ Ej) in Ei. injection Ei as <-.
      unfold task_ok. simpl. repeat split. }
    assert (If : pool_ok srv c ctx P js (fst (pool_join srv sched pool w1))
                   (snd (pool_join srv sched pool w1))).
    { unfold pool_join. apply pool_steps_ok; [| | |exact I0].
      - intros j Ij. destruct (Hans j Ij) as (T & ND & Hk).
        split; [exact T|]. split; [exact ND|]. intros k I. now apply Hk.
      - unfold js. rewrite jobs_of_providers. apply NoDup_dedup.
      - now destruct WF as (_ & _ & NDv & _). }
    destruct If as (WFf & _ & Subf & Lenf & Tasksf).
    assert (Fin : forall k f j,
              dict_get k P = Some f -> In j js -> fst j = rk_provider (fst k) ->
              future_value f (snd (pool_join srv sched pool w1)) =
                dict_get k (answer srv ctx j) /\
              dict_get k (pending (get_ctx c (snd (pool_join srv sched pool w1))))
                = None).
    { intros k f j G Ij Ev.
      apply In_nth_error in Ij as [i Ej].
      destruct (nth_error (fst (pool_join srv sched pool w1)) i) as [wk|] eqn:Ei.
      2:{ apply nth_error_None in Ei. apply nth_error_lt in Ej. lia. }
      destruct (pool_join_all_finished srv sched pool w1 i wk Ei) as [r Ph].
      pose proof (Tasksf i j wk Ej Ei) as (_ & _ & _ & T).
      rewrite Ph in T. destruct T as [_ T]. apply T; [|exact G].
      apply (Answered k f j G (nth_error_In _ _ Ej) Ev). }
    split.
    + apply dict_get_all_None. intros k.
      destruct (dict_get k (pending (get_ctx c (snd (pool_join srv sched pool w1)))))
        as [f|] eqn:G; [|exact G].
      pose proof (Subf k f G) as G0. pose proof G0 as G1.
      apply dict_get_Some_in in G1 as [I _].
      destruct (job_of_key ctx _ k I) as (j & Ij & Ev). fold js in Ij.
      destruct (Fin k f j G0 Ij Ev) as [_ N]. congruence.
    + intros k f j G Ij Ev. destruct (Fin k f j G Ij Ev) as [Fv _].
      split; [exact Fv | now apply (Value k f j _ G Ij Ev)].
Qed.

Lemma sync_flush_resolves_in_any_order_witness :
  let w := Ex.world [Ex.context false false true
                       [((Ex.key 7 20%Z 5, Ex.swap), 0);
                        ((Ex.key 8 20%Z 5, Ex.bond), 1)]] [0] [] [None; None] in
  exists w',
    __calc Ex.srv_ok [1; 0; 1; 0] 0 w = Ok tt w' /\
    pending (get_ctx 0 w') = [] /\
    forall k f j,
      dict_get k (pending (get_ctx 0 w)) = Some f ->
      In j (jobs_of (get_ctx 0 w) (dict_keys (pending (get_ctx 0 w)))) ->
      fst j = rk_provider (fst k) ->
      future_value f w' = dict_get k (answer Ex.srv_ok (get_ctx 0 w) j) /\
      done f w' = true.
Proof.
  apply (sync_flush_resolves_in_any_order Ex.srv_ok [1; 0; 1; 0] 0
           (Ex.world [Ex.context false false true
                        [((Ex.key 7 20%Z 5, Ex.swap), 0);
                         ((Ex.key 8 20%Z 5, Ex.bond), 1)]] [0] [] [None; None])).
  - unfold pending_wf. simpl. repeat split.
    + lia.
    + repeat constructor; simpl; intuition discriminate.
    + repeat constructor; simpl; intuition discriminate.
    + intros f [<-|[<-|[]]]; reflexivity.
  - reflexivity.
  - intros j [<-|[<-|[]]].
    + split; [eexists; reflexivity|]. split.
      * repeat constructor. intros [].
      * intros k. split.
        -- intros [<-|[]]. split; [now left | reflexivity].
        -- intros [[<-|[<-|[]]] E]; [now left | discriminate E].
    + split; [eexists; reflexivity|]. split.
      * repeat constructor. intros [].
      * intros k. split.
        -- intros [<-|[]]. split; [right; now left | reflexivity].
        -- intros [[<-|[<-|[]]] E]; [discriminate E | now left].
Defined.

(** ** The interleavings of two pooled tasks *)











(** ** Two providers, one of which raises *)






Section TwoTasks.
Variables (srv : Session) (c : CtxId) (w0 : World) (ctx : PricingContext)
          (P : dict PendingKey FutureId) (A B : Provider)
          (reqsA reqsB : list RiskRequest) (e : Exn) (results : list ResultMap).
Hypothesis Ectx : get_ctx c w0 = ctx.
Hypothesis EP : pending ctx = P.
Hypothesis WF0 : pending_wf c w0.
Hypothesis TA : try_block srv ctx reqsA A = Raised e.
Hypothesis TB : try_block srv ctx reqsB B = Returned results.
Hypothesis ND : NoDup (dict_keys (List.concat results)).
Hypothesis Hkeys : forall k, In k (dict_keys (List.concat results)) <->
                             In k (dict_keys P) /\ rk_provider (fst k) = B.












Lemma all_failed_config rs w :
  all_failed c P e w -> (exists P', get_ctx c w = with_pending P' ctx) ->
  exists P', get_ctx c (res_world (resolve c rs w)) = with_pending P' ctx.
Proof.
  intros [Ep _] Cfg. destruct (resolve_nothing_pending c rs w Ep) as [_ Fc].
  unfold get_ctx in *. now rewrite Fc.
Qed.







Lemma same_objects_emit ev w : same_objects w0 w -> same_objects w0 (emit ev w).
Proof. intros S. exact S. Qed.


End TwoTasks.





(** With [bond] registered before [swap], provider 8's results applied
    between provider 7's failing call and its [finally] block leave the
    future of [swap] pending and unresolved when the flush returns. *)
Lemma partial_failure_can_strand_a_future :
  let w := Ex.world [Ex.context false false true
                       [((Ex.key 8 20%Z 5, Ex.bond), 0);
                        ((Ex.key 7 20%Z 5, Ex.swap), 1)]] [0] [] [None; None] in
  exists w', __calc Ex.srv_7_down [1; 0; 0; 1] 0 w = Ok tt w' /\
             future_value 0 w' = Some (FloatWithInfo 42) /\
             done 1 w' = false /\
             pending (get_ctx 0 w') = [((Ex.key 7 20%Z 5, Ex.swap), 1)].
Proof. eexists. vm_compute. repeat split; reflexivity. Qed.

(** ** What a flush sends *)

Lemma resolve_item_log c item w :
  log (res_world (resolve_item c item w)) = log w.
Proof.
  destruct item as [[rk p] v].
  unfold resolve_item, bind, reads, modify, ret, pending_pop, set_result.
  destruct (use_cache (get_ctx c w)).
  - change (get_ctx c (set_cache ?cs w)) with (get_ctx c w).
    destruct (dict_get _ _) as [f|]; [|reflexivity].
    simpl. now destruct (nth_error (futures w) f) as [[?|]|].
  - destruct (dict_get _ _) as [f|]; [|reflexivity].
    simpl. now destruct (nth_error (futures w) f) as [[?|]|].
Qed.

(** The [finally] block takes the lock once and calls no provider. *)
Lemma resolve_log c results w :
  log (res_world (resolve c results w)) = log w ++ [Acquire c; Release c].
Proof.
  unfold resolve, with_lock, bind, modify, finally.
  pose proof (for_each_invariant (fun w' => log w' = log w ++ [Acquire c])
                (for_each (resolve_item c)) results
                (fun rm w0 => for_each_invariant
                                (fun w' => log w' = log w ++ [Acquire c])
                                (resolve_item c) rm
                                (fun x w1 I => eq_trans (resolve_item_log c x w1) I)
                                w0)
                (emit (Acquire c) w) eq_refl) as T.
  destruct (for_each (for_each (resolve_item c)) results (emit (Acquire c) w));
    simpl in *; rewrite T; now rewrite <- app_assoc.
Qed.

Lemma worker_step_log srv wk w :
  let r := worker_step srv wk w in
  incl (log w) (log (snd r)) /\
  wk_provider (fst r) = wk_provider wk /\
  wk_requests (fst r) = wk_requests wk /\
  (wk_phase wk = Submitted ->
   In (CalcMulti (wk_provider wk) (wk_requests wk)) (log (snd r))).
Proof.
  unfold worker_step. destruct (wk_phase wk) as [|results|r] eqn:Ph.
  - rewrite dispatch_eq. simpl. repeat split.
    + intros x I. apply in_or_app. now left.
    + intros _. apply in_or_app. right. now left.
  - pose proof (resolve_log (wk_self wk) results w) as L.
    destruct (resolve (wk_self wk) results w); simpl in *;
      (repeat split; [rewrite L; intros x I; apply in_or_app; now left
                     | discriminate]).
  - simpl. repeat split; [apply incl_refl | discriminate].
Qed.

(** A task that has left [Submitted] has made its provider call. *)
Lemma pool_steps_sent srv i ev sched :
  forall pool w,
    (forall wk, nth_error pool i = Some wk ->
       (wk_phase wk = Submitted /\
        CalcMulti (wk_provider wk) (wk_requests wk) = ev) \/
       In ev (log w)) ->
    forall wk, nth_error (fst (pool_steps srv sched pool w)) i = Some wk ->
      (wk_phase wk = Submitted /\
       CalcMulti (wk_provider wk) (wk_requests wk) = ev) \/
      In ev (log (snd (pool_steps srv sched pool w))).
Proof.
  induction sched as [|j sched IH]; intros pool w Inv; [exact Inv|].
  cbn [pool_steps].
  destruct (nth_error pool j) as [wkj|] eqn:Ej; [|now apply IH].
  pose proof (worker_step_log srv wkj w) as (Li & Pv & Rq & Sent).
  destruct (worker_step srv wkj w) as [wk' w'] eqn:Es. cbn [fst snd] in *.
  apply IH. intros wk E.
  destruct (Nat.eq_dec j i) as [->|N].
  - right. destruct (Inv wkj Ej) as [[Ph Eev]|I].
    + rewrite <- Eev. now apply Sent.
    + now apply Li.
  - rewrite nth_error_list_update_neq in E by exact N.
    destruct (Inv wk E) as [H|I]; [now left | right; now apply Li].
Qed.

Lemma pool_join_sent srv sched pool w i wk :
  nth_error pool i = Some wk ->
  wk_phase wk = Submitted ->
  In (CalcMulti (wk_provider wk) (wk_requests wk))
     (log (snd (pool_join srv sched pool w))).
Proof.
  intros E Ph.
  assert (L : i < List.length (fst (pool_join srv sched pool w))).
  { unfold pool_join. rewrite pool_steps_length.
    apply nth_error_Some. congruence. }
  apply nth_error_Some in L.
  destruct (nth_error (fst (pool_join srv sched pool w)) i) as [wk'|] eqn:E';
    [|congruence].
  destruct (pool_join_all_finished srv sched pool w i wk' E') as [r Fin].
  unfold pool_join in *.
  assert (Inv : forall wk0, nth_error pool i = Some wk0 ->
            (wk_phase wk0 = Submitted /\
             CalcMulti (wk_provider wk0) (wk_requests wk0) =
             CalcMulti (wk_provider wk) (wk_requests wk)) \/
            In (CalcMulti (wk_provider wk) (wk_requests wk)) (log w)).
  { intros wk0 E0. left. assert (wk0 = wk) by congruence. subst wk0. now split. }
  destruct (pool_steps_sent srv i _ _ pool w Inv wk' E') as [[Sub _]|I];
    [congruence | exact I].
Qed.

(** A synchronous flush sends every batch it made. *)
Lemma flush_sends_every_batch `{MO : MarketOrder} srv sched c w (j : Job) :
  is_async (get_ctx c w) = false ->
  In j (jobs_of (get_ctx c w) (dict_keys (pending (get_ctx c w)))) ->
  In (CalcMulti (fst j) (snd j)) (log (res_world (__calc srv sched c w))).
Proof.
  intros Ha Ij. unfold __calc, bind. rewrite snapshot_eq.
  unfold jobs_of in Ij.
  set (rbp := requests_by_provider _) in *.
  set (w1 := emit _ (emit _ w)).
  assert (Ha1 : is_async (get_ctx c w1) = false) by exact Ha.
  change (get_ctx c w) with (get_ctx c w1) in Ij. clearbody w1 rbp.
  unfold dispatch_all.
  destruct rbp as [|e0 rbp]; [destruct Ij|].
  unfold bind, reads. rewrite Ha1, orb_false_r.
  destruct (1 <? List.length (e0 :: rbp)) eqn:Len.
  - unfold modify. cbn [res_world].
    apply In_nth_error in Ij as [i Ei].
    apply (pool_join_sent srv sched _ w1 i
             (mkWorker c (fst j) (snd j) Submitted)); [|reflexivity].
    apply (map_nth_error (fun j0 : Job => mkWorker c (fst j0) (snd j0) Submitted))
      in Ei. exact Ei.
  - destruct rbp as [|e1 rbp]; [|discriminate Len].
    destruct Ij as [<-|[]]. cbn [jobs map for_each fst snd].
    unfold bind, run_requests. rewrite dispatch_eq.
    set (rs := match try_block _ _ _ _ with Raised _ => _ | Returned r => r end).
    pose proof (resolve_log c rs (emit (CalcMulti (fst e0)
                  (build_requests (get_ctx c w1) (snd e0))) w1)) as L.
    destruct (resolve c rs _) as [[] w3|x w3]; cbn [res_world ret] in *;
      rewrite L; apply in_or_app; left; apply in_or_app; right; now left.
Qed.

(** A pending map that is not empty gives a flush at least one batch. *)
Lemma jobs_of_nonempty `{MO : MarketOrder} ctx (keys : list PendingKey) :
  keys <> [] -> jobs_of ctx keys <> [].
Proof.
  destruct keys as [|k keys]; [congruence|]. intros _.
  destruct (job_of_key ctx (k :: keys) k) as (j & Ij & _); [now left|].
  intros E. now rewrite E in Ij.
Qed.

(** ** [calc] as a whole and the cache *)

Lemma dict_keys_nonempty {K V} (d : dict K V) : d <> [] -> dict_keys d <> [].
Proof. destruct d; [congruence | discriminate]. Qed.

(** C9, amended: when the active context has no pending entry for the pair
    and the cache of a caching context holds the pair, [calc] completes a
    fresh future with the cached value and registers it nowhere.  On a
    context that is entered or asynchronous that is all [calc] does: no
    context changes and no provider is called.  On a synchronous context
    that is not entered [calc] then flushes the context's own pending map:
    the future keeps the cached value and no other context changes, no
    provider is called when that pending map is empty, and every batch of
    the entries left in it is sent to its provider.  When caching is
    disabled, the locked block of [calc] does the same whatever the cache
    holds: it registers a fresh unresolved future under the pair in the
    active context, which is what [calc] returns on a context that is
    entered or asynchronous and what the flush of [calc] starts from on a
    synchronous context that is not entered. *)
Theorem calc_consults_cache_only_when_enabled `{MO : MarketOrder}
    (srv : Session) (sched : list nat) (w : World) (self : CtxId)
    (p : Priceable) (m : RiskMeasure) :
  let a := active_context self w in
  let ctx := get_ctx self w in
  let k := __risk_key self m (provider p) w in
  let f := List.length (futures w) in
  self < List.length (contexts w) ->
  dict_get (k, p) (pending (get_ctx a w)) = None ->
  (forall f0, In f0 (dict_values (pending ctx)) -> f0 < List.length (futures w)) ->
  (forall v,
     use_cache ctx = true ->
     PricingCache.get k p (cache w) = Some v ->
     let r := calc srv sched self p m w in
     (is_entered ctx || is_async ctx = true ->
      exists w', r = Ok f w' /\
                 future_value f w' = Some v /\
                 contexts w' = contexts w /\
                 cache w' = cache w /\
                 log w' = log w ++ [Acquire a; Release a]) /\
     (is_entered ctx = false -> is_async ctx = false ->
      (r = Ok f (res_world r) \/ exists e, r = Raise e (res_world r)) /\
      future_value f (res_world r) = Some v /\
      (forall c', c' <> self -> get_ctx c' (res_world r) = get_ctx c' w) /\
      (pending ctx = [] ->
       exists w', r = Ok f w' /\
                  contexts w' = contexts w /\
                  cache w' = cache w /\
                  log w' = log w ++ [Acquire a; Release a;
                                     Acquire self; Release self]) /\
      (forall j, In j (jobs_of ctx (dict_keys (pending ctx))) ->
                 In (CalcMulti (fst j) (snd j)) (log (res_world r))) /\
      (pending ctx <> [] -> jobs_of ctx (dict_keys (pending ctx)) <> []))) /\
  (use_cache ctx = false ->
   forall cs,
     let w1 := emit (Release a)
                 (set_pending a (dict_set (k, p) f (pending (get_ctx a w)))
                    (set_futures (futures w ++ [None]) (emit (Acquire a) w))) in
     calc_locked self p m (set_cache cs w) = Ok f (set_cache cs w1) /\
     done f w1 = false /\
     dict_get (k, p) (pending (get_ctx a w1)) = Some f /\
     log w1 = log w ++ [Acquire a; Release a] /\
     (is_entered ctx || is_async ctx = true ->
      calc srv sched self p m (set_cache cs w) = Ok f (set_cache cs w1)) /\
     (is_entered ctx = false -> is_async ctx = false ->
      calc srv sched self p m (set_cache cs w) =
      match __calc srv sched self (set_cache cs w1) with
      | Ok _ w2 => Ok f w2
      | Raise e w2 => Raise e w2
      end)).
Proof.
  intros a ctx k f Hself Hnone Halloc. split.
  - intros v Hu Hg r.
    assert (El : calc_locked self p m w =
                 Ok f (emit (Release a)
                         (set_futures (futures w ++ [Some v]) (emit (Acquire a) w)))).
    { rewrite calc_locked_eq. fold a k f. rewrite Hnone.
      fold ctx. now rewrite Hu, Hg. }
    set (w1 := emit (Release a) _) in El.
    split.
    + intros Hd. exists w1. unfold r. rewrite calc_no_flush by exact Hd.
      split; [exact El|]. repeat split.
      * unfold future_value. simpl. unfold f. now rewrite nth_error_app_last.
      * simpl. now rewrite <- app_assoc.
    + intros He Ha.
      assert (Er : r = match __calc srv sched self w1 with
                       | Ok _ w2 => Ok f w2
                       | Raise e w2 => Raise e w2
                       end).
      { unfold r. rewrite calc_sync_eq by assumption. now rewrite El. }
      assert (Ew : res_world r = res_world (__calc srv sched self w1)).
      { rewrite Er. now destruct (__calc srv sched self w1). }
      assert (Ha1 : is_async (get_ctx self w1) = false) by exact Ha.
      pose proof (flush_touches srv sched self w1 Ha1) as (T1 & T2 & _).
      split; [|split; [|split; [|split; [|split]]]].
      * rewrite Ew, Er. destruct (__calc srv sched self w1) as [[] w2|e w2]; simpl.
        -- now left.
        -- right. now exists e.
      * rewrite Ew. unfold future_value. rewrite T2.
        -- simpl. unfold f. now rewrite nth_error_app_last.
        -- intros I. apply Halloc in I. unfold f in I. lia.
      * intros c' N. rewrite Ew. now rewrite T1.
      * intros Hp. rewrite Er.
        rewrite flush_nothing_pending by exact Hp.
        eexists. split; [reflexivity|]. repeat split.
        simpl. now rewrite <- !app_assoc.
      * intros j Ij. rewrite Ew.
        now apply (flush_sends_every_batch srv sched self w1 j Ha1).
      * intros Hp. apply jobs_of_nonempty. now apply dict_keys_nonempty.
  - intros Hu cs w1.
    assert (Ha : a < List.length (contexts w)).
    { destruct (Nat.eq_dec a self) as [E|N]; [now rewrite E|].
      now apply active_context_valid. }
    assert (El : calc_locked self p m (set_cache cs w) = Ok f (set_cache cs w1)).
    { rewrite calc_locked_eq.
      change (active_context self (set_cache cs w)) with a.
      change (__risk_key self m (provider p) (set_cache cs w)) with k.
      change (get_ctx ?c (set_cache cs w)) with (get_ctx c w).
      change (futures (set_cache cs w)) with (futures w). fold f.
      rewrite Hnone. fold ctx. rewrite Hu. reflexivity. }
    split; [exact El|]. split; [|split; [|split; [|split]]].
    + unfold done. simpl. unfold f. now rewrite nth_error_app_last.
    + unfold w1. change (get_ctx ?c (emit ?e ?w0)) with (get_ctx c w0).
      rewrite get_ctx_set_pending_eq by exact Ha. simpl. apply dict_get_set_same.
    + simpl. now rewrite <- app_assoc.
    + intros Hd. rewrite calc_no_flush by exact Hd. exact El.
    + intros He Ha'. rewrite calc_sync_eq by assumption. now rewrite El.
Qed.

(** C9 at work: a synchronous caching context that is not entered, whose
    cache holds the pair [swap] and which has [bond] left pending. *)
Lemma calc_consults_cache_only_when_enabled_witness :
  let k := Ex.key 7 20%Z 5 in
  let w := Ex.world [Ex.context false true false [((Ex.key 8 20%Z 5, Ex.bond), 0)]]
             [] (PricingCache.put k Ex.swap (FloatWithInfo 42) []) [None] in
  let r := calc Ex.srv_ok [] 0 Ex.swap 5 w in
  (r = Ok 1 (res_world r) \/ exists e, r = Raise e (res_world r)) /\
  future_value 1 (res_world r) = Some (FloatWithInfo 42) /\
  (forall c', c' <> 0 -> get_ctx c' (res_world r) = get_ctx c' w) /\
  (pending (get_ctx 0 w) = [] ->
   exists w', r = Ok 1 w' /\
              contexts w' = contexts w /\
              cache w' = cache w /\
              log w' = log w ++ [Acquire 0; Release 0; Acquire 0; Release 0]) /\
  (forall j, In j (jobs_of (get_ctx 0 w) (dict_keys (pending (get_ctx 0 w)))) ->
             In (CalcMulti (fst j) (snd j)) (log (res_world r))) /\
  (pending (get_ctx 0 w) <> [] ->
   jobs_of (get_ctx 0 w) (dict_keys (pending (get_ctx 0 w))) <> []).
Proof.
  intros k w r.
  refine (proj2 (proj1 (calc_consults_cache_only_when_enabled
                          Ex.srv_ok [] w 0 Ex.swap 5 _ _ _)
                   (FloatWithInfo 42) _ _) _ _).
  - simpl. lia.
  - reflexivity.
  - intros f0 [<-|[]]. simpl. lia.
  - reflexivity.
  - vm_compute. reflexivity.
  - reflexivity.
  - reflexivity.
Defined.

(** ** [calc] as a whole under another active context *)

(** C10, amended: when [calc] is invoked on [C] while another context [D] is
    the innermost entered one, the key is built from [C]'s pricing date,
    market and csa term and the process-wide scenario path, whatever [D] is
    configured with; unless [C]'s cache answers, the future is the one
    found in, or newly registered in, [D]'s pending map between acquiring
    and releasing [D]'s lock, which leaves [C]'s own pending map as it was.
    If [C] is entered or asynchronous, that is all [calc] does.  If [C] is
    synchronous and not entered, [calc] then flushes [C]'s own pending map:
    [D], the entry included, is not changed by that flush, the future is
    left as the locked block left it unless [C] holds it pending too, the
    flush only takes [C]'s lock when [C] has nothing pending, it sends
    every batch of the entries [C] has pending, and [calc] returns the
    future or raises what the flush raises. *)
Theorem calc_keys_by_caller_registers_in_active `{MO : MarketOrder}
    (srv : Session) (sched : list nat) (w : World) (C D : CtxId)
    (p : Priceable) (m : RiskMeasure) :
  let ctx := get_ctx C w in
  active_context C w = D ->
  D <> C ->
  use_cache ctx = false \/
    PricingCache.get (__risk_key C m (provider p) w) p (cache w) = None ->
  let k := mkRiskKey (provider p) (pricing_date ctx)
             (market ctx) (mkParams (csa_term ctx) true)
             (__scenario w) m in
  let r := calc srv sched C p m w in
  (forall ctxD, __risk_key C m (provider p) (set_ctx D ctxD w) = k) /\
  exists f w1,
    calc_locked C p m w = Ok f w1 /\
    dict_get (k, p) (pending (get_ctx D w1)) = Some f /\
    (dict_get (k, p) (pending (get_ctx D w)) = Some f \/
     dict_get (k, p) (pending (get_ctx D w)) = None /\
     f = List.length (futures w) /\ done f w1 = false) /\
    pending (get_ctx C w1) = pending (get_ctx C w) /\
    log w1 = log w ++ [Acquire D; Release D] /\
    (is_entered ctx || is_async ctx = true -> r = Ok f w1) /\
    (is_entered ctx = false -> is_async ctx = false ->
     (r = Ok f (res_world r) \/ exists e, r = Raise e (res_world r)) /\
     res_world r = res_world (__calc srv sched C w1) /\
     get_ctx D (res_world r) = get_ctx D w1 /\
     dict_get (k, p) (pending (get_ctx D (res_world r))) = Some f /\
     (~ In f (dict_values (pending ctx)) ->
      nth_error (futures (res_world r)) f = nth_error (futures w1) f) /\
     (pending ctx = [] ->
      r = Ok f (emit (Release C) (emit (Acquire C) w1))) /\
     (forall j, In j (jobs_of ctx (dict_keys (pending ctx))) ->
                In (CalcMulti (fst j) (snd j)) (log (res_world r)))).
Proof.
  intros ctx HD HDC Hmiss k r.
  assert (Hk : __risk_key C m (provider p) w = k) by reflexivity.
  split.
  { intros ctxD. unfold __risk_key, get_ctx, set_ctx. simpl.
    rewrite nth_list_update_neq by exact HDC. reflexivity. }
  pose proof (active_context_valid C w) as [HDlt _]; [congruence|].
  rewrite HD in HDlt.
  assert (Hl : exists f w1,
             calc_locked C p m w = Ok f w1 /\
             dict_get (k, p) (pending (get_ctx D w1)) = Some f /\
             (dict_get (k, p) (pending (get_ctx D w)) = Some f \/
              dict_get (k, p) (pending (get_ctx D w)) = None /\
              f = List.length (futures w) /\ done f w1 = false) /\
             get_ctx C w1 = get_ctx C w /\
             log w1 = log w ++ [Acquire D; Release D]).
  { rewrite calc_locked_eq, HD, Hk. rewrite Hk in Hmiss.
    destruct (dict_get (k, p) (pending (get_ctx D w))) as [f|] eqn:G.
    - exists f, (emit (Release D) (emit (Acquire D) w)).
      repeat split; auto. simpl. now rewrite <- app_assoc.
    - assert (Hc : (if use_cache (get_ctx C w)
                    then PricingCache.get k p (cache w) else None) = None).
      { destruct Hmiss as [E | ->]; [fold ctx; now rewrite E|].
        now destruct (use_cache (get_ctx C w)). }
      rewrite Hc. eexists _, _. split; [reflexivity|].
      change (get_ctx ?c (emit ?e ?w0)) with (get_ctx c w0).
      rewrite get_ctx_set_pending_eq by exact HDlt.
      rewrite get_ctx_set_pending_neq by exact HDC.
      repeat split.
      + simpl. apply dict_get_set_same.
      + right. repeat split.
        unfold done. simpl. now rewrite nth_error_app_last.
      + simpl. now rewrite <- app_assoc. }
  destruct Hl as (f & w1 & El & G1 & Hf & EC & Elog).
  exists f, w1. split; [exact El|]. split; [exact G1|]. split; [exact Hf|].
  split; [now rewrite EC|]. split; [exact Elog|]. split.
  - intros Hd. unfold r. rewrite calc_no_flush by exact Hd. exact El.
  - intros He Ha.
    assert (Er : r = match __calc srv sched C w1 with
                     | Ok _ w2 => Ok f w2
                     | Raise e w2 => Raise e w2
                     end).
    { unfold r. rewrite calc_sync_eq by assumption. now rewrite El. }
    assert (Ew : res_world r = res_world (__calc srv sched C w1)).
    { rewrite Er. now destruct (__calc srv sched C w1). }
    assert (Ha1 : is_async (get_ctx C w1) = false) by (now rewrite EC).
    pose proof (flush_touches srv sched C w1 Ha1) as (T1 & T2 & _).
    split; [|split; [|split; [|split; [|split; [|split]]]]].
    + rewrite Ew, Er. destruct (__calc srv sched C w1) as [[] w2|e w2]; simpl.
      * now left.
      * right. now exists e.
    + exact Ew.
    + rewrite Ew. now apply T1.
    + rewrite Ew, T1 by exact HDC. exact G1.
    + intros N. rewrite Ew. apply T2. now rewrite EC.
    + intros Hp. rewrite Er, flush_nothing_pending; [reflexivity|].
      now rewrite EC.
    + intros j Ij. rewrite Ew.
      apply (flush_sends_every_batch srv sched C w1 j Ha1). now rewrite EC.
Qed.

(** C10 at work: context 0, synchronous and not entered, is called while
    context 1, configured with another date, market and csa term, is
    entered; the key carries the date and market of context 0 and the
    future lands in the pending map of context 1. *)
Lemma calc_keys_by_caller_registers_in_active_witness :
  let C := Ex.context false false false [] in
  let D := mkContext 99%Z None false false false false (Some "USD-OIS"%string)
             None (LiveMarket 3) [] true in
  let w := Ex.world [C; D] [1] [] [] in
  let r := calc Ex.srv_ok [] 0 Ex.swap 5 w in
  exists f w1,
    calc_locked 0 Ex.swap 5 w = Ok f w1 /\
    dict_get (Ex.key 7 20%Z 5, Ex.swap) (pending (get_ctx 1 w1)) = Some f /\
    (dict_get (Ex.key 7 20%Z 5, Ex.swap) (pending (get_ctx 1 w)) = Some f \/
     dict_get (Ex.key 7 20%Z 5, Ex.swap) (pending (get_ctx 1 w)) = None /\
     f = List.length (futures w) /\ done f w1 = false) /\
    pending (get_ctx 0 w1) = pending (get_ctx 0 w) /\
    log w1 = log w ++ [Acquire 1; Release 1] /\
    (is_entered (get_ctx 0 w) || is_async (get_ctx 0 w) = true -> r = Ok f w1) /\
    (is_entered (get_ctx 0 w) = false -> is_async (get_ctx 0 w) = false ->
     (r = Ok f (res_world r) \/ exists e, r = Raise e (res_world r)) /\
     res_world r = res_world (__calc Ex.srv_ok [] 0 w1) /\
     get_ctx 1 (res_world r) = get_ctx 1 w1 /\
     dict_get (Ex.key 7 20%Z 5, Ex.swap) (pending (get_ctx 1 (res_world r))) =
       Some f /\
     (~ In f (dict_values (pending (get_ctx 0 w))) ->
      nth_error (futures (res_world r)) f = nth_error (futures w1) f) /\
     (pending (get_ctx 0 w) = [] ->
      r = Ok f (emit (Release 0) (emit (Acquire 0) w1))) /\
     (forall j, In j (jobs_of (get_ctx 0 w) (dict_keys (pending (get_ctx 0 w)))) ->
                In (CalcMulti (fst j) (snd j)) (log (res_world r)))).
Proof.
  intros C D w r.
  refine (proj2 (calc_keys_by_caller_registers_in_active
                   Ex.srv_ok [] w 0 1 Ex.swap 5 _ _ _)).
  - reflexivity.
  - lia.
  - left. reflexivity.
Defined.
